(** * ParallelExecutor: batch scheduling, strategy runs and ranking

    A shallow embedding of [src/execution/ParallelExecutor.ts].

    - JavaScript numbers that the executor compares or subtracts (accuracy,
      training time, model size) are exact rationals [Q]; [loss], which the
      failure sentinel sets to [Infinity], is a rational or [+oo].
    - An [async] function is a process that runs from one [await] to the
      next.  The executor's observable state (the progress channel, the
      calls made to the agents, the [AbortController]s, the
      [activeExecutions] map and the pending timeouts) is the record
      [World], threaded through every step.
    - The agents, the clock and [Math.random] are outside this file; they
      come in through the record [Env]. *)

From Stdlib Require Import QArith Qround Qabs.
From Stdlib Require Import Lqa.
From stdpp Require Import gmap strings list fin_maps sorting.

(** ** Data model *)

Inductive Phase := data | model | training | evaluation.

Inductive Status := pending | running | completed | failed.

#[global] Instance Phase_eq_dec : EqDecision Phase.
Proof. solve_decision. Defined.

#[global] Instance Status_eq_dec : EqDecision Status.
Proof. solve_decision. Defined.

Definition phaseName (ph : Phase) : string :=
  match ph with
  | data => "data"
  | model => "model"
  | training => "training"
  | evaluation => "evaluation"
  end.

(** A JavaScript number that may be [Infinity]. *)
Inductive number := Finite (q : Q) | Infinity.

(** The [data] payload of an [AgentResult].  The executor reads
    [accuracy], [loss], [trainingTime] and [model] (here [model_]) from
    it; everything else in it is passed on to the next agent unread. *)
Record Payload := {
  accuracy : Q;
  loss : number;
  trainingTime : Q;
  model_ : option nat
}.

Record AgentResult := {
  success : bool;
  data_ : option Payload
}.

Record AgentTask := {
  id : string;
  type : string
}.

(** The fields of an [OptimizationPlan] that the executor reads
    ([trainingConfig] is handed to the training agent unread). *)
Record OptimizationPlan := {
  strategyId : string;
  approach : string;
  architecture : string
}.

Record ExecutionProgress := {
  ep_strategyId : string;
  ep_phase : Phase;
  ep_progress : nat;
  ep_status : Status;
  ep_message : string;
  ep_metrics : option Payload
}.

Record Metrics := {
  m_accuracy : Q;
  m_loss : number;
  m_trainingTime : Q;
  m_modelSize : Q
}.

Record ExecutionResult := {
  r_strategyId : string;
  r_success : bool;
  finalMetrics : Metrics;
  r_model : option nat;
  r_error : option string
}.

(** What a [throw] carries: an [Error] with its message, or a value that
    is not an [Error] and has no [message]. *)
Inductive Thrown := JsError (message : string) | JsOther.

(** How the promise returned by an agent settles. *)
Inductive Outcome := Resolves (r : AgentResult) | Throws (e : Thrown).

(** ** The environment *)

Record Env := {
  (** [agent.execute(task)] of the agent of a phase, for a plan *)
  agentExecute : Phase -> OptimizationPlan -> Outcome;
  (** did the plan's timeout elapse while the agent of this phase was
      awaited? *)
  timerFires : OptimizationPlan -> Phase -> bool;
  (** the value [Math.random()] returns in [calculateModelSize] *)
  random : OptimizationPlan -> Q;
  (** a number inside a template string *)
  showNumber : Q -> string
}.

(** ** The executor's state *)

Record World := {
  (** the 'progress' events emitted so far, oldest first *)
  events : list ExecutionProgress;
  (** the calls of [agent.execute] so far, oldest first *)
  invocations : list (Phase * AgentTask);
  (** every [AbortController] created so far: its [signal.aborted] *)
  controllers : list bool;
  (** [this.activeExecutions] *)
  activeExecutions : gmap string nat;
  (** pending [setTimeout]s: the controller each will abort, and its delay *)
  timers : gmap nat Z
}.

Definition emptyWorld : World :=
  {| events := []; invocations := []; controllers := [];
     activeExecutions := ∅; timers := ∅ |}.

Definition withEvents (f : list ExecutionProgress -> list ExecutionProgress)
    (w : World) : World :=
  {| events := f (events w); invocations := invocations w;
     controllers := controllers w; activeExecutions := activeExecutions w;
     timers := timers w |}.

Definition withInvocations (f : list (Phase * AgentTask) -> list (Phase * AgentTask))
    (w : World) : World :=
  {| events := events w; invocations := f (invocations w);
     controllers := controllers w; activeExecutions := activeExecutions w;
     timers := timers w |}.

Definition withControllers (f : list bool -> list bool) (w : World) : World :=
  {| events := events w; invocations := invocations w;
     controllers := f (controllers w); activeExecutions := activeExecutions w;
     timers := timers w |}.

Definition withActive (f : gmap string nat -> gmap string nat) (w : World) : World :=
  {| events := events w; invocations := invocations w;
     controllers := controllers w; activeExecutions := f (activeExecutions w);
     timers := timers w |}.

Definition withTimers (f : gmap nat Z -> gmap nat Z) (w : World) : World :=
  {| events := events w; invocations := invocations w;
     controllers := controllers w; activeExecutions := activeExecutions w;
     timers := f (timers w) |}.

(** Modelled from the spec: [EventEmitter.emit] of [../events/EventEmitter],
    which is not part of the sources at hand.  The spec describes the
    progress channel as a publish mechanism with no logic of its own, so an
    emitted event is appended to the channel and nothing else happens. *)
Definition emit (p : ExecutionProgress) (w : World) : World :=
  withEvents (fun es => es ++ [p]) w.

Definition emitProgress (progress : ExecutionProgress) (w : World) : World :=
  emit progress w.

(** [signal.aborted] of a controller *)
Definition aborted (ctl : nat) (w : World) : bool :=
  default false (controllers w !! ctl).

(** [controller.abort()] *)
Definition abort (ctl : nat) (w : World) : World :=
  withControllers (fun cs => <[ctl := true]> cs) w.

(** [new AbortController()] *)
Definition newAbortController (w : World) : nat * World :=
  (length (controllers w), withControllers (fun cs => cs ++ [false]) w).

(** [setTimeout(() => abortController.abort(), timeout)]; the timer is
    named after the controller it aborts *)
Definition setTimeout (ctl : nat) (timeout : Z) (w : World) : World :=
  withTimers (fun ts => <[ctl := timeout]> ts) w.

Definition clearTimeout (timeoutId : nat) (w : World) : World :=
  withTimers (fun ts => delete timeoutId ts) w.

(** The event loop runs a timer that is due: its callback aborts the
    controller, and the timer is no longer pending. *)
Definition fireTimer (ctl : nat) (w : World) : World :=
  match timers w !! ctl with
  | Some _ => clearTimeout ctl (abort ctl w)
  | None => w
  end.

(** ** The phase executor *)

Definition runningEvent (phase : Phase) (plan : OptimizationPlan) : ExecutionProgress :=
  {| ep_strategyId := strategyId plan;
     ep_phase := phase;
     ep_progress := 25;
     ep_status := running;
     ep_message := "Executing " +:+ phaseName phase +:+ " phase";
     ep_metrics := None |}.

Definition completedEvent (phase : Phase) (plan : OptimizationPlan) : ExecutionProgress :=
  {| ep_strategyId := strategyId plan;
     ep_phase := phase;
     ep_progress := 100;
     ep_status := completed;
     ep_message := phaseName phase +:+ " phase completed";
     ep_metrics := None |}.

(** [executePhase] up to its [await]: the check of the signal, the
    'running' event and the call of [executor], which returns the promise
    that is awaited (here: how it will settle). *)
Definition executePhaseEnter (phase : Phase) (plan : OptimizationPlan)
    (executor : World -> World * Outcome) (signal : nat) (w : World)
    : World * (Thrown + Outcome) :=
  if aborted signal w then (w, inl (JsError "Execution aborted"))
  else
    let '(w', o) := executor (emitProgress (runningEvent phase plan) w) in
    (w', inr o).

(** [executePhase] from its [await] on: a rejection of the awaited promise
    is thrown on, a result is announced with a 'completed' event and
    returned. *)
Definition executePhaseLeave (phase : Phase) (plan : OptimizationPlan)
    (o : Outcome) (w : World) : World * (Thrown + AgentResult) :=
  match o with
  | Throws e => (w, inl e)
  | Resolves result => (emitProgress (completedEvent phase plan) w, inr result)
  end.

(** One whole call of [executePhase], with nothing else running while the
    executor's promise is awaited. *)
Definition executePhase (phase : Phase) (plan : OptimizationPlan)
    (executor : World -> World * Outcome) (signal : nat) (w : World)
    : World * (Thrown + AgentResult) :=
  match executePhaseEnter phase plan executor signal w with
  | (w', inl e) => (w', inl e)
  | (w', inr o) => executePhaseLeave phase plan o w'
  end.

(** ** The strategy runner *)

(** The [await] at which [executeSingleStrategy] is suspended, with the
    results it holds at that point. *)
Inductive Suspended :=
| AtData
| AtModel (dataResult : AgentResult)
| AtTraining (dataResult modelResult : AgentResult)
| AtEvaluation (dataResult modelResult trainingResult : AgentResult).

Definition phaseOf (at_ : Suspended) : Phase :=
  match at_ with
  | AtData => data
  | AtModel _ => model
  | AtTraining _ _ => training
  | AtEvaluation _ _ _ => evaluation
  end.

(** The promise returned by [executeSingleStrategy].  While it is pending
    the strategy waits for the promise of an agent, which will settle as
    [o]; [abortController] is the strategy's own controller (and the name
    of its timer). *)
Inductive Promise :=
| Pending (abortController : nat) (at_ : Suspended) (o : Outcome)
| Fulfilled (value : ExecutionResult)
| Rejected (reason : Thrown).

(** [await agent.execute(task)]: the call is recorded, the environment says
    how it settles. *)
Definition callAgent (env : Env) (phase : Phase) (plan : OptimizationPlan)
    (task : AgentTask) (w : World) : World * Outcome :=
  (withInvocations (fun cs => cs ++ [(phase, task)]) w, agentExecute env phase plan).

(** Reading a property of [undefined] (the message is V8's). *)
Definition typeError (property : string) : Thrown :=
  JsError ("Cannot read properties of undefined (reading '" +:+ property +:+ "')").

(** The four closures handed to [executePhase]. *)
Definition executorOf (env : Env) (plan : OptimizationPlan) (at_ : Suspended)
    (w : World) : World * Outcome :=
  match at_ with
  | AtData =>
      callAgent env data plan
        {| id := "data-" +:+ strategyId plan; type := "preprocess" |} w
  | AtModel _ =>
      callAgent env model plan
        {| id := "model-" +:+ strategyId plan; type := "design" |} w
  | AtTraining _ _ =>
      callAgent env training plan
        {| id := "train-" +:+ strategyId plan; type := "train" |} w
  | AtEvaluation dataResult _ trainingResult =>
      match data_ trainingResult, data_ dataResult with
      | None, _ => (w, Throws (typeError "model"))
      | Some _, None => (w, Throws (typeError "test"))
      | Some _, Some _ =>
          callAgent env evaluation plan
            {| id := "eval-" +:+ strategyId plan; type := "evaluate" |} w
      end
  end.

Definition failureMetrics : Metrics :=
  {| m_accuracy := 0; m_loss := Infinity; m_trainingTime := 0; m_modelSize := 0 |}.

Definition failedEvent (plan : OptimizationPlan) (errorMessage : string)
    : ExecutionProgress :=
  {| ep_strategyId := strategyId plan;
     ep_phase := evaluation;
     ep_progress := 0;
     ep_status := failed;
     ep_message := "Strategy failed: " +:+ errorMessage;
     ep_metrics := None |}.

(** The object literal that both [catch] paths build: the one in
    [executeSingleStrategy] and the one for a rejected promise in
    [executeStrategies]. *)
Definition failureResult (plan : OptimizationPlan) (errorMessage : string)
    : ExecutionResult :=
  {| r_strategyId := strategyId plan;
     r_success := false;
     finalMetrics := failureMetrics;
     r_model := None;
     r_error := Some errorMessage |}.

(** [error instanceof Error ? error.message : 'Unknown error'] *)
Definition thrownMessage (error : Thrown) : string :=
  match error with JsError m => m | JsOther => "Unknown error" end.

(** The [catch] block of [executeSingleStrategy]. *)
Definition catchBlock (plan : OptimizationPlan) (timeoutId : nat)
    (error : Thrown) (w : World) : World * ExecutionResult :=
  let w1 := clearTimeout timeoutId w in
  let w2 := withActive (delete (strategyId plan)) w1 in
  let errorMessage := thrownMessage error in
  (emitProgress (failedEvent plan errorMessage) w2,
   failureResult plan errorMessage).

(** [Math.round(Math.random() * 50 + 10)] *)
Definition calculateModelSize (env : Env) (plan : OptimizationPlan) : Q :=
  inject_Z (Qfloor (random env plan * 50 + 10 + (1 # 2))%Q).

(** The call of [executePhase] for the phase of [at_], up to the [await]
    inside it.  A throw lands in the [catch] block. *)
Definition enterPhase (env : Env) (plan : OptimizationPlan)
    (abortController : nat) (at_ : Suspended) (w : World) : World * Promise :=
  match executePhaseEnter (phaseOf at_) plan (executorOf env plan at_)
          abortController w with
  | (w', inl e) =>
      let '(w'', r) := catchBlock plan abortController e w' in (w'', Fulfilled r)
  | (w', inr o) => (w', Pending abortController at_ o)
  end.

(** The end of the [try] block, after the evaluation phase. *)
Definition finishStrategy (env : Env) (plan : OptimizationPlan) (timeoutId : nat)
    (trainingResult evalResult : AgentResult) (w : World) : World * ExecutionResult :=
  let w1 := clearTimeout timeoutId w in
  let w2 := withActive (delete (strategyId plan)) w1 in
  match data_ evalResult with
  | None => catchBlock plan timeoutId (typeError "accuracy") w2
  | Some ev =>
      let w3 :=
        emitProgress
          {| ep_strategyId := strategyId plan;
             ep_phase := evaluation;
             ep_progress := 100;
             ep_status := completed;
             ep_message :=
               "Strategy completed with " +:+ showNumber env (accuracy ev)
               +:+ "% accuracy";
             ep_metrics := Some ev |} w2 in
      match data_ trainingResult with
      | None => catchBlock plan timeoutId (typeError "trainingTime") w3
      | Some tr =>
          (w3,
           {| r_strategyId := strategyId plan;
              r_success := true;
              finalMetrics :=
                {| m_accuracy := accuracy ev;
                   m_loss := loss ev;
                   m_trainingTime := trainingTime tr;
                   m_modelSize := calculateModelSize env plan |};
              r_model := model_ tr;
              r_error := None |})
      end
  end.

(** [executeSingleStrategy] from the settling of the agent's promise it
    waits for to its next [await] or its [return].  The timeout may have
    elapsed during the wait. *)
Definition resumeStrategy (env : Env) (plan : OptimizationPlan)
    (abortController : nat) (at_ : Suspended) (o : Outcome) (w : World)
    : World * Promise :=
  let w0 :=
    if timerFires env plan (phaseOf at_) then fireTimer abortController w else w in
  let throw (e : Thrown) (w' : World) : World * Promise :=
    let '(w'', r) := catchBlock plan abortController e w' in (w'', Fulfilled r) in
  match executePhaseLeave (phaseOf at_) plan o w0 with
  | (w1, inl e) => throw e w1
  | (w1, inr result) =>
      match at_ with
      | AtData =>
          if negb (success result)
          then throw (JsError "Data processing failed") w1
          else enterPhase env plan abortController (AtModel result) w1
      | AtModel dataResult =>
          if negb (success result)
          then throw (JsError "Model design failed") w1
          else enterPhase env plan abortController
                 (AtTraining dataResult result) w1
      | AtTraining dataResult modelResult =>
          if negb (success result)
          then throw (JsError "Training failed") w1
          else enterPhase env plan abortController
                 (AtEvaluation dataResult modelResult result) w1
      | AtEvaluation _ _ trainingResult =>
          let '(w2, r) := finishStrategy env plan abortController
                            trainingResult result w1 in
          (w2, Fulfilled r)
      end
  end.

Definition startEvent (plan : OptimizationPlan) : ExecutionProgress :=
  {| ep_strategyId := strategyId plan;
     ep_phase := data;
     ep_progress := 0;
     ep_status := running;
     ep_message := "Starting " +:+ approach plan +:+ " strategy";
     ep_metrics := None |}.

(** The call [executeSingleStrategy(plan, data, timeout)]: it runs up to
    its first [await] and returns its promise. *)
Definition startStrategy (env : Env) (plan : OptimizationPlan) (timeout : Z)
    (w : World) : World * Promise :=
  let '(abortController, w1) := newAbortController w in
  let w2 := withActive (fun m => <[strategyId plan := abortController]> m) w1 in
  let w3 := setTimeout abortController timeout w2 in
  let w4 := emitProgress (startEvent plan) w3 in
  enterPhase env plan abortController AtData w4.

(** The world once [executeSingleStrategy] has created and registered its
    controller and set its timer (its first three statements). *)
Definition registered (plan : OptimizationPlan) (timeout : Z) (w : World) : World :=
  setTimeout (length (controllers w)) timeout
    (withActive (fun m => <[strategyId plan := length (controllers w)]> m)
       (newAbortController w).2).

(** One step of the event loop on a strategy: a settled promise stays as
    it is. *)
Definition stepStrategy (env : Env) (plan : OptimizationPlan) (p : Promise)
    (w : World) : World * Promise :=
  match p with
  | Pending abortController at_ o => resumeStrategy env plan abortController at_ o w
  | _ => (w, p)
  end.

Fixpoint stepsStrategy (n : nat) (env : Env) (plan : OptimizationPlan)
    (p : Promise) (w : World) : World * Promise :=
  match n with
  | O => (w, p)
  | S n' =>
      let '(w', p') := stepStrategy env plan p w in
      stepsStrategy n' env plan p' w'
  end.

(** [await executeSingleStrategy(plan, data, timeout)] with nothing else
    running: the call and the four resumptions that the four phases can
    take. *)
Definition executeSingleStrategy (env : Env) (plan : OptimizationPlan)
    (timeout : Z) (w : World) : World * Promise :=
  let '(w', p) := startStrategy env plan timeout w in
  stepsStrategy 4 env plan p w'.

(** ** The batch scheduler *)

(** [items.slice(i, j)] for [0 <= i <= j] *)
Definition slice {T} (i j : nat) (items : list T) : list T :=
  take (j - i) (drop i items).

(** The [for] loop of [createBatches].  With [batchSize = 0] and an item
    left the loop never ends; [None] stands for that. *)
Fixpoint createBatchesLoop {T} (fuel : nat) (items : list T) (batchSize i : nat)
    (batches : list (list T)) : option (list (list T)) :=
  match fuel with
  | O => None
  | S fuel' =>
      if bool_decide (i < length items)
      then createBatchesLoop fuel' items batchSize (i + batchSize)
             (batches ++ [slice i (i + batchSize) items])
      else Some batches
  end.

Definition createBatches {T} (items : list T) (batchSize : nat)
    : option (list (list T)) :=
  createBatchesLoop (S (length items)) items batchSize 0 [].

(** An element of the array that [Promise.allSettled] resolves to. *)
Inductive Settled :=
| fulfilled (value : ExecutionResult)
| rejected (reason : Thrown).

(** [batch.map(plan => this.executeSingleStrategy(plan, data, timeout))]:
    every strategy of the batch is called in turn and runs up to its first
    [await]. *)
Fixpoint startBatch (env : Env) (timeout : Z) (batch : list OptimizationPlan)
    (w : World) : World * list (OptimizationPlan * Promise) :=
  match batch with
  | [] => (w, [])
  | plan :: rest =>
      let '(w1, p) := startStrategy env plan timeout w in
      let '(w2, ps) := startBatch env timeout rest w1 in
      (w2, (plan, p) :: ps)
  end.

(** The event loop resumes the [i]-th strategy of the batch, if it is
    still pending. *)
Definition stepAt (env : Env) (i : nat) (ps : list (OptimizationPlan * Promise))
    (w : World) : World * list (OptimizationPlan * Promise) :=
  match ps !! i with
  | Some (plan, p) =>
      let '(w', p') := stepStrategy env plan p w in
      (w', <[i := (plan, p')]> ps)
  | None => (w, ps)
  end.

(** The strategies of a batch are resumed in the order in which the
    promises of their agents settle: the schedule. *)
Fixpoint runSchedule (env : Env) (schedule : list nat)
    (ps : list (OptimizationPlan * Promise)) (w : World)
    : World * list (OptimizationPlan * Promise) :=
  match schedule with
  | [] => (w, ps)
  | i :: schedule' =>
      let '(w', ps') := stepAt env i ps w in
      runSchedule env schedule' ps' w'
  end.

(** One more step of every strategy of the batch, in batch order. *)
Fixpoint stepAll (env : Env) (ps : list (OptimizationPlan * Promise)) (w : World)
    : World * list (OptimizationPlan * Promise) :=
  match ps with
  | [] => (w, [])
  | (plan, p) :: rest =>
      let '(w1, p') := stepStrategy env plan p w in
      let '(w2, rest') := stepAll env rest w1 in
      (w2, (plan, p') :: rest')
  end.

Fixpoint rounds (n : nat) (env : Env) (ps : list (OptimizationPlan * Promise))
    (w : World) : World * list (OptimizationPlan * Promise) :=
  match n with
  | O => (w, ps)
  | S n' =>
      let '(w', ps') := stepAll env ps w in
      rounds n' env ps' w'
  end.

(** The array of [Promise.allSettled], once no promise is pending. *)
Fixpoint allSettled (ps : list (OptimizationPlan * Promise))
    : option (list (OptimizationPlan * Settled)) :=
  match ps with
  | [] => Some []
  | (plan, p) :: rest =>
      match p, allSettled rest with
      | Fulfilled value, Some settled => Some ((plan, fulfilled value) :: settled)
      | Rejected reason, Some settled => Some ((plan, rejected reason) :: settled)
      | _, _ => None
      end
  end.

(** [await Promise.allSettled(batchPromises)]: the strategies advance as
    the schedule says, then whatever is still pending is run to its end.
    [None]: a promise never settles. *)
Definition awaitAllSettled (env : Env) (schedule : list nat)
    (ps : list (OptimizationPlan * Promise)) (w : World)
    : World * option (list (OptimizationPlan * Settled)) :=
  let '(w1, ps1) := runSchedule env schedule ps w in
  let '(w2, ps2) := rounds 4 env ps1 w1 in
  (w2, allSettled ps2).

(** [result.reason?.message || 'Unknown error'] *)
Definition reasonMessage (reason : Thrown) : string :=
  match reason with
  | JsError m => if decide (m = "") then "Unknown error" else m
  | JsOther => "Unknown error"
  end.

Definition rejectedResult (plan : OptimizationPlan) (reason : Thrown)
    : ExecutionResult :=
  failureResult plan (reasonMessage reason).

(** [value.success && value.finalMetrics.accuracy >= 0.95] *)
Definition reachesTarget (value : ExecutionResult) : bool :=
  r_success value && Qle_bool (95 # 100) (m_accuracy (finalMetrics value)).

(** The inner [for] loop of [executeStrategies] over the settled batch,
    each outcome next to its plan ([batch[i]]).  The boolean is [true]
    when the loop left through the early [return]. *)
Fixpoint collectBatch (earlyStopOnSuccess : bool)
    (batchResults : list (OptimizationPlan * Settled))
    (results : list ExecutionResult) : list ExecutionResult * bool :=
  match batchResults with
  | [] => (results, false)
  | (plan, fulfilled value) :: rest =>
      if earlyStopOnSuccess && reachesTarget value
      then (results ++ [value], true)
      else collectBatch earlyStopOnSuccess rest (results ++ [value])
  | (plan, rejected reason) :: rest =>
      collectBatch earlyStopOnSuccess rest (results ++ [rejectedResult plan reason])
  end.

Definition cancelRemainingExecutions (w : World) : World :=
  withActive (fun _ => ∅)
    (map_fold (fun _ controller w' => abort controller w') w (activeExecutions w)).

Record Options := {
  maxConcurrent : option nat;
  timeout : option Z;
  earlyStopOnSuccess : option bool
}.

Definition noOptions : Options :=
  {| maxConcurrent := None; timeout := None; earlyStopOnSuccess := None |}.

(** The outer [for] loop of [executeStrategies]; the [k]-th element of
    [schedules] is the schedule of the [k]-th batch. *)
Fixpoint runBatches (env : Env) (timeout_ : Z) (earlyStop : bool)
    (schedules : list (list nat)) (batches : list (list OptimizationPlan))
    (results : list ExecutionResult) (w : World)
    : option (World * list ExecutionResult) :=
  match batches with
  | [] => Some (w, results)
  | batch :: batches' =>
      let '(w1, batchPromises) := startBatch env timeout_ batch w in
      match awaitAllSettled env (hd [] schedules) batchPromises w1 with
      | (w2, None) => None
      | (w2, Some batchResults) =>
          match collectBatch earlyStop batchResults results with
          | (results', true) => Some (cancelRemainingExecutions w2, results')
          | (results', false) =>
              runBatches env timeout_ earlyStop (tl schedules) batches' results' w2
          end
      end
  end.

(** [executeStrategies(plans, data, options)].  [None]: the call does not
    return. *)
Definition executeStrategies (env : Env) (schedules : list (list nat))
    (plans : list OptimizationPlan) (options : Options) (w : World)
    : option (World * list ExecutionResult) :=
  let maxConcurrent_ := default 3 (maxConcurrent options) in
  let timeout_ := default 3600000%Z (timeout options) in
  let earlyStop := default false (earlyStopOnSuccess options) in
  match createBatches plans maxConcurrent_ with
  | None => None
  | Some batches => runBatches env timeout_ earlyStop schedules batches [] w
  end.

(** ** The comparator *)

(** [x < 0] and [x > y] on numbers *)
Definition negative (x : Q) : bool := negb (Qle_bool 0 x).
Definition greater (x y : Q) : bool := negb (Qle_bool x y).

(** The comparison function handed to [sort]. *)
Definition rankCompare (a b : ExecutionResult) : Q :=
  if greater (Qabs (m_accuracy (finalMetrics a) - m_accuracy (finalMetrics b)))
       (1 # 100)
  then m_accuracy (finalMetrics b) - m_accuracy (finalMetrics a)
  else m_trainingTime (finalMetrics a) - m_trainingTime (finalMetrics b).

(** [Array.prototype.sort(compareFn)] as the stable insertion sort: the
    elements are taken from left to right, and each moves left past the
    elements already placed that [compareFn] puts it strictly before.
    [placed] holds them last first. *)
Fixpoint sortInsert {T} (compareFn : T -> T -> Q) (x : T) (placed : list T) : list T :=
  match placed with
  | [] => [x]
  | y :: rest =>
      if negative (compareFn x y) then y :: sortInsert compareFn x rest
      else x :: y :: rest
  end.

Definition sort {T} (compareFn : T -> T -> Q) (l : list T) : list T :=
  reverse (fold_left (fun placed x => sortInsert compareFn x placed) l []).

(** [array.reduce(callback)] with no initial value, on a non-empty array *)
Definition reduce {T} (callback : T -> T -> T) (first : T) (others : list T) : T :=
  fold_left callback others first.

Record Analysis := {
  accuracyWinner : string;
  speedWinner : string;
  sizeWinner : string;
  overallWinner : string
}.

Record Comparison := {
  best : ExecutionResult;
  ranking : list ExecutionResult;
  analysis : Analysis
}.

(** [compareStrategies(results)]; the [recommendations], texts computed
    from the winners, are left out. *)
Definition compareStrategies (results : list ExecutionResult)
    : Thrown + Comparison :=
  let ranked := sort rankCompare (filter (fun r => r_success r = true) results) in
  match ranked with
  | [] => inl (JsError "No successful strategies to compare")
  | best_ :: others =>
      let accuracyWinner_ :=
        reduce (fun prev curr =>
                  if greater (m_accuracy (finalMetrics curr))
                       (m_accuracy (finalMetrics prev))
                  then curr else prev) best_ others in
      let speedWinner_ :=
        reduce (fun prev curr =>
                  if greater (m_trainingTime (finalMetrics prev))
                       (m_trainingTime (finalMetrics curr))
                  then curr else prev) best_ others in
      let sizeWinner_ :=
        reduce (fun prev curr =>
                  if greater (m_modelSize (finalMetrics prev))
                       (m_modelSize (finalMetrics curr))
                  then curr else prev) best_ others in
      inr {| best := best_;
             ranking := ranked;
             analysis :=
               {| accuracyWinner := r_strategyId accuracyWinner_;
                  speedWinner := r_strategyId speedWinner_;
                  sizeWinner := r_strategyId sizeWinner_;
                  overallWinner := r_strategyId best_ |} |}
  end.


(** ** Vocabulary of the properties *)

(** How far a promise is from being settled: the phases still to run. *)
Definition remaining (p : Promise) : nat :=
  match p with
  | Pending _ AtData _ => 4
  | Pending _ (AtModel _) _ => 3
  | Pending _ (AtTraining _ _) _ => 2
  | Pending _ (AtEvaluation _ _ _) _ => 1
  | _ => 0
  end.

Definition notFailed (e : ExecutionProgress) : Prop := ep_status e <> failed.

(** What one run adds to the world when it ends: the promise is fulfilled
    (never rejected), the result carries the plan's id, the strategy has
    left the registry and its timer is cleared, and a failed result is the
    failure literal, announced by one 'failed' event that comes last. *)
Definition settledBy (plan : OptimizationPlan) (ctl : nat) (es : list ExecutionProgress)
    (w' : World) (p' : Promise) : Prop :=
  match p' with
  | Pending ctl' _ _ => ctl' = ctl /\ Forall notFailed es
  | Fulfilled r =>
      r_strategyId r = strategyId plan
      /\ activeExecutions w' !! strategyId plan = None
      /\ timers w' !! ctl = None
      /\ (if r_success r
          then Forall notFailed es /\ r_error r = None
          else exists msg es0,
                 r = failureResult plan msg
                 /\ es = es0 ++ [failedEvent plan msg]
                 /\ Forall notFailed es0)
  | Rejected _ => False
  end.

(** The tasks that the executors of a plan hand to the agents. *)
Definition taskOf (plan : OptimizationPlan) (c : Phase * AgentTask) : Prop :=
  c = (data, {| id := "data-" +:+ strategyId plan; type := "preprocess" |})
  \/ c = (model, {| id := "model-" +:+ strategyId plan; type := "design" |})
  \/ c = (training, {| id := "train-" +:+ strategyId plan; type := "train" |})
  \/ c = (evaluation, {| id := "eval-" +:+ strategyId plan; type := "evaluate" |}).

(** What a step of a strategy does to the world: it appends the events
    [es] and the agent calls [cs], and it leaves the registry alone until
    the strategy ends, when it removes the strategy's entry. *)
Definition stepAdds (plan : OptimizationPlan) (ctl : nat) (w w' : World)
    (p' : Promise) : Prop :=
  exists es cs,
    events w' = events w ++ es
    /\ invocations w' = invocations w ++ cs
    /\ Forall (taskOf plan) cs
    /\ settledBy plan ctl es w' p'
    /\ activeExecutions w' =
         match p' with
         | Pending _ _ _ => activeExecutions w
         | _ => delete (strategyId plan) (activeExecutions w)
         end.

(** A promise of [executeSingleStrategy] for [plan] that is as the runner
    makes them: not rejected, and if fulfilled, with the plan's id. *)
Definition wellRun (plan : OptimizationPlan) (p : Promise) : Prop :=
  match p with
  | Pending _ _ _ => True
  | Fulfilled r => r_strategyId r = strategyId plan
  | Rejected _ => False
  end.

(** From [w] to [w'] the agents were called for plans of [batch] only. *)
Definition callsBy (batch : list OptimizationPlan) (w w' : World) : Prop :=
  exists cs,
    invocations w' = invocations w ++ cs
    /\ Forall (fun c => exists plan, plan ∈ batch /\ taskOf plan c) cs.

(** The strategies of a batch while it runs: each promise next to its
    plan, none rejected, each at most [k] phases from its end. *)
Definition batchRuns (batch : list OptimizationPlan) (k : nat)
    (ps : list (OptimizationPlan * Promise)) : Prop :=
  map fst ps = batch
  /\ Forall (fun pp => wellRun pp.1 pp.2 /\ remaining pp.2 <= k) ps.

(** What the collecting loop pushes for one settled promise of a batch. *)
Definition slotResult (slot : OptimizationPlan * Settled) : ExecutionResult :=
  match slot.2 with
  | fulfilled value => value
  | rejected reason => rejectedResult slot.1 reason
  end.

(** A settled promise that does not make the loop return early. *)
Definition noHit (slot : OptimizationPlan * Settled) : Prop :=
  match slot.2 with
  | fulfilled value => reachesTarget value = false
  | rejected _ => True
  end.

(** The slots of a batch that has settled with no promise rejected. *)
Definition allFulfilled (batch : list OptimizationPlan)
    (settled : list (OptimizationPlan * Settled)) : Prop :=
  map fst settled = batch
  /\ Forall (fun slot => exists value,
               slot.2 = fulfilled value
               /\ r_strategyId value = strategyId slot.1) settled.

(** What the agents must have answered for a strategy to be where it is:
    the results it holds are the agents' own, each a success, and the
    promise it waits for is the agent's (or a throw of the executor). *)
Definition answered (env : Env) (plan : OptimizationPlan) (phase : Phase)
    (result : AgentResult) : Prop :=
  agentExecute env phase plan = Resolves result /\ success result = true.

Definition history (env : Env) (plan : OptimizationPlan) (p : Promise) : Prop :=
  match p with
  | Pending _ at_ o =>
      (o = agentExecute env (phaseOf at_) plan \/ exists e, o = Throws e)
      /\ match at_ with
         | AtData => True
         | AtModel d => answered env plan data d
         | AtTraining d m => answered env plan data d /\ answered env plan model m
         | AtEvaluation d m t =>
             answered env plan data d /\ answered env plan model m
             /\ answered env plan training t
         end
  | Fulfilled r =>
      r_success r = true ->
      exists d m t e,
        answered env plan data d /\ answered env plan model m
        /\ answered env plan training t
        /\ agentExecute env evaluation plan = Resolves e
  | Rejected _ => True
  end.



(** What a strategy can see of the world while it runs: the flag of its
    own controller, and whether its timer is still pending. *)
Definition view (ctl : nat) (w : World) : option bool * bool :=
  (controllers w !! ctl, bool_decide (is_Some (timers w !! ctl))).

(** A promise with the name of its controller left out. *)
Definition shape (p : Promise) : Promise :=
  match p with
  | Pending _ at_ o => Pending 0 at_ o
  | _ => p
  end.

(** A strategy run on its own, from an empty world, up to its [k]-th
    resumption. *)
Definition isolated (env : Env) (plan : OptimizationPlan) (k : nat)
    : World * Promise :=
  stepsStrategy k env plan (startStrategy env plan 0 emptyWorld).2
    (startStrategy env plan 0 emptyWorld).1.

(** The result of a strategy run on its own. *)
Definition outcomeOf (env : Env) (plan : OptimizationPlan) : ExecutionResult :=
  match (executeSingleStrategy env plan 0 emptyWorld).2 with
  | Fulfilled r => r
  | _ => failureResult plan "Unknown error"
  end.

(** A strategy that runs among others is where the same strategy run on
    its own is after some number of resumptions, and sees what that one
    sees. *)
Definition tracks (env : Env) (plan : OptimizationPlan) (p : Promise) (w : World)
    : Prop :=
  exists k,
    shape p = shape (isolated env plan k).2
    /\ match p, (isolated env plan k).2 with
       | Pending ctl _ _, Pending ctl' _ _ =>
           view ctl w = view ctl' (isolated env plan k).1
       | _, _ => True
       end.

(** The controller of a pending promise. *)
Definition controllerOf (p : Promise) : option nat :=
  match p with
  | Pending ctl _ _ => Some ctl
  | _ => None
  end.

(** The strategies of a batch each track their run on their own, and no
    two pending ones share a controller. *)
Definition batchTracks (env : Env) (ps : list (OptimizationPlan * Promise))
    (w : World) : Prop :=
  Forall (fun pp => tracks env pp.1 pp.2 w) ps
  /\ (forall i j pi pj ctl,
        i <> j -> ps !! i = Some pi -> ps !! j = Some pj ->
        controllerOf pi.2 = Some ctl -> controllerOf pj.2 <> Some ctl)
  /\ (forall i pi ctl,
        ps !! i = Some pi -> controllerOf pi.2 = Some ctl ->
        ctl < length (controllers w)).

(** The results up to the first that reaches the target, that one
    included. *)
Fixpoint uptoFirstHit (rs : list ExecutionResult) : list ExecutionResult :=
  match rs with
  | [] => []
  | r :: rest => if reachesTarget r then [r] else r :: uptoFirstHit rest
  end.

(** The slot of a plan whose strategy ended as it does on its own. *)
Definition outcomeSlot (env : Env) (plan : OptimizationPlan)
    : OptimizationPlan * Settled :=
  (plan, fulfilled (outcomeOf env plan)).

(** ** Sample inputs *)

Definition plan1 : OptimizationPlan :=
  {| strategyId := "s1"; approach := "transfer_learning"; architecture := "mobilenet" |}.

Definition plan2 : OptimizationPlan :=
  {| strategyId := "s2"; approach := "data_centric"; architecture := "resnet" |}.

Definition plan3 : OptimizationPlan :=
  {| strategyId := "s3"; approach := "ensemble"; architecture := "efficientnet" |}.

Definition plan4 : OptimizationPlan :=
  {| strategyId := "s4"; approach := "ensemble"; architecture := "vgg" |}.

Definition goodPayload : Payload :=
  {| accuracy := 96 # 100; loss := Finite (1 # 10); trainingTime := 120;
     model_ := Some 7%nat |}.

Definition poorPayload : Payload :=
  {| accuracy := 40 # 100; loss := Finite 2; trainingTime := 120;
     model_ := Some 7%nat |}.

Definition succeeded : AgentResult := {| success := true; data_ := Some goodPayload |}.

(** Every agent succeeds, no timeout elapses. *)
Definition envAllSucceed : Env :=
  {| agentExecute := fun _ _ => Resolves succeeded;
     timerFires := fun _ _ => false;
     random := fun _ => 1 # 2;
     showNumber := fun _ => "0.96" |}.

(** The data agent answers [success: false]. *)
Definition envDataFails : Env :=
  {| agentExecute := fun phase _ =>
       match phase with
       | data => Resolves {| success := false; data_ := None |}
       | _ => Resolves succeeded
       end;
     timerFires := fun _ _ => false;
     random := fun _ => 1 # 2;
     showNumber := fun _ => "0.96" |}.

(** The evaluation agent answers [success: false], with a payload. *)
Definition envEvaluationFails : Env :=
  {| agentExecute := fun phase _ =>
       match phase with
       | evaluation => Resolves {| success := false; data_ := Some poorPayload |}
       | _ => Resolves succeeded
       end;
     timerFires := fun _ _ => false;
     random := fun _ => 1 # 2;
     showNumber := fun _ => "0.4" |}.

Definition fourPlans : list OptimizationPlan := [plan1; plan2; plan3; plan4].

Definition twoAtATimeStopEarly : Options :=
  {| maxConcurrent := Some 2; timeout := None; earlyStopOnSuccess := Some true |}.

(** ** Vocabulary of the ranking *)

Definition accuracyOf (r : ExecutionResult) : Q := m_accuracy (finalMetrics r).
Definition timeOf (r : ExecutionResult) : Q := m_trainingTime (finalMetrics r).



(** Any two results of a list, the earlier and the later, are related. *)
Definition pairwise {T} (R : T -> T -> Prop) (l : list T) : Prop :=
  forall i j a b, i < j -> l !! i = Some a -> l !! j = Some b -> R a b.


Definition successOf (sid : string) (acc time : Q) : ExecutionResult :=
  {| r_strategyId := sid;
     r_success := true;
     finalMetrics :=
       {| m_accuracy := acc; m_loss := Finite (1 # 10);
          m_trainingTime := time; m_modelSize := 20 |};
     r_model := Some 1%nat;
     r_error := None |}.


(** Three results whose ties go round in a circle: [resultA] ties with
    [resultB] and is faster, [resultB] ties with [resultC] and is faster,
    and [resultC] is more accurate than [resultA] by more than 0.01. *)
Definition resultA : ExecutionResult := successOf "A" (900 # 1000) 10.
Definition resultB : ExecutionResult := successOf "B" (906 # 1000) 20.
Definition resultC : ExecutionResult := successOf "C" (912 # 1000) 30.

(** A world with one controller, and the same once it is aborted. *)
Definition oneController : World := (newAbortController emptyWorld).2.
Definition abortedWorld : World := abort 0 oneController.

(** The training agent rejects for strategy "s2" only. *)
Definition envTrainingRejects : Env :=
  {| agentExecute := fun phase plan =>
       match phase with
       | training =>
           if decide (strategyId plan = "s2")
           then Throws (JsError "out of memory")
           else Resolves succeeded
       | _ => Resolves succeeded
       end;
     timerFires := fun _ _ => false;
     random := fun _ => 1 # 2;
     showNumber := fun _ => "0.96" |}.

(** The evaluation agent answers [success: false] and no payload, as the
    agents of this repository do when they fail. *)
Definition envEvaluationFailsBare : Env :=
  {| agentExecute := fun phase _ =>
       match phase with
       | evaluation => Resolves {| success := false; data_ := None |}
       | _ => Resolves succeeded
       end;
     timerFires := fun _ _ => false;
     random := fun _ => 1 # 2;
     showNumber := fun _ => "0.4" |}.


(** * More of the executor, and the code around it *)

(** ** The strategy runner read as straight-line code *)

(** The task that the executor of a phase hands to its agent. *)
Definition taskFor (plan : OptimizationPlan) (phase : Phase) : Phase * AgentTask :=
  match phase with
  | data => (data, {| id := "data-" +:+ strategyId plan; type := "preprocess" |})
  | model => (model, {| id := "model-" +:+ strategyId plan; type := "design" |})
  | training => (training, {| id := "train-" +:+ strategyId plan; type := "train" |})
  | evaluation =>
      (evaluation, {| id := "eval-" +:+ strategyId plan; type := "evaluate" |})
  end.

(** What one run shows: the events it published, the agent calls it made,
    the result it returned. *)
Record Run := {
  published : list ExecutionProgress;
  called : list (Phase * AgentTask);
  returned : ExecutionResult
}.

(** The [catch] block reached with the events [es] and calls [cs] behind
    it. *)
Definition caught (plan : OptimizationPlan) (es : list ExecutionProgress)
    (cs : list (Phase * AgentTask)) (error : Thrown) : Run :=
  {| published := es ++ [failedEvent plan (thrownMessage error)];
     called := cs;
     returned := failureResult plan (thrownMessage error) |}.

(** The last event of a run that succeeds. *)
Definition doneEvent (env : Env) (plan : OptimizationPlan) (ev : Payload)
    : ExecutionProgress :=
  {| ep_strategyId := strategyId plan;
     ep_phase := evaluation;
     ep_progress := 100;
     ep_status := completed;
     ep_message :=
       "Strategy completed with " +:+ showNumber env (accuracy ev) +:+ "% accuracy";
     ep_metrics := Some ev |}.

(** [executeSingleStrategy] read from top to bottom, as if nothing else
    ran while it waits: each [await] gives what the agent answers, and the
    check at the start of a phase finds the signal aborted when the
    timeout elapsed during the wait before. *)
Definition sequentialRun (env : Env) (plan : OptimizationPlan) : Run :=
  let es0 := [startEvent plan; runningEvent data plan] in
  let cs0 := [taskFor plan data] in
  match agentExecute env data plan with
  | Throws e => caught plan es0 cs0 e
  | Resolves dataResult =>
  let es1 := es0 ++ [completedEvent data plan] in
  if negb (success dataResult)
  then caught plan es1 cs0 (JsError "Data processing failed")
  else if timerFires env plan data
  then caught plan es1 cs0 (JsError "Execution aborted")
  else
  let es2 := es1 ++ [runningEvent model plan] in
  let cs1 := cs0 ++ [taskFor plan model] in
  match agentExecute env model plan with
  | Throws e => caught plan es2 cs1 e
  | Resolves modelResult =>
  let es3 := es2 ++ [completedEvent model plan] in
  if negb (success modelResult)
  then caught plan es3 cs1 (JsError "Model design failed")
  else if timerFires env plan model
  then caught plan es3 cs1 (JsError "Execution aborted")
  else
  let es4 := es3 ++ [runningEvent training plan] in
  let cs2 := cs1 ++ [taskFor plan training] in
  match agentExecute env training plan with
  | Throws e => caught plan es4 cs2 e
  | Resolves trainingResult =>
  let es5 := es4 ++ [completedEvent training plan] in
  if negb (success trainingResult)
  then caught plan es5 cs2 (JsError "Training failed")
  else if timerFires env plan training
  then caught plan es5 cs2 (JsError "Execution aborted")
  else
  let es6 := es5 ++ [runningEvent evaluation plan] in
  match data_ trainingResult, data_ dataResult with
  | None, _ => caught plan es6 cs2 (typeError "model")
  | Some _, None => caught plan es6 cs2 (typeError "test")
  | Some tr, Some _ =>
  let cs3 := cs2 ++ [taskFor plan evaluation] in
  match agentExecute env evaluation plan with
  | Throws e => caught plan es6 cs3 e
  | Resolves evalResult =>
  let es7 := es6 ++ [completedEvent evaluation plan] in
  match data_ evalResult with
  | None => caught plan es7 cs3 (typeError "accuracy")
  | Some ev =>
      {| published := es7 ++ [doneEvent env plan ev];
         called := cs3;
         returned :=
           {| r_strategyId := strategyId plan;
              r_success := true;
              finalMetrics :=
                {| m_accuracy := accuracy ev;
                   m_loss := loss ev;
                   m_trainingTime := trainingTime tr;
                   m_modelSize := calculateModelSize env plan |};
              r_model := model_ tr;
              r_error := None |} |}
  end end end end end end.

(** A run ends as [run] says: the promise is fulfilled with its result,
    and the world holds its events and its agent calls. *)
Definition runsAs (wp : World * Promise) (run : Run) : Prop :=
  wp.2 = Fulfilled (returned run)
  /\ events wp.1 = published run
  /\ invocations wp.1 = called run.

(** An environment given by what it answers for one plan. *)
Definition envOf (onData onModel onTraining onEvaluation : Outcome)
    (duringData duringModel duringTraining duringEvaluation : bool)
    (rnd : Q) (shw : Q -> string) : Env :=
  {| agentExecute := fun phase _ =>
       match phase with
       | data => onData
       | model => onModel
       | training => onTraining
       | evaluation => onEvaluation
       end;
     timerFires := fun _ phase =>
       match phase with
       | data => duringData
       | model => duringModel
       | training => duringTraining
       | evaluation => duringEvaluation
       end;
     random := fun _ => rnd;
     showNumber := shw |}.

(** Two environments that answer alike for a plan. *)
Definition sameAnswers (plan : OptimizationPlan) (env env' : Env) : Prop :=
  (forall phase, agentExecute env phase plan = agentExecute env' phase plan)
  /\ (forall phase, timerFires env plan phase = timerFires env' plan phase)
  /\ random env plan = random env' plan
  /\ (forall q, showNumber env q = showNumber env' q).

(** Two runs that add the same events and the same agent calls, each to
    its own world. *)
Definition sameAdded (w1 w1' w2 w2' : World) : Prop :=
  exists es cs,
    events w1' = events w1 ++ es /\ invocations w1' = invocations w1 ++ cs
    /\ events w2' = events w2 ++ es /\ invocations w2' = invocations w2 ++ cs.

(** Two promises at the same point of the same run, whose strategies see
    the same of their worlds. *)
Definition samePoint (p1 : Promise) (w1 : World) (p2 : Promise) (w2 : World)
    : Prop :=
  shape p1 = shape p2
  /\ match p1, p2 with
     | Pending ctl1 _ _, Pending ctl2 _ _ => view ctl1 w1 = view ctl2 w2
     | _, _ => True
     end.

(** The four phases, in the order in which [executeSingleStrategy] goes
    through them. *)
Definition phases : list Phase := [data; model; training; evaluation].

Definition phaseIndex (phase : Phase) : nat :=
  match phase with data => 0 | model => 1 | training => 2 | evaluation => 3 end.

(** The events of a run in which every phase is entered and answered, up
    to the one that ends the run. *)
Definition fullTrace (plan : OptimizationPlan) : list ExecutionProgress :=
  [startEvent plan;
   runningEvent data plan; completedEvent data plan;
   runningEvent model plan; completedEvent model plan;
   runningEvent training plan; completedEvent training plan;
   runningEvent evaluation plan; completedEvent evaluation plan].

(** The calls of a run are the tasks of the first phases, in phase
    order; a run that succeeds has called all four agents. *)
Definition callsInOrder (plan : OptimizationPlan) (run : Run) : Prop :=
  exists n,
    1 <= n <= 4
    /\ called run = take n (map (taskFor plan) phases)
    /\ (r_success (returned run) = true -> n = 4).

(** The events of a run are a start of the full trace and then one last
    event: the 'failed' event with the message of the result, or after all
    nine the 'completed' event that carries the metrics. *)
Definition eventsInOrder (env : Env) (plan : OptimizationPlan) (run : Run) : Prop :=
  exists n last,
    2 <= n <= 9
    /\ published run = take n (fullTrace plan) ++ [last]
    /\ match r_error (returned run) with
       | Some msg => last = failedEvent plan msg /\ r_success (returned run) = false
       | None =>
           n = 9 /\ r_success (returned run) = true
           /\ exists ev, last = doneEvent env plan ev
       end.

(** Everything a run needs to succeed: the data, model and training agents
    answer [success: true], the evaluation agent answers, the payloads that
    are read are there ([tr] of the training agent, [ev] of the evaluation
    agent), and the timeout does not elapse before the evaluation phase is
    entered. *)
Definition goesWell (env : Env) (plan : OptimizationPlan) (tr ev : Payload) : Prop :=
  exists d m t e,
    answered env plan data d /\ answered env plan model m
    /\ answered env plan training t
    /\ agentExecute env evaluation plan = Resolves e
    /\ is_Some (data_ d) /\ data_ t = Some tr /\ data_ e = Some ev
    /\ timerFires env plan data = false /\ timerFires env plan model = false
    /\ timerFires env plan training = false.

(** The result of a run in which everything goes well. *)
Definition successResult (env : Env) (plan : OptimizationPlan) (tr ev : Payload)
    : ExecutionResult :=
  {| r_strategyId := strategyId plan;
     r_success := true;
     finalMetrics :=
       {| m_accuracy := accuracy ev;
          m_loss := loss ev;
          m_trainingTime := trainingTime tr;
          m_modelSize := calculateModelSize env plan |};
     r_model := model_ tr;
     r_error := None |}.

(** The environment in which, besides, the timeout elapses while the
    evaluation agent is awaited. *)
Definition timeoutDuringEvaluation (env : Env) : Env :=
  {| agentExecute := agentExecute env;
     timerFires := fun plan phase =>
       match phase with
       | evaluation => true
       | _ => timerFires env plan phase
       end;
     random := random env;
     showNumber := showNumber env |}.

(** Every agent succeeds; the timeout of "s1" elapses during its model
    phase. *)
Definition envTimeoutInModel : Env :=
  {| agentExecute := fun _ _ => Resolves succeeded;
     timerFires := fun plan phase =>
       match phase with
       | model => bool_decide (strategyId plan = "s1")
       | _ => false
       end;
     random := fun _ => 1 # 2;
     showNumber := fun _ => "0.96" |}.

(** ** More of the batch scheduler *)

(** The [k]-th piece of [items] cut into pieces of [batchSize]. *)
Definition chunk {T} (items : list T) (batchSize k : nat) : list T :=
  take batchSize (drop (k * batchSize) items).

(** How many pieces of [batchSize] it takes to hold [n] items. *)
Definition chunkCount (n batchSize : nat) : nat := (n + batchSize - 1) / batchSize.

(** Options that ask for no strategy at a time. *)
Definition noneAtATime : Options :=
  {| maxConcurrent := Some 0; timeout := None; earlyStopOnSuccess := None |}.

(** A controller that the registry holds under some strategy id. *)
Definition isRegistered (ctl : nat) (w : World) : Prop :=
  ctl < length (controllers w) /\ exists sid, activeExecutions w !! sid = Some ctl.

(** What the registry and the timers of [w] hold was there in [w0], or
    belongs to a strategy of [ps] that is still pending. *)
Definition held (w0 : World) (ps : list (OptimizationPlan * Promise)) (w : World)
    : Prop :=
  (forall sid ctl,
     activeExecutions w !! sid = Some ctl ->
     activeExecutions w0 !! sid = Some ctl
     \/ exists i plan c at_ o,
          ps !! i = Some (plan, Pending c at_ o) /\ strategyId plan = sid)
  /\ (forall ctl t,
        timers w !! ctl = Some t ->
        timers w0 !! ctl = Some t
        \/ exists i plan at_ o, ps !! i = Some (plan, Pending ctl at_ o)).


(** Three strategies in one batch, resumed in the order third, first,
    second, the training agent rejecting for the second. *)
Definition sampleRun : option (World * list ExecutionResult) :=
  executeStrategies envTrainingRejects [[2; 0; 1]] [plan1; plan2; plan3]
    noOptions emptyWorld.

Definition sampleEnd : World * list ExecutionResult :=
  default (emptyWorld, []) sampleRun.


(** ** More of the ranking *)

Definition sizeOf (r : ExecutionResult) : Q := m_modelSize (finalMetrics r).

(** The three callbacks handed to [reduce] in [compareStrategies]. *)
Definition moreAccurate (prev curr : ExecutionResult) : ExecutionResult :=
  if greater (m_accuracy (finalMetrics curr)) (m_accuracy (finalMetrics prev))
  then curr else prev.

Definition faster (prev curr : ExecutionResult) : ExecutionResult :=
  if greater (m_trainingTime (finalMetrics prev)) (m_trainingTime (finalMetrics curr))
  then curr else prev.

Definition smaller (prev curr : ExecutionResult) : ExecutionResult :=
  if greater (m_modelSize (finalMetrics prev)) (m_modelSize (finalMetrics curr))
  then curr else prev.

(** [winner] is the first result of [l] on which [measure] is
    greatest. *)
Definition firstMax (measure : ExecutionResult -> Q) (l : list ExecutionResult)
    (winner : ExecutionResult) : Prop :=
  exists i,
    l !! i = Some winner
    /\ (forall r, r ∈ l -> (measure r <= measure winner)%Q)
    /\ (forall j r, j < i -> l !! j = Some r -> (measure r < measure winner)%Q).

(** * The agents *)

(** A promise of an agent's hook, by how it settles. *)
Inductive Settles (A : Type) :=
| resolves (value : A)
| rejects (reason : Thrown).

Arguments resolves {A} value.
Arguments rejects {A} reason.

(** What [await agent.execute(task)] gives the executor. *)
Definition outcomeOfCall (s : Settles AgentResult) : Outcome :=
  match s with
  | resolves result => Resolves result
  | rejects error => Throws error
  end.

(** ** [BaseAgent] *)

Module BaseAgent.

Inductive AgentStatus := idle | initializing | active | completed | error.

(** The abstract methods that the agents implement. *)
Inductive Hook :=
| OnInitialize
| OnExecute (task : AgentTask)
| OnCleanup.

Record Agent := {
  status : AgentStatus;
  initialized : bool;
  (** every status set by [setStatus], oldest first *)
  transitions : list AgentStatus;
  (** every call of a hook, oldest first *)
  hookCalls : list Hook
}.

(** A new agent: [_status = 'idle'], [initialized = false]. *)
Definition new : Agent :=
  {| status := idle; initialized := false; transitions := []; hookCalls := [] |}.

Definition setStatus (s : AgentStatus) (a : Agent) : Agent :=
  {| status := s; initialized := initialized a;
     transitions := transitions a ++ [s]; hookCalls := hookCalls a |}.

Definition setInitialized (a : Agent) : Agent :=
  {| status := status a; initialized := true;
     transitions := transitions a; hookCalls := hookCalls a |}.

(** A hook is called. *)
Definition calling (h : Hook) (a : Agent) : Agent :=
  {| status := status a; initialized := initialized a;
     transitions := transitions a; hookCalls := hookCalls a ++ [h] |}.

(** [initialize()] up to its [await]; [false]: it has returned without
    one. *)
Definition initializeEnter (a : Agent) : Agent * bool :=
  if initialized a then (a, false)
  else (calling OnInitialize (setStatus initializing a), true).

(** [initialize()] from the settling of [onInitialize] on. *)
Definition initializeLeave (onInitialize : Settles unit) (a : Agent)
    : Agent * Settles unit :=
  match onInitialize with
  | resolves _ => (setStatus idle (setInitialized a), resolves tt)
  | rejects e => (setStatus error a, rejects e)
  end.

(** [initialize()], with nothing else running while [onInitialize] is
    awaited. *)
Definition initialize (onInitialize : Settles unit) (a : Agent)
    : Agent * Settles unit :=
  match initializeEnter a with
  | (a1, true) => initializeLeave onInitialize a1
  | (a1, false) => (a1, resolves tt)
  end.

(** [execute(task)], with nothing else running while the hooks are
    awaited. *)
Definition execute (onInitialize : Settles unit)
    (onExecute : AgentTask -> Settles AgentResult) (task : AgentTask) (a : Agent)
    : Agent * Settles AgentResult :=
  let '(a0, ready) :=
    if negb (initialized a) then initialize onInitialize a else (a, resolves tt) in
  match ready with
  | rejects e => (a0, rejects e)
  | resolves _ =>
      let a1 := calling (OnExecute task) (setStatus active a0) in
      match onExecute task with
      | resolves result => (setStatus idle (setStatus completed a1), resolves result)
      | rejects e => (setStatus error a1, rejects e)
      end
  end.

Definition cleanup (onCleanup : Settles unit) (a : Agent) : Agent * Settles unit :=
  let a1 := calling OnCleanup a in
  match onCleanup with
  | resolves _ => (setStatus idle a1, resolves tt)
  | rejects e => (a1, rejects e)
  end.

(** [execute(task)] up to its first [await]: of [this.initialize()], which
    itself has run up to its [await] of [onInitialize], or of
    [onExecute]. *)
Definition executeEnter (task : AgentTask) (a : Agent) : Agent :=
  if negb (initialized a) then (initializeEnter a).1
  else calling (OnExecute task) (setStatus active a).

(** A call of one of the three public methods, with how the hooks it
    reaches settle. *)
Inductive Call :=
| Initialize (onInitialize : Settles unit)
| Execute (onInitialize : Settles unit) (onExecute : Settles AgentResult)
    (task : AgentTask)
| Cleanup (onCleanup : Settles unit).

Definition call (c : Call) (a : Agent) : Agent :=
  match c with
  | Initialize onInitialize => (initialize onInitialize a).1
  | Execute onInitialize onExecute task =>
      (execute onInitialize (fun _ => onExecute) task a).1
  | Cleanup onCleanup => (cleanup onCleanup a).1
  end.

(** Calls made one after the other, each awaited before the next. *)
Definition calls (cs : list Call) (a : Agent) : Agent :=
  fold_left (fun a c => call c a) cs a.

End BaseAgent.

(** What holds of an agent between two calls: it is idle or in error; if
    it counts as initialized, [onInitialize] has been called; if it does
    not, [onExecute] never has. *)
Definition atRest (a : BaseAgent.Agent) : Prop :=
  (BaseAgent.status a = BaseAgent.idle \/ BaseAgent.status a = BaseAgent.error)
  /\ (BaseAgent.initialized a = true ->
      BaseAgent.OnInitialize ∈ BaseAgent.hookCalls a)
  /\ (BaseAgent.initialized a = false ->
      forall task, BaseAgent.OnExecute task ∉ BaseAgent.hookCalls a).

(** ** The agents of the phases *)

(** Each agent looks at the type of the task: its own type goes to its
    handler, any other type is an error. *)
Definition unknownTaskType (task : AgentTask) : Thrown :=
  JsError ("Unknown task type: " +:+ type task).

Module DataAgent.

(** [onInitialize] only writes to the console. *)
Definition onInitialize : Settles unit := resolves tt.

Definition onExecute (handleDataProcessing : AgentTask -> Settles AgentResult)
    (task : AgentTask) : Settles AgentResult :=
  if decide (type task = "process_data") then handleDataProcessing task
  else rejects (unknownTaskType task).

Definition execute (handleDataProcessing : AgentTask -> Settles AgentResult)
    (task : AgentTask) (a : BaseAgent.Agent)
    : BaseAgent.Agent * Settles AgentResult :=
  BaseAgent.execute onInitialize (onExecute handleDataProcessing) task a.

End DataAgent.

Module ModelAgent.

Definition onExecute (handleModelBuilding : AgentTask -> Settles AgentResult)
    (task : AgentTask) : Settles AgentResult :=
  if decide (type task = "build_model") then handleModelBuilding task
  else rejects (unknownTaskType task).

(** [onInitialize] loads the model library and may fail. *)
Definition execute (onInitialize : Settles unit)
    (handleModelBuilding : AgentTask -> Settles AgentResult)
    (task : AgentTask) (a : BaseAgent.Agent)
    : BaseAgent.Agent * Settles AgentResult :=
  BaseAgent.execute onInitialize (onExecute handleModelBuilding) task a.

End ModelAgent.

Module TrainingAgent.

Definition onInitialize : Settles unit := resolves tt.

Definition onExecute (handleTraining : AgentTask -> Settles AgentResult)
    (task : AgentTask) : Settles AgentResult :=
  if decide (type task = "train_model") then handleTraining task
  else rejects (unknownTaskType task).

Definition execute (handleTraining : AgentTask -> Settles AgentResult)
    (task : AgentTask) (a : BaseAgent.Agent)
    : BaseAgent.Agent * Settles AgentResult :=
  BaseAgent.execute onInitialize (onExecute handleTraining) task a.

End TrainingAgent.

(** ** The executor with the agents of the repository *)

(** The environment in which the agents of the data, model and training
    phases are the repository's own: each call is [execute] of the agent's
    class, on the agent in whatever state it is at that time; the
    handlers behind the agents' own task types and the initialization of
    the model agent are left open. *)
Definition withRepositoryAgents
    (handle : Phase -> AgentTask -> Settles AgentResult)
    (modelLibrary : Settles unit)
    (state : Phase -> OptimizationPlan -> BaseAgent.Agent)
    (env : Env) : Env :=
  {| agentExecute := fun phase plan =>
       match phase with
       | data =>
           outcomeOfCall
             (DataAgent.execute (handle data) (taskFor plan data).2
                (state data plan)).2
       | model =>
           outcomeOfCall
             (ModelAgent.execute modelLibrary (handle model) (taskFor plan model).2
                (state model plan)).2
       | training =>
           outcomeOfCall
             (TrainingAgent.execute (handle training) (taskFor plan training).2
                (state training plan)).2
       | evaluation => agentExecute env evaluation plan
       end;
     timerFires := timerFires env;
     random := random env;
     showNumber := showNumber env |}.

(** The result of a strategy that the data agent turns away. *)
Definition turnedAway (plan : OptimizationPlan) : ExecutionResult :=
  failureResult plan "Unknown task type: preprocess".

(** Three tasks for one agent. *)
Definition threeTasks : list AgentTask :=
  [(taskFor plan1 data).2; (taskFor plan2 data).2; (taskFor plan3 data).2].

(** An agent that has been initialized. *)
Definition readyAgent : BaseAgent.Agent :=
  (BaseAgent.initialize (resolves tt) BaseAgent.new).1.

(** ** [ParallelExecutor.initialize] *)

(** The promise of the [i]-th agent's [onInitialize] settles: its
    [initialize] runs to its end.  [first] is the reason of the first
    rejection so far, with which [Promise.all] rejects. *)
Definition settleAt (onInitialize : nat -> Settles unit) (i : nat)
    (st : list (BaseAgent.Agent * bool) * option Thrown)
    : list (BaseAgent.Agent * bool) * option Thrown :=
  match st.1 !! i with
  | Some (a, true) =>
      let '(a', r) := BaseAgent.initializeLeave (onInitialize i) a in
      (<[i := (a', false)]> st.1,
       match st.2, r with
       | None, rejects e => Some e
       | first, _ => first
       end)
  | _ => st
  end.

(** [await Promise.all(agents.map(agent => agent.initialize()))]: every
    agent's [initialize] is called in turn and runs up to its [await]; the
    hooks settle in the order [order], and those it leaves out after
    that.  The executor's five agents are the list [planningAgent;
    dataAgent; modelAgent; trainingAgent; evaluationAgent]. *)
Definition initialize (onInitialize : nat -> Settles unit) (order : list nat)
    (agents : list BaseAgent.Agent) : list BaseAgent.Agent * Settles unit :=
  let started := map BaseAgent.initializeEnter agents in
  let '(settled, first) :=
    fold_left (fun st i => settleAt onInitialize i st)
      (order ++ seq 0 (length agents)) (started, None) in
  (map fst settled,
   match first with
   | None => resolves tt
   | Some e => rejects e
   end).

(** The [i]-th agent after its [initialize] has run to its end. *)
Definition initializedAlone (onInitialize : nat -> Settles unit) (i : nat)
    (a : BaseAgent.Agent) : BaseAgent.Agent :=
  (BaseAgent.initialize (onInitialize i) a).1.

(** Five new agents; the hook of the third rejects. *)
Definition fiveAgents : list BaseAgent.Agent := replicate 5 BaseAgent.new.

Definition thirdRejects (i : nat) : Settles unit :=
  if decide (i = 2) then rejects (JsError "no model library") else resolves tt.

(** * The response generator *)

(** ** The comparison table *)

(** The comparison function of the table: accuracy, descending. *)
Definition byAccuracy (a b : ExecutionResult) : Q :=
  m_accuracy (finalMetrics b) - m_accuracy (finalMetrics a).

(** The rows of the table of [generateStrategyComparison], in order:
    [results.filter(r => r.success).sort(...)]. *)
Definition comparisonRows (results : list ExecutionResult) : list ExecutionResult :=
  sort byAccuracy (filter (fun r => r_success r = true) results).

(** [result.strategyId === bestStrategy.strategyId]: the row gets the
    winner's mark. *)
Definition isWinner (bestStrategy result : ExecutionResult) : bool :=
  bool_decide (r_strategyId result = r_strategyId bestStrategy).

(** ** The recommendations *)

(** What a division of two numbers gives. *)
Inductive Quotient := Num (q : Q) | PlusInfinity | MinusInfinity | NaN.

(** [x / y] *)
Definition divide (x y : Q) : Quotient :=
  if Qeq_bool y 0
  then if Qeq_bool x 0 then NaN
       else if negative x then MinusInfinity else PlusInfinity
  else Num (x / y).

(** [x > bound] *)
Definition exceeds (x : Quotient) (bound : Q) : bool :=
  match x with
  | Num q => greater q bound
  | PlusInfinity => true
  | MinusInfinity | NaN => false
  end.

(** How texts are made of values: [x.toFixed(1)], and
    [formatStrategyName]. *)
Record Texts := {
  toFixed1 : Quotient -> string;
  formatStrategyName : string -> string
}.

(** The comparison function of the speed recommendation: training time,
    ascending. *)
Definition byTrainingTime (a b : ExecutionResult) : Q :=
  m_trainingTime (finalMetrics a) - m_trainingTime (finalMetrics b).

Definition accuracyAdvice (bestStrategy : ExecutionResult) : list string :=
  if Qle_bool (95 # 100) (m_accuracy (finalMetrics bestStrategy))
  then ["Excellent accuracy achieved! Consider optimizing for speed or size."]
  else if Qle_bool (90 # 100) (m_accuracy (finalMetrics bestStrategy))
  then ["Good accuracy. Fine-tuning or more data could push it higher."]
  else ["Consider collecting more diverse training data.";
        "Try ensemble methods or deeper architectures."].

Definition speedAdvice (tx : Texts) (results : list ExecutionResult)
    (bestStrategy : ExecutionResult) : list string :=
  match sort byTrainingTime (filter (fun r => r_success r = true) results) with
  | fastestResult :: _ =>
      if bool_decide (r_strategyId fastestResult <> r_strategyId bestStrategy)
      then
        let speedup :=
          divide (m_trainingTime (finalMetrics bestStrategy))
            (m_trainingTime (finalMetrics fastestResult)) in
        if exceeds speedup 2
        then [formatStrategyName tx (r_strategyId fastestResult) +:+ " is "
              +:+ toFixed1 tx speedup +:+ "x faster with "
              +:+ toFixed1 tx (Num (m_accuracy (finalMetrics fastestResult) * 100))
              +:+ "% accuracy"]
        else []
      else []
  | [] => []
  end.

Definition sizeAdvice (bestStrategy : ExecutionResult) : list string :=
  if greater (m_modelSize (finalMetrics bestStrategy)) 50
  then ["Consider model compression techniques for deployment."]
  else [].

(** [generateRecommendations(results, bestStrategy)] *)
Definition generateRecommendations (tx : Texts) (results : list ExecutionResult)
    (bestStrategy : ExecutionResult) : list string :=
  take 3 (accuracyAdvice bestStrategy ++ speedAdvice tx results bestStrategy
          ++ sizeAdvice bestStrategy).

(** ** The progress bar *)

(** [s.repeat(count)] for a whole number [count]: a negative count is a
    [RangeError]. *)
Definition repeatString (env : Env) (s : string) (count : Z) : Thrown + string :=
  if (count <? 0)%Z
  then inl (JsError ("Invalid count value: " +:+ showNumber env (inject_Z count)))
  else inr (String.concat "" (replicate (Z.to_nat count) s)).

Definition createProgressBar (env : Env) (progress : Q) : Thrown + string :=
  let filled := Qfloor (progress / 10) in
  let empty := (10 - filled)%Z in
  match repeatString env "█" filled with
  | inl e => inl e
  | inr filledCells =>
      match repeatString env "░" empty with
      | inl e => inl e
      | inr emptyCells => inr ("[" +:+ filledCells +:+ emptyCells +:+ "]")
      end
  end.

Inductive Verbosity := minimal | normal | detailed.

Definition newline : string := String (Ascii.ascii_of_nat 10) "".

(** [formatPhase] on the names of the four phases *)
Definition formatPhase (phase : Phase) : string :=
  match phase with
  | data => "📊 Data Processing"
  | model => "🏗️ Model Design"
  | training => "🚀 Training"
  | evaluation => "📈 Evaluation"
  end.

(** [generateProgressUpdate(phase, progress, message, options)] for the
    name of one of the four phases; [verbosity] is [options.verbosity]. *)
Definition generateProgressUpdate (env : Env) (phase : Phase) (progress : Q)
    (message : string) (verbosity : option Verbosity) : Thrown + string :=
  match default normal verbosity with
  | minimal => inr (phaseName phase +:+ ": " +:+ showNumber env progress +:+ "%")
  | v =>
      match createProgressBar env progress with
      | inl e => inl e
      | inr progressBar =>
          let response :=
            "**" +:+ formatPhase phase +:+ "** " +:+ progressBar +:+ " "
            +:+ showNumber env progress +:+ "%" +:+ newline in
          inr (match v with
               | detailed => response +:+ "└─ " +:+ message +:+ newline
               | _ => response
               end)
      end
  end.

(** The progress of an event, as a number. *)
Definition progressOf (e : ExecutionProgress) : Q := inject_Z (Z.of_nat (ep_progress e)).

(** A result that is slow, inaccurate and large, and one that is fast. *)
Definition heavyResult : ExecutionResult :=
  {| r_strategyId := "heavy"; r_success := true;
     finalMetrics := {| m_accuracy := 85 # 100; m_loss := Finite (1 # 2);
                        m_trainingTime := 300; m_modelSize := 58 |};
     r_model := Some 1%nat; r_error := None |}.

Definition quickResult : ExecutionResult :=
  {| r_strategyId := "quick"; r_success := true;
     finalMetrics := {| m_accuracy := 80 # 100; m_loss := Finite (1 # 2);
                        m_trainingTime := 100; m_modelSize := 12 |};
     r_model := Some 2%nat; r_error := None |}.

Definition plainTexts : Texts :=
  {| toFixed1 := fun _ => "3.0"; formatStrategyName := fun sid => sid |}.

(** * Strategies side by side *)

(** The events of a strategy among others: those that carry its id. *)
Definition eventsOf (plan : OptimizationPlan) (es : list ExecutionProgress)
    : list ExecutionProgress :=
  filter (fun e => ep_strategyId e = strategyId plan) es.

(** The ids of the tasks that the strategy of a plan hands to the
    agents. *)
Definition taskIds (plan : OptimizationPlan) : list string :=
  map (fun c : Phase * AgentTask => id c.2) (map (taskFor plan) phases).

(** The agent calls of a strategy among others: those with its task
    ids. *)
Definition callsOf (plan : OptimizationPlan) (cs : list (Phase * AgentTask))
    : list (Phase * AgentTask) :=
  filter (fun c : Phase * AgentTask => id c.2 ∈ taskIds plan) cs.

(** What has been published, and which agents have been called, from
    [w0] to [w]. *)
Definition eventsSince (w0 w : World) : list ExecutionProgress :=
  drop (length (events w0)) (events w).

Definition callsSince (w0 w : World) : list (Phase * AgentTask) :=
  drop (length (invocations w0)) (invocations w).

(** From [w] to [w'] the strategy of [plan] has published [es] and made
    the calls [cs], all its own. *)
Definition ownAdded (plan : OptimizationPlan) (w w' : World)
    (es : list ExecutionProgress) (cs : list (Phase * AgentTask)) : Prop :=
  events w' = events w ++ es
  /\ invocations w' = invocations w ++ cs
  /\ Forall (fun e => ep_strategyId e = strategyId plan) es
  /\ Forall (fun c : Phase * AgentTask => id c.2 ∈ taskIds plan) cs.

(** A strategy that runs among others, with [es] published and [cs]
    called by all of them since the batch began, is where its run on its
    own is after some resumptions, and its own events and calls are those
    of that run. *)
Definition follows (env : Env) (es : list ExecutionProgress)
    (cs : list (Phase * AgentTask)) (w : World)
    (pp : OptimizationPlan * Promise) : Prop :=
  exists k,
    samePoint pp.2 w (isolated env pp.1 k).2 (isolated env pp.1 k).1
    /\ eventsOf pp.1 es = events (isolated env pp.1 k).1
    /\ callsOf pp.1 cs = invocations (isolated env pp.1 k).1.

(** The strategies of a batch while it runs, [w0] being the world in
    which the batch began: their ids differ, each follows its run on its
    own, and whatever was published or called belongs to one of them. *)
Definition batchFollows (env : Env) (w0 : World)
    (ps : list (OptimizationPlan * Promise)) (w : World) : Prop :=
  exists es cs,
    events w = events w0 ++ es
    /\ invocations w = invocations w0 ++ cs
    /\ batchTracks env ps w
    /\ NoDup (map strategyId (map fst ps))
    /\ Forall (follows env es cs w) ps
    /\ Forall (fun e => exists plan,
                 plan ∈ map fst ps /\ ep_strategyId e = strategyId plan) es
    /\ Forall (fun c : Phase * AgentTask =>
                 exists plan, plan ∈ map fst ps /\ id c.2 ∈ taskIds plan) cs.

(** * The recommendations of [compareStrategies] *)







(** * Properties *)

(** ** World bookkeeping *)

Lemma events_withInvocations f w : events (withInvocations f w) = events w.
Proof. reflexivity. Qed.

Lemma events_emitProgress p w : events (emitProgress p w) = events w ++ [p].
Proof. reflexivity. Qed.

Lemma events_fireTimer ctl w : events (fireTimer ctl w) = events w.
Proof. unfold fireTimer. destruct (timers w !! ctl); reflexivity. Qed.

Lemma invocations_fireTimer ctl w : invocations (fireTimer ctl w) = invocations w.
Proof. unfold fireTimer. destruct (timers w !! ctl); reflexivity. Qed.

Lemma activeExecutions_fireTimer ctl w :
  activeExecutions (fireTimer ctl w) = activeExecutions w.
Proof. unfold fireTimer. destruct (timers w !! ctl); reflexivity. Qed.

(** ** The phase executor *)

Section PhaseExecutor.

Variables (phase : Phase) (plan : OptimizationPlan).
Variable executor : World -> World * Outcome.
Variable signal : nat.

(** C8: with the token already triggered, [executePhase] throws
    'Execution aborted' at once: the world is as it was (no event, no
    call of an agent), whatever the executor is, so the executor was not
    invoked. *)
Theorem executePhase_aborted (w : World) :
  aborted signal w = true ->
  executePhase phase plan executor signal w
  = (w, inl (JsError "Execution aborted")).
Proof.
  intros Hab. unfold executePhase, executePhaseEnter. rewrite Hab. reflexivity.
Qed.

(** The executors of this program call agents and publish nothing. *)
Hypothesis executor_silent : forall w, events (executor w).1 = events w.

(** C7, amended: when the token is not triggered, [executePhase]
    publishes a 'running' event with progress 25 and then, exactly when
    the delegated work returns normally, a 'completed' event with
    progress 100: one or two events.  (With the token triggered it
    publishes none, see [executePhase_aborted].) *)
Theorem executePhase_events (w : World) :
  aborted signal w = false ->
  (ep_status (runningEvent phase plan) = running
   /\ ep_progress (runningEvent phase plan) = 25
   /\ ep_status (completedEvent phase plan) = completed
   /\ ep_progress (completedEvent phase plan) = 100)
  /\ match executePhase phase plan executor signal w with
     | (w', inr _) =>
         events w' = events w ++ [runningEvent phase plan; completedEvent phase plan]
     | (w', inl _) =>
         events w' = events w ++ [runningEvent phase plan]
     end.
Proof.
  intros Hab. split; [repeat split |].
  unfold executePhase, executePhaseEnter. rewrite Hab.
  pose proof (executor_silent (emitProgress (runningEvent phase plan) w)) as Hs.
  destruct (executor _) as [w1 o]. simpl in Hs.
  destruct o as [r | e]; simpl; rewrite Hs; simpl.
  - rewrite <- app_assoc. reflexivity.
  - reflexivity.
Qed.

End PhaseExecutor.

Lemma executePhase_aborted_witness :
  executePhase data plan1 (executorOf envAllSucceed plan1 AtData) 0 abortedWorld
  = (abortedWorld, inl (JsError "Execution aborted")).
Proof.
  apply (executePhase_aborted data plan1 (executorOf envAllSucceed plan1 AtData)
           0 abortedWorld).
  reflexivity.
Defined.

Lemma executePhase_events_witness :
  (ep_status (runningEvent data plan1) = running
   /\ ep_progress (runningEvent data plan1) = 25
   /\ ep_status (completedEvent data plan1) = completed
   /\ ep_progress (completedEvent data plan1) = 100)
  /\ match executePhase data plan1 (executorOf envAllSucceed plan1 AtData) 0
            oneController with
     | (w', inr _) =>
         events w' = events oneController
                       ++ [runningEvent data plan1; completedEvent data plan1]
     | (w', inl _) =>
         events w' = events oneController ++ [runningEvent data plan1]
     end.
Proof.
  apply (executePhase_events data plan1 (executorOf envAllSucceed plan1 AtData)
           0).
  - intros w. reflexivity.
  - reflexivity.
Defined.

(** C7 as stated fails: called with a token that is already triggered,
    [executePhase] publishes no event at all. *)
Lemma executePhase_events_counterexample :
  aborted 0 abortedWorld = true
  /\ events (executePhase data plan1 (executorOf envAllSucceed plan1 AtData) 0
               abortedWorld).1
     = events abortedWorld
  /\ ~ exists e rest,
        events (executePhase data plan1 (executorOf envAllSucceed plan1 AtData) 0
                  abortedWorld).1
        = events abortedWorld ++ e :: rest.
Proof.
  split; [reflexivity |]. split; [reflexivity |].
  intros (e & rest & H). vm_compute in H. discriminate.
Qed.

(** ** The strategy runner, step by step *)

Lemma catchBlock_settles plan ctl e w :
  settledBy plan ctl [failedEvent plan (thrownMessage e)]
    (catchBlock plan ctl e w).1 (Fulfilled (catchBlock plan ctl e w).2).
Proof.
  simpl. repeat split.
  - apply lookup_delete_eq.
  - apply lookup_delete_eq.
  - exists (thrownMessage e), []. repeat split. constructor.
Qed.

Lemma settledBy_prepend plan ctl pre es w' p' :
  Forall notFailed pre ->
  settledBy plan ctl es w' p' ->
  settledBy plan ctl (pre ++ es) w' p'.
Proof.
  intros Hpre. destruct p' as [ctl' at' o' | r | e]; simpl; [| | tauto].
  - intros [-> Hes]. split; [reflexivity | by apply Forall_app].
  - intros (Hid & Hreg & Htm & Hr). repeat split; try assumption.
    destruct (r_success r).
    + destruct Hr as [Hes Herr]. split; [by apply Forall_app | assumption].
    + destruct Hr as (msg & es0 & -> & -> & Hes0).
      exists msg, (pre ++ es0). rewrite app_assoc. repeat split.
      by apply Forall_app.
Qed.

Lemma notFailed_running phase plan : notFailed (runningEvent phase plan).
Proof. discriminate. Qed.

Lemma notFailed_completed phase plan : notFailed (completedEvent phase plan).
Proof. discriminate. Qed.

Lemma notFailed_start plan : notFailed (startEvent plan).
Proof. discriminate. Qed.

Create HintDb strategy.

#[local] Hint Resolve notFailed_running notFailed_completed notFailed_start : strategy.

Lemma catchBlock_adds plan ctl e w :
  stepAdds plan ctl w (catchBlock plan ctl e w).1
    (Fulfilled (catchBlock plan ctl e w).2).
Proof.
  exists [failedEvent plan (thrownMessage e)], [].
  split; [reflexivity |]. split; [by rewrite app_nil_r |].
  split; [constructor |]. split; [apply catchBlock_settles | reflexivity].
Qed.

Lemma executorOf_adds env plan at_ w :
  events (executorOf env plan at_ w).1 = events w
  /\ activeExecutions (executorOf env plan at_ w).1 = activeExecutions w
  /\ timers (executorOf env plan at_ w).1 = timers w
  /\ controllers (executorOf env plan at_ w).1 = controllers w
  /\ exists cs, invocations (executorOf env plan at_ w).1 = invocations w ++ cs
                /\ Forall (taskOf plan) cs.
Proof.
  destruct at_ as [| d | d m | d m t]; simpl;
    try (repeat split; eexists; split; [reflexivity |];
         constructor; [unfold taskOf; tauto | constructor]).
  destruct (data_ t), (data_ d); simpl; repeat split;
    try (exists []; split; [by rewrite app_nil_r | constructor]).
  eexists; split; [reflexivity |].
  constructor; [unfold taskOf; tauto | constructor].
Qed.

Lemma enterPhase_adds env plan ctl at_ w :
  stepAdds plan ctl w (enterPhase env plan ctl at_ w).1
    (enterPhase env plan ctl at_ w).2.
Proof.
  unfold enterPhase, executePhaseEnter.
  destruct (aborted ctl w).
  - apply catchBlock_adds.
  - destruct (executorOf_adds env plan at_
                (emitProgress (runningEvent (phaseOf at_) plan) w))
      as (Hev & Hact & _ & _ & cs & Hinv & Hcs).
    destruct (executorOf _ _ _ _) as [w1 o]. simpl in *.
    exists [runningEvent (phaseOf at_) plan], cs.
    rewrite Hev, Hinv, Hact. repeat split; auto with strategy.
Qed.

Lemma stepAdds_prepend plan ctl w w0 w' p' pre :
  events w0 = events w ++ pre ->
  invocations w0 = invocations w ->
  activeExecutions w0 = activeExecutions w ->
  Forall notFailed pre ->
  stepAdds plan ctl w0 w' p' ->
  stepAdds plan ctl w w' p'.
Proof.
  intros Hev Hinv Hact Hpre (es & cs & He & Hi & Hcs & Hs & Ha).
  exists (pre ++ es), cs.
  rewrite He, Hev, Hi, Hinv, Ha, Hact, <- app_assoc.
  repeat split; try assumption. by apply settledBy_prepend.
Qed.

Lemma finishStrategy_adds env plan ctl t r w :
  stepAdds plan ctl w (finishStrategy env plan ctl t r w).1
    (Fulfilled (finishStrategy env plan ctl t r w).2).
Proof.
  unfold finishStrategy.
  set (w2 := withActive (delete (strategyId plan)) (clearTimeout ctl w)).
  assert (Hdd : delete (strategyId plan) (activeExecutions w2)
                = delete (strategyId plan) (activeExecutions w)).
  { subst w2. simpl. apply map_eq. intros k.
    destruct (decide (k = strategyId plan)) as [-> | Hne].
    - by rewrite !lookup_delete_eq.
    - by rewrite !lookup_delete_ne. }
  destruct (data_ r) as [ev |].
  - destruct (data_ t) as [tr |].
    + eexists [_], []. simpl. rewrite app_nil_r.
      repeat split;
        first [ apply lookup_delete_eq
              | constructor; [discriminate | constructor]
              | constructor ].
    + eexists [_; failedEvent plan (thrownMessage (typeError "trainingTime"))], [].
      simpl. rewrite app_nil_r, <- app_assoc.
      repeat split;
        try first [ apply lookup_delete_eq | exact Hdd | constructor ].
      eexists _, [_]. repeat split.
      constructor; [discriminate | constructor].
  - destruct (catchBlock_adds plan ctl (typeError "accuracy") w2)
      as (es & cs & He & Hi & Hcs & Hs & Ha).
    exists es, cs.
    split; [exact He |]. split; [exact Hi |]. split; [exact Hcs |].
    split; [exact Hs |]. rewrite Ha. exact Hdd.
Qed.

Lemma resumeStrategy_adds env plan ctl at_ o w :
  stepAdds plan ctl w (resumeStrategy env plan ctl at_ o w).1
    (resumeStrategy env plan ctl at_ o w).2.
Proof.
  unfold resumeStrategy.
  set (w0 := if timerFires env plan (phaseOf at_) then fireTimer ctl w else w).
  assert (Hw0 : events w0 = events w ++ [] /\ invocations w0 = invocations w
                /\ activeExecutions w0 = activeExecutions w).
  { subst w0. rewrite app_nil_r. destruct (timerFires _ _ _); [| done].
    by rewrite events_fireTimer, invocations_fireTimer, activeExecutions_fireTimer. }
  destruct Hw0 as (He0 & Hi0 & Ha0).
  apply (stepAdds_prepend plan ctl w w0 _ _ []); try assumption; [constructor |].
  clearbody w0. clear He0 Hi0 Ha0 w.
  destruct o as [result | e]; simpl.
  - set (w1 := emitProgress (completedEvent (phaseOf at_) plan) w0).
    assert (Hpre : Forall notFailed [completedEvent (phaseOf at_) plan]).
    { constructor; [discriminate | constructor]. }
    destruct at_ as [| d | d m | d m t]; simpl;
      try (destruct (success result); simpl;
           [ eapply (stepAdds_prepend plan ctl w0 w1); try reflexivity;
             [exact Hpre | apply enterPhase_adds]
           | eapply (stepAdds_prepend plan ctl w0 w1); try reflexivity;
             [exact Hpre |];
             match goal with
             | |- context [failureResult plan ?msg] =>
                 apply (catchBlock_adds plan ctl (JsError msg) w1)
             end ]).
    eapply (stepAdds_prepend plan ctl w0 w1); try reflexivity; [exact Hpre |].
    destruct (finishStrategy env plan ctl t result w1) as [w2 r] eqn:Hf.
    pose proof (finishStrategy_adds env plan ctl t result w1) as H.
    rewrite Hf in H. exact H.
  - apply catchBlock_adds.
Qed.

Lemma enterPhase_remaining env plan ctl at_ o w :
  remaining (enterPhase env plan ctl at_ w).2 <= remaining (Pending ctl at_ o).
Proof.
  unfold enterPhase, executePhaseEnter.
  destruct (aborted ctl w); simpl; [lia |].
  destruct (executorOf _ _ _ _) as [w1 o1]. simpl. destruct at_; simpl; lia.
Qed.

Lemma resumeStrategy_remaining env plan ctl at_ o w :
  remaining (resumeStrategy env plan ctl at_ o w).2 < remaining (Pending ctl at_ o).
Proof.
  unfold resumeStrategy.
  set (w0 := if timerFires env plan (phaseOf at_) then fireTimer ctl w else w).
  clearbody w0.
  destruct o as [result | e]; simpl; [| destruct at_; simpl; lia].
  set (w1 := emitProgress _ w0). clearbody w1.
  pose (dummy := Throws JsOther).
  destruct at_ as [| d | d m | d m t]; simpl.
  - destruct (success result); simpl; [| lia].
    pose proof (enterPhase_remaining env plan ctl (AtModel result) dummy w1).
    simpl in *. lia.
  - destruct (success result); simpl; [| lia].
    pose proof (enterPhase_remaining env plan ctl (AtTraining d result) dummy w1).
    simpl in *. lia.
  - destruct (success result); simpl; [| lia].
    pose proof (enterPhase_remaining env plan ctl (AtEvaluation d m result) dummy w1).
    simpl in *. lia.
  - destruct (finishStrategy _ _ _ _ _ _). simpl. lia.
Qed.

Lemma stepAdds_trans plan ctl w w1 w2 ctl1 at1 o1 p2 :
  stepAdds plan ctl w w1 (Pending ctl1 at1 o1) ->
  stepAdds plan ctl w1 w2 p2 ->
  stepAdds plan ctl w w2 p2.
Proof.
  intros (es1 & cs1 & He1 & Hi1 & Hcs1 & [_ Hes1] & Ha1)
         (es2 & cs2 & He2 & Hi2 & Hcs2 & Hs2 & Ha2).
  exists (es1 ++ es2), (cs1 ++ cs2).
  rewrite He2, He1, Hi2, Hi1, Ha2, Ha1, <- !app_assoc.
  repeat split; try reflexivity.
  - by apply Forall_app.
  - by apply settledBy_prepend.
Qed.

Lemma stepStrategy_adds env plan ctl at_ o w :
  stepAdds plan ctl w (stepStrategy env plan (Pending ctl at_ o) w).1
    (stepStrategy env plan (Pending ctl at_ o) w).2.
Proof. apply resumeStrategy_adds. Qed.

Lemma stepStrategy_remaining env plan p w :
  remaining (stepStrategy env plan p w).2 <= pred (remaining p).
Proof.
  destruct p as [ctl at_ o | r | e]; simpl; try lia.
  pose proof (resumeStrategy_remaining env plan ctl at_ o w) as H.
  simpl in H. destruct at_; simpl in *; lia.
Qed.

Lemma stepsStrategy_remaining n env plan p w :
  remaining (stepsStrategy n env plan p w).2 <= remaining p - n.
Proof.
  revert p w. induction n as [| n IH]; intros p w; simpl; [lia |].
  pose proof (stepStrategy_remaining env plan p w) as H.
  destruct (stepStrategy env plan p w) as [w' p']. simpl in H.
  specialize (IH p' w'). lia.
Qed.

Lemma stepsStrategy_adds n env plan ctl w0 p w :
  stepAdds plan ctl w0 w p ->
  stepAdds plan ctl w0 (stepsStrategy n env plan p w).1
    (stepsStrategy n env plan p w).2.
Proof.
  revert p w. induction n as [| n IH]; intros p w Hp; simpl; [exact Hp |].
  destruct p as [ctl1 at1 o1 | r | e].
  - assert (ctl1 = ctl) as ->.
    { destruct Hp as (es & cs & _ & _ & _ & [Hc _] & _). exact Hc. }
    pose proof (stepStrategy_adds env plan ctl at1 o1 w) as Hs.
    destruct (stepStrategy env plan (Pending ctl at1 o1) w) as [w' p'].
    apply IH. eapply stepAdds_trans; [exact Hp | exact Hs].
  - simpl. by apply IH.
  - simpl. by apply IH.
Qed.

Lemma startStrategy_adds env plan timeout w :
  stepAdds plan (length (controllers w)) (registered plan timeout w)
    (startStrategy env plan timeout w).1 (startStrategy env plan timeout w).2.
Proof.
  unfold startStrategy, newAbortController.
  eapply (stepAdds_prepend _ _ _
            (emitProgress (startEvent plan) (registered plan timeout w)));
    try reflexivity.
  - constructor; [discriminate | constructor].
  - apply enterPhase_adds.
Qed.

(** A promise with nothing left to do is settled. *)
Lemma remaining_0 p : remaining p = 0 -> match p with Pending _ _ _ => False | _ => True end.
Proof. destruct p as [ctl [| | |] o | |]; simpl; (discriminate || tauto). Qed.

(** A run on its own: the promise is fulfilled, and the world has grown
    by the run's events and agent calls and has lost the registry entry. *)
Lemma executeSingleStrategy_run env plan timeout w :
  exists w' r es cs,
    executeSingleStrategy env plan timeout w = (w', Fulfilled r)
    /\ events w' = events w ++ es
    /\ invocations w' = invocations w ++ cs
    /\ Forall (taskOf plan) cs
    /\ settledBy plan (length (controllers w)) es w' (Fulfilled r)
    /\ activeExecutions w' = delete (strategyId plan) (activeExecutions w).
Proof.
  unfold executeSingleStrategy.
  pose proof (startStrategy_adds env plan timeout w) as Hstart.
  destruct (startStrategy env plan timeout w) as [w1 p1] eqn:Hs. simpl in Hstart.
  pose proof (stepsStrategy_adds 4 env plan _ _ p1 w1 Hstart) as Hrun.
  pose proof (stepsStrategy_remaining 4 env plan p1 w1) as Hrem.
  assert (remaining p1 <= 4) by (destruct p1 as [c [| | |] o | |]; simpl; lia).
  destruct (stepsStrategy 4 env plan p1 w1) as [w' p']. simpl in *.
  assert (Hp' : remaining p' = 0) by lia. apply remaining_0 in Hp'.
  destruct Hrun as (es & cs & He & Hi & Hcs & Hset & Ha).
  destruct p' as [? ? ? | r | e]; [tauto | | simpl in Hset; tauto].
  exists w', r, es, cs. repeat split; try assumption.
  - destruct Hset; assumption.
  - destruct Hset as (_ & ? & _); assumption.
  - destruct Hset as (_ & _ & ? & _); assumption.
  - destruct Hset as (_ & _ & _ & ?); assumption.
  - rewrite Ha. simpl. apply map_eq. intros k.
    destruct (decide (k = strategyId plan)) as [-> | Hne].
    + by rewrite !lookup_delete_eq.
    + by rewrite !lookup_delete_ne, lookup_insert_ne.
Qed.

(** ** The strategy runner: a whole run *)

Lemma startStrategy_pending env plan timeout w :
  exists o,
    (startStrategy env plan timeout w).2 = Pending (length (controllers w)) AtData o
    /\ activeExecutions (startStrategy env plan timeout w).1 !! strategyId plan
       = Some (length (controllers w))
    /\ timers (startStrategy env plan timeout w).1 !! length (controllers w)
       = Some timeout.
Proof.
  unfold startStrategy, newAbortController, enterPhase, executePhaseEnter.
  assert (Hab : forall w1, controllers w1 = controllers w ++ [false] ->
                           aborted (length (controllers w)) w1 = false).
  { intros w1 Hc. unfold aborted. rewrite Hc, lookup_app_r, Nat.sub_diag; done. }
  rewrite Hab by reflexivity. simpl.
  eexists. split; [reflexivity |]. split; apply lookup_insert_eq.
Qed.

(** C9: a run puts its controller into [activeExecutions] and sets its
    timer when it starts; when it returns, on whatever path, the registry
    has no entry for the strategy's id and the timer is cleared.  The same
    holds at the step at which a strategy that runs among others ends. *)
Theorem registry_cleanup env plan timeout w at_ o w0 :
  let ctl := length (controllers w) in
  (exists o0,
     (startStrategy env plan timeout w).2 = Pending ctl AtData o0
     /\ activeExecutions (startStrategy env plan timeout w).1 !! strategyId plan
        = Some ctl
     /\ timers (startStrategy env plan timeout w).1 !! ctl = Some timeout)
  /\ (exists w' r,
        executeSingleStrategy env plan timeout w = (w', Fulfilled r)
        /\ activeExecutions w' !! strategyId plan = None
        /\ timers w' !! ctl = None)
  /\ match stepStrategy env plan (Pending ctl at_ o) w0 with
     | (w', Pending _ _ _) =>
         activeExecutions w' = activeExecutions w0
     | (w', Fulfilled _) =>
         activeExecutions w' !! strategyId plan = None /\ timers w' !! ctl = None
     | (_, Rejected _) => False
     end.
Proof.
  intros ctl. split; [apply startStrategy_pending |]. split.
  - destruct (executeSingleStrategy_run env plan timeout w)
      as (w' & r & es & cs & Hrun & _ & _ & _ & Hset & _).
    exists w', r. split; [exact Hrun |].
    destruct Hset as (_ & Hreg & Htm & _). split; assumption.
  - pose proof (stepStrategy_adds env plan ctl at_ o w0) as Hs.
    destruct (stepStrategy env plan (Pending ctl at_ o) w0) as [w' p'].
    destruct Hs as (es & cs & _ & _ & _ & Hset & Ha).
    destruct p' as [? ? ? | r | e]; simpl in *.
    + exact Ha.
    + destruct Hset as (_ & Hreg & Htm & _). split; assumption.
    + exact Hset.
Qed.

Lemma enterPhase_history env plan ctl at_ w :
  match at_ with
  | AtData => True
  | AtModel d => answered env plan data d
  | AtTraining d m => answered env plan data d /\ answered env plan model m
  | AtEvaluation d m t =>
      answered env plan data d /\ answered env plan model m
      /\ answered env plan training t
  end ->
  history env plan (enterPhase env plan ctl at_ w).2.
Proof.
  intros Hprior. unfold enterPhase, executePhaseEnter.
  destruct (aborted ctl w); [simpl; discriminate |].
  destruct (executorOf env plan at_ _) as [w1 o] eqn:He. simpl.
  split; [| exact Hprior].
  destruct at_ as [| d | d m | d m t]; simpl in He;
    try (injection He as _ <-; by left).
  destruct (data_ t), (data_ d); injection He as _ <-; eauto.
Qed.

Lemma resumeStrategy_history env plan ctl at_ o w :
  history env plan (Pending ctl at_ o) ->
  history env plan (resumeStrategy env plan ctl at_ o w).2.
Proof.
  intros [Ho Hprior]. unfold resumeStrategy.
  set (w0 := if timerFires env plan (phaseOf at_) then fireTimer ctl w else w).
  clearbody w0.
  destruct o as [result | e]; simpl; [| discriminate].
  destruct Ho as [Ho | [e He]]; [symmetry in Ho | discriminate].
  destruct at_ as [| d | d m | d m t]; simpl in *.
  - destruct (success result) eqn:Hs; simpl; [| discriminate].
    apply enterPhase_history. by split.
  - destruct (success result) eqn:Hs; simpl; [| discriminate].
    apply enterPhase_history. split; [exact Hprior | by split].
  - destruct (success result) eqn:Hs; simpl; [| discriminate].
    apply enterPhase_history. destruct Hprior as [Hd Hm].
    split; [exact Hd |]. split; [exact Hm | by split].
  - destruct (finishStrategy _ _ _ _ _ _) as [w2 r] eqn:Hf. simpl. intros _.
    destruct Hprior as (Hd & Hm & Ht). by exists d, m, t, result.
Qed.

Lemma stepsStrategy_history n env plan p w :
  history env plan p -> history env plan (stepsStrategy n env plan p w).2.
Proof.
  revert p w. induction n as [| n IH]; intros p w Hp; simpl; [exact Hp |].
  destruct p as [ctl at_ o | r | e]; simpl; try by apply IH.
  pose proof (resumeStrategy_history env plan ctl at_ o w Hp) as H.
  destruct (resumeStrategy env plan ctl at_ o w) as [w' p']. by apply IH.
Qed.

(** A run reports a success only if the data, model and training agents
    each answered with [success: true] and the evaluation agent answered
    at all.  Every other way for a phase to fail ends in a failure. *)
Lemma success_requires env plan timeout w w' r :
  executeSingleStrategy env plan timeout w = (w', Fulfilled r) ->
  r_success r = true ->
  exists d m t e,
    answered env plan data d /\ answered env plan model m
    /\ answered env plan training t
    /\ agentExecute env evaluation plan = Resolves e.
Proof.
  unfold executeSingleStrategy. intros Hrun.
  pose proof (enterPhase_history env plan (length (controllers w)) AtData
                (emitProgress (startEvent plan) (registered plan timeout w)) I)
    as Hstart.
  change (enterPhase env plan _ AtData _) with (startStrategy env plan timeout w)
    in Hstart.
  destruct (startStrategy env plan timeout w) as [w1 p1].
  pose proof (stepsStrategy_history 4 env plan p1 w1 Hstart) as H.
  rewrite Hrun in H. exact H.
Qed.

(** So a phase failure ends in a failure, unless it is only the
    evaluation agent answering [success: false]. *)
Lemma phase_failure_fails env plan timeout w w' r :
  executeSingleStrategy env plan timeout w = (w', Fulfilled r) ->
  ~ (exists d m t e,
       answered env plan data d /\ answered env plan model m
       /\ answered env plan training t
       /\ agentExecute env evaluation plan = Resolves e) ->
  r_success r = false.
Proof.
  intros Hrun Hfail. destruct (r_success r) eqn:Hs; [| reflexivity].
  destruct Hfail. by eapply success_requires.
Qed.

(** A run never rejects, and a result that is not a success is the failure
    literal: the sentinel metrics, no model, an error message. *)
Lemma executeSingleStrategy_fulfilled env plan timeout w :
  exists w' r,
    executeSingleStrategy env plan timeout w = (w', Fulfilled r)
    /\ r_strategyId r = strategyId plan
    /\ (r_success r = false ->
        finalMetrics r = failureMetrics /\ r_model r = None
        /\ exists msg, r_error r = Some msg).
Proof.
  destruct (executeSingleStrategy_run env plan timeout w)
    as (w' & r & es & cs & Hrun & _ & _ & _ & Hset & _).
  exists w', r. split; [exact Hrun |].
  destruct Hset as (Hid & _ & _ & Hr). split; [exact Hid |].
  intros Hfail. rewrite Hfail in Hr. destruct Hr as (msg & es0 & -> & _).
  simpl. eauto.
Qed.

(** C6, amended: when a run ends in a failure that the runner caught, it
    has emitted exactly one 'failed' event for the strategy, as its last
    event, with progress 0, the captured message, and the phase label
    'evaluation' whichever phase was under way. *)
Theorem failed_event_last env plan timeout w w' r :
  executeSingleStrategy env plan timeout w = (w', Fulfilled r) ->
  r_success r = false ->
  exists msg es0,
    r_error r = Some msg
    /\ events w' = events w ++ es0 ++ [failedEvent plan msg]
    /\ Forall notFailed es0
    /\ failedEvent plan msg
       = {| ep_strategyId := strategyId plan;
            ep_phase := evaluation;
            ep_progress := 0;
            ep_status := failed;
            ep_message := "Strategy failed: " +:+ msg;
            ep_metrics := None |}.
Proof.
  intros Hrun Hfail.
  destruct (executeSingleStrategy_run env plan timeout w)
    as (w1 & r1 & es & cs & Hrun1 & He & _ & _ & Hset & _).
  rewrite Hrun in Hrun1. injection Hrun1 as <- <-.
  destruct Hset as (_ & _ & _ & Hr). rewrite Hfail in Hr.
  destruct Hr as (msg & es0 & -> & -> & Hes0).
  exists msg, es0. repeat split; assumption.
Qed.

Lemma failed_event_last_witness :
  exists msg es0,
    r_error (failureResult plan1 "Data processing failed") = Some msg
    /\ events (executeSingleStrategy envDataFails plan1 1000 emptyWorld).1
       = events emptyWorld ++ es0 ++ [failedEvent plan1 msg]
    /\ Forall notFailed es0
    /\ failedEvent plan1 msg
       = {| ep_strategyId := strategyId plan1;
            ep_phase := evaluation;
            ep_progress := 0;
            ep_status := failed;
            ep_message := "Strategy failed: " +:+ msg;
            ep_metrics := None |}.
Proof.
  apply (failed_event_last envDataFails plan1 1000 emptyWorld
           (executeSingleStrategy envDataFails plan1 1000 emptyWorld).1
           (failureResult plan1 "Data processing failed")).
  - vm_compute. reflexivity.
  - reflexivity.
Defined.

(** C6 as stated fails: the data agent answers [success: false], so the
    data phase is the only one attempted, and the one 'failed' event of
    the run is labelled 'evaluation', not 'data'. *)
Lemma failed_event_label_counterexample :
  let w' := (executeSingleStrategy envDataFails plan1 1000 emptyWorld).1 in
  map fst (invocations w') = [data]
  /\ filter (fun e => ep_status e = failed) (events w')
     = [failedEvent plan1 "Data processing failed"]
  /\ ep_phase (failedEvent plan1 "Data processing failed") = evaluation
  /\ ~ exists e, e ∈ events w' /\ ep_status e = failed /\ ep_phase e = data.
Proof.
  vm_compute. repeat split.
  intros (e & Hin & Hst & Hph).
  repeat (apply elem_of_cons in Hin as [-> | Hin]; [discriminate |]).
  by apply elem_of_nil in Hin.
Qed.

(** C2 fails on the code: the evaluation agent answers [success: false],
    and the run, which checks that flag for the three other agents, returns
    [success: true] with the agent's metrics and the model, and emits no
    'failed' event. *)
Theorem evaluation_failure_reported_as_success :
  agentExecute envEvaluationFails evaluation plan1
  = Resolves {| success := false; data_ := Some poorPayload |}
  /\ exists w',
       executeSingleStrategy envEvaluationFails plan1 1000 emptyWorld
       = (w',
          Fulfilled
            {| r_strategyId := "s1";
               r_success := true;
               finalMetrics :=
                 {| m_accuracy := 40 # 100; m_loss := Finite 2;
                    m_trainingTime := 120; m_modelSize := 35 |};
               r_model := Some 7%nat;
               r_error := None |})
       /\ filter (fun e => ep_status e = failed) (events w') = [].
Proof.
  split; [reflexivity |]. eexists. split; vm_compute; reflexivity.
Qed.

(** When the evaluation agent answers [success: false] with no payload,
    the run does end in a failure, through the read of [accuracy] from the
    missing payload: the message is the one of that read. *)
Example evaluation_failure_without_payload :
  (executeSingleStrategy envEvaluationFailsBare plan1 1000 emptyWorld).2
  = Fulfilled
      (failureResult plan1
         "Cannot read properties of undefined (reading 'accuracy')").
Proof. vm_compute. reflexivity. Qed.

(** ** The batch scheduler *)

Lemma callsBy_refl batch w : callsBy batch w w.
Proof. exists []. split; [by rewrite app_nil_r | constructor]. Qed.

Lemma callsBy_trans batch w1 w2 w3 :
  callsBy batch w1 w2 -> callsBy batch w2 w3 -> callsBy batch w1 w3.
Proof.
  intros (cs1 & H1 & F1) (cs2 & H2 & F2). exists (cs1 ++ cs2).
  rewrite H2, H1, <- app_assoc. split; [reflexivity | by apply Forall_app].
Qed.

Lemma callsBy_mono batch batch' w w' :
  (forall plan, plan ∈ batch -> plan ∈ batch') ->
  callsBy batch w w' -> callsBy batch' w w'.
Proof.
  intros Hsub (cs & H & F). exists cs. split; [exact H |].
  eapply Forall_impl; [exact F |]. intros c (plan & Hin & Ht). eauto.
Qed.

Lemma stepAdds_callsBy plan ctl w w' p' :
  stepAdds plan ctl w w' p' -> callsBy [plan] w w' /\ wellRun plan p'.
Proof.
  intros (es & cs & _ & Hi & Hcs & Hset & _). split.
  - exists cs. split; [exact Hi |]. eapply Forall_impl; [exact Hcs |].
    intros c Hc. exists plan. split; [apply list_elem_of_singleton; reflexivity | exact Hc].
  - destruct p' as [? ? ? | r | e]; simpl in *; [exact I | tauto | exact Hset].
Qed.

Lemma stepStrategy_wellRun env plan p w :
  wellRun plan p ->
  callsBy [plan] w (stepStrategy env plan p w).1
  /\ wellRun plan (stepStrategy env plan p w).2.
Proof.
  intros Hp. destruct p as [ctl at_ o | r | e].
  - eapply stepAdds_callsBy, stepStrategy_adds.
  - simpl. split; [apply callsBy_refl | exact Hp].
  - destruct Hp.
Qed.

Lemma startStrategy_wellRun env plan timeout w :
  callsBy [plan] w (startStrategy env plan timeout w).1
  /\ wellRun plan (startStrategy env plan timeout w).2
  /\ remaining (startStrategy env plan timeout w).2 <= 4.
Proof.
  destruct (stepAdds_callsBy _ _ _ _ _ (startStrategy_adds env plan timeout w))
    as [Hc Hw].
  split; [exact Hc |]. split; [exact Hw |].
  destruct (startStrategy_pending env plan timeout w) as (o & -> & _). simpl. lia.
Qed.

Lemma startBatch_runs env timeout batch w :
  callsBy batch w (startBatch env timeout batch w).1
  /\ batchRuns batch 4 (startBatch env timeout batch w).2.
Proof.
  revert w. induction batch as [| plan rest IH]; intros w; simpl.
  - split; [apply callsBy_refl |]. split; [reflexivity | constructor].
  - destruct (startStrategy_wellRun env plan timeout w) as (Hc & Hw & Hr).
    destruct (startStrategy env plan timeout w) as [w1 p]. simpl in *.
    destruct (IH w1) as (Hc' & Hm & Hf).
    destruct (startBatch env timeout rest w1) as [w2 ps]. simpl in *.
    split.
    + eapply callsBy_trans.
      * eapply callsBy_mono; [| exact Hc]. intros q Hq.
        apply list_elem_of_singleton in Hq as ->. apply elem_of_cons; by left.
      * eapply callsBy_mono; [| exact Hc']. intros q Hq. apply elem_of_cons; by right.
    + split; [simpl; f_equal; exact Hm |]. constructor; [split; assumption | exact Hf].
Qed.

Lemma stepAt_runs env i batch k ps w :
  batchRuns batch k ps ->
  callsBy batch w (stepAt env i ps w).1
  /\ batchRuns batch k (stepAt env i ps w).2.
Proof.
  intros [Hm Hf]. unfold stepAt.
  destruct (ps !! i) as [[plan p] |] eqn:Hi; simpl;
    [| split; [apply callsBy_refl | by split]].
  pose proof (Forall_lookup_1 _ _ _ _ Hf Hi) as [Hw Hr]. simpl in *.
  destruct (stepStrategy_wellRun env plan p w Hw) as [Hc Hw'].
  pose proof (stepStrategy_remaining env plan p w) as Hr'.
  destruct (stepStrategy env plan p w) as [w' p']. simpl in *.
  split; [| split].
  - eapply callsBy_mono; [| exact Hc]. intros q Hq.
    apply list_elem_of_singleton in Hq as ->. rewrite <- Hm.
    apply (list_elem_of_fmap_2 fst ps (plan, p)).
    by apply list_elem_of_lookup_2 with i.
  - rewrite list_fmap_insert. simpl. rewrite list_insert_id; [exact Hm |].
    by rewrite list_lookup_fmap, Hi.
  - apply Forall_insert; [exact Hf |]. simpl. split; [exact Hw' | lia].
Qed.

Lemma runSchedule_runs env schedule batch k ps w :
  batchRuns batch k ps ->
  callsBy batch w (runSchedule env schedule ps w).1
  /\ batchRuns batch k (runSchedule env schedule ps w).2.
Proof.
  revert ps w. induction schedule as [| i schedule IH]; intros ps w Hb; simpl.
  - split; [apply callsBy_refl | exact Hb].
  - destruct (stepAt_runs env i batch k ps w Hb) as [Hc Hb'].
    destruct (stepAt env i ps w) as [w' ps']. simpl in *.
    destruct (IH ps' w' Hb') as [Hc' Hb''].
    split; [eapply callsBy_trans; eassumption | exact Hb''].
Qed.

Lemma batchRuns_weaken batch k k' ps :
  k <= k' -> batchRuns batch k ps -> batchRuns batch k' ps.
Proof.
  intros Hk [Hm Hf]. split; [exact Hm |].
  eapply Forall_impl; [exact Hf |]. intros pp [Hw Hr]. split; [exact Hw | lia].
Qed.

Lemma stepAll_runs env batch k ps w :
  batchRuns batch k ps ->
  callsBy batch w (stepAll env ps w).1
  /\ batchRuns batch (pred k) (stepAll env ps w).2.
Proof.
  revert batch w. induction ps as [| [plan p] rest IH]; intros batch w [Hm Hf]; simpl.
  - split; [apply callsBy_refl |]. split; [exact Hm | constructor].
  - apply Forall_cons in Hf as [[Hw Hr] Hf]. simpl in *.
    destruct (stepStrategy_wellRun env plan p w Hw) as [Hc Hw'].
    pose proof (stepStrategy_remaining env plan p w) as Hr'.
    destruct (stepStrategy env plan p w) as [w1 p']. simpl in *.
    destruct (IH (map fst rest) w1) as (Hc' & Hm' & Hf'); [by split |].
    destruct (stepAll env rest w1) as [w2 rest']. simpl in *.
    subst batch. split; [| split].
    + eapply callsBy_trans.
      * eapply callsBy_mono; [| exact Hc]. intros q Hq.
        apply list_elem_of_singleton in Hq as ->. apply elem_of_cons. by left.
      * eapply callsBy_mono; [| exact Hc']. intros q Hq.
        apply elem_of_cons. by right.
    + simpl. f_equal. exact Hm'.
    + constructor; [| exact Hf']. simpl. split; [exact Hw' | lia].
Qed.

Lemma rounds_runs n env batch k ps w :
  batchRuns batch k ps ->
  callsBy batch w (rounds n env ps w).1
  /\ batchRuns batch (k - n) (rounds n env ps w).2.
Proof.
  revert k ps w. induction n as [| n IH]; intros k ps w Hb; simpl.
  - split; [apply callsBy_refl |]. by rewrite Nat.sub_0_r.
  - destruct (stepAll_runs env batch k ps w Hb) as [Hc Hb'].
    destruct (stepAll env ps w) as [w' ps']. simpl in *.
    destruct (IH (pred k) ps' w' Hb') as [Hc' Hb''].
    split; [eapply callsBy_trans; eassumption |].
    replace (k - S n) with (pred k - n) by lia. exact Hb''.
Qed.

Lemma allSettled_runs batch ps :
  batchRuns batch 0 ps ->
  exists settled, allSettled ps = Some settled /\ allFulfilled batch settled.
Proof.
  revert batch. induction ps as [| [plan p] rest IH]; intros batch [Hm Hf]; simpl.
  - exists []. split; [reflexivity |]. split; [exact Hm | constructor].
  - apply Forall_cons in Hf as [[Hw Hr] Hf]. simpl in *.
    destruct (IH (map fst rest)) as (settled & -> & Hm' & Hf'); [by split |].
    destruct p as [ctl [| | |] o | r | e]; simpl in *; try lia; try contradiction.
    exists ((plan, fulfilled r) :: settled). split; [reflexivity |].
    subst batch. split; [simpl; f_equal; exact Hm' |].
    constructor; [| exact Hf']. simpl. eauto.
Qed.

(** Waiting for a batch always ends: every promise settles, and none is
    rejected. *)
Lemma awaitAllSettled_runs env timeout schedule batch w :
  let '(w1, ps) := startBatch env timeout batch w in
  exists settled,
    (awaitAllSettled env schedule ps w1).2 = Some settled
    /\ allFulfilled batch settled
    /\ callsBy batch w (awaitAllSettled env schedule ps w1).1.
Proof.
  destruct (startBatch_runs env timeout batch w) as [Hc0 Hb0].
  destruct (startBatch env timeout batch w) as [w1 ps]. cbn [fst snd] in *.
  unfold awaitAllSettled.
  destruct (runSchedule_runs env schedule batch 4 ps w1 Hb0) as [Hc1 Hb1].
  destruct (runSchedule env schedule ps w1) as [w2 ps2]. cbn [fst snd] in *.
  destruct (rounds_runs 4 env batch 4 ps2 w2 Hb1) as [Hc2 Hb2].
  destruct (rounds 4 env ps2 w2) as [w3 ps3]. cbn [fst snd] in *.
  destruct (allSettled_runs batch ps3 Hb2) as (settled & Hs & Hf).
  exists settled. split; [exact Hs |]. split; [exact Hf |].
  eapply callsBy_trans; [exact Hc0 |]. eapply callsBy_trans; eassumption.
Qed.

(** *** Batches that hold promises of any kind *)












(** *** The collecting loop *)



Lemma collectBatch_no_early_stop settled results :
  collectBatch false settled results = (results ++ map slotResult settled, false).
Proof.
  revert results. induction settled as [| [plan [v | reason]] rest IH];
    intros results; simpl.
  - by rewrite app_nil_r.
  - rewrite IH, <- app_assoc. reflexivity.
  - rewrite IH, <- app_assoc. reflexivity.
Qed.


(** With early stop on, the loop either returns at the first slot that
    reaches the target, having pushed the slots up to it, or pushes every
    slot. *)
Lemma collectBatch_early_stop settled results :
  match collectBatch true settled results with
  | (results', true) =>
      exists n plan hit,
        settled !! n = Some (plan, fulfilled hit)
        /\ reachesTarget hit = true
        /\ Forall noHit (take n settled)
        /\ results' = results ++ map slotResult (take (S n) settled)
  | (results', false) =>
      Forall noHit settled /\ results' = results ++ map slotResult settled
  end.
Proof.
  revert results. induction settled as [| [plan [v | reason]] rest IH];
    intros results; simpl.
  - split; [constructor | by rewrite app_nil_r].
  - destruct (reachesTarget v) eqn:Hv.
    + exists 0, plan, v. repeat split; [exact Hv | constructor].
    + specialize (IH (results ++ [v])).
      destruct (collectBatch true rest (results ++ [v])) as [results' [|]].
      * destruct IH as (n & plan' & hit & Hn & Hhit & Hno & ->).
        exists (S n), plan', hit. repeat split; try assumption.
        -- simpl. constructor; [exact Hv | exact Hno].
        -- simpl. by rewrite <- app_assoc.
      * destruct IH as [Hno ->]. split; [constructor; [exact Hv | exact Hno] |].
        by rewrite <- app_assoc.
  - specialize (IH (results ++ [rejectedResult plan reason])).
    destruct (collectBatch true rest _) as [results' [|]].
    + destruct IH as (n & plan' & hit & Hn & Hhit & Hno & ->).
      exists (S n), plan', hit. repeat split; try assumption.
      * simpl. constructor; [exact I | exact Hno].
      * simpl. by rewrite <- app_assoc.
    + destruct IH as [Hno ->]. split; [constructor; [exact I | exact Hno] |].
      by rewrite <- app_assoc.
Qed.

(** *** Batches *)

Lemma createBatchesLoop_spec {T} (items : list T) batchSize fuel i batches :
  1 <= batchSize ->
  length items - i < fuel ->
  exists more,
    createBatchesLoop fuel items batchSize i batches = Some (batches ++ more)
    /\ concat more = drop i items
    /\ Forall (fun b => 1 <= length b <= batchSize) more.
Proof.
  intros Hbs. revert i batches.
  induction fuel as [| fuel IH]; intros i batches Hfuel; [lia |]. simpl.
  case_bool_decide as Hi.
  - destruct (IH (i + batchSize) (batches ++ [slice i (i + batchSize) items]))
      as (more & -> & Hcat & Hall); [lia |].
    exists (slice i (i + batchSize) items :: more).
    rewrite <- app_assoc. split; [reflexivity |]. unfold slice.
    replace (i + batchSize - i) with batchSize by lia. split.
    + simpl. rewrite Hcat, <- drop_drop. apply take_drop.
    + constructor; [| exact Hall].
      rewrite length_take, length_drop. lia.
  - exists []. rewrite app_nil_r. split; [reflexivity |].
    split; [| constructor]. simpl. symmetry. apply drop_ge. lia.
Qed.

(** With a batch size of at least one, [createBatches] returns: the
    batches are consecutive pieces of the list, none empty, none longer
    than the batch size. *)
Lemma createBatches_spec {T} (items : list T) batchSize :
  1 <= batchSize ->
  exists batches,
    createBatches items batchSize = Some batches
    /\ concat batches = items
    /\ Forall (fun b => 1 <= length b <= batchSize) batches.
Proof.
  intros Hbs. unfold createBatches.
  destruct (createBatchesLoop_spec items batchSize (S (length items)) 0 [] Hbs)
    as (more & H & Hcat & Hall); [lia |].
  exists more. split; [exact H |]. split; [exact Hcat | exact Hall].
Qed.

(** With a batch size of zero and an item to place, the loop of
    [createBatches] never ends. *)
Lemma createBatches_zero {T} (items : list T) :
  items <> [] -> createBatches items 0 = None.
Proof.
  intros Hne. unfold createBatches.
  assert (Hlen : 0 < length items) by (destruct items; [done | simpl; lia]).
  generalize (@nil (list T)). generalize (S (length items)) as fuel.
  induction fuel as [| fuel IH]; intros batches; simpl; [reflexivity |].
  rewrite bool_decide_true by exact Hlen. apply IH.
Qed.

Lemma createBatches_nil {T} batchSize : createBatches (@nil T) batchSize = Some [].
Proof. reflexivity. Qed.

(** *** Cancelling what is registered *)

Lemma cancelRemainingExecutions_spec w :
  activeExecutions (cancelRemainingExecutions w) = ∅
  /\ events (cancelRemainingExecutions w) = events w
  /\ invocations (cancelRemainingExecutions w) = invocations w
  /\ timers (cancelRemainingExecutions w) = timers w
  /\ length (controllers (cancelRemainingExecutions w)) = length (controllers w)
  /\ (forall sid ctl,
        activeExecutions w !! sid = Some ctl -> ctl < length (controllers w) ->
        aborted ctl (cancelRemainingExecutions w) = true)
  /\ (forall ctl, aborted ctl w = true ->
                  aborted ctl (cancelRemainingExecutions w) = true).
Proof.
  unfold cancelRemainingExecutions. split; [reflexivity |]. simpl.
  apply (map_fold_weak_ind
           (fun r (m : gmap string nat) =>
              events r = events w
              /\ invocations r = invocations w
              /\ timers r = timers w
              /\ length (controllers r) = length (controllers w)
              /\ (forall sid ctl, m !! sid = Some ctl ->
                    ctl < length (controllers w) -> aborted ctl r = true)
              /\ (forall ctl, aborted ctl w = true -> aborted ctl r = true))).
  - repeat split; try reflexivity; [| tauto].
    intros sid ctl H. by rewrite lookup_empty in H.
  - intros sid ctl m r Hnone (He & Hi & Ht & Hl & Hreg & Hkeep).
    unfold abort, aborted in *. simpl.
    assert (Hset : forall c, c < length (controllers w) ->
              default false (controllers r !! c) = true \/ c = ctl ->
              default false (<[ctl := true]> (controllers r) !! c) = true).
    { intros c Hc [Hold | ->].
      - destruct (decide (c = ctl)) as [-> | Hne].
        + rewrite list_lookup_insert_eq; [done | lia].
        + by rewrite list_lookup_insert_ne.
      - rewrite list_lookup_insert_eq; [done | lia]. }
    repeat split; try assumption.
    + by rewrite length_insert.
    + intros sid' ctl' Hlk Hlt. apply Hset; [exact Hlt |].
      destruct (decide (sid' = sid)) as [-> | Hne].
      * rewrite lookup_insert_eq in Hlk. injection Hlk as ->. by right.
      * rewrite lookup_insert_ne in Hlk by done. left. by apply (Hreg sid').
    + intros c Hc. specialize (Hkeep c Hc).
      destruct (decide (c = ctl)) as [-> | Hne].
      * destruct (decide (ctl < length (controllers r))).
        -- by rewrite list_lookup_insert_eq.
        -- rewrite list_insert_ge by lia. exact Hkeep.
      * by rewrite list_lookup_insert_ne.
Qed.

(** *** The loop over the batches *)

Lemma slotResult_id batch settled :
  allFulfilled batch settled ->
  map r_strategyId (map slotResult settled) = map strategyId batch.
Proof.
  intros [<- Hf]. induction Hf as [| [plan s] rest (v & Hs & Hid) _ IH]; simpl.
  - reflexivity.
  - simpl in *. subst s. f_equal; [exact Hid | exact IH].
Qed.

Lemma slotResult_noHit settled :
  Forall noHit settled ->
  Forall (fun r => reachesTarget r = false) (map slotResult settled).
Proof.
  intros H. induction H as [| [plan [v | reason]] rest Hno _ IH]; simpl.
  - constructor.
  - constructor; [exact Hno | exact IH].
  - constructor; [reflexivity | exact IH].
Qed.

Lemma collectBatch_cases es settled results :
  match collectBatch es settled results with
  | (results', true) =>
      es = true
      /\ exists n plan hit,
           settled !! n = Some (plan, fulfilled hit)
           /\ reachesTarget hit = true
           /\ Forall noHit (take n settled)
           /\ results' = results ++ map slotResult (take (S n) settled)
  | (results', false) =>
      (es = true -> Forall noHit settled)
      /\ results' = results ++ map slotResult settled
  end.
Proof.
  destruct es.
  - pose proof (collectBatch_early_stop settled results) as H.
    destruct (collectBatch true settled results) as [results' [|]]; [by split |].
    destruct H as [Hno ->]. by split.
  - rewrite collectBatch_no_early_stop. by split.
Qed.

(** The loop over the batches returns.  It has gone through the batches
    [processed]: every agent call was for a plan of these, and the results
    added are those of their plans, in order.  Either these are all the
    batches and every plan has its result, or early stop is on and the
    loop returned at the first result that reaches the target, which is in
    the last batch gone through; the registry has then been emptied. *)
Lemma runBatches_spec env timeout_ es schedules batches results w :
  exists w' rs processed rest,
    runBatches env timeout_ es schedules batches results w = Some (w', results ++ rs)
    /\ batches = processed ++ rest
    /\ callsBy (concat processed) w w'
    /\ map r_strategyId rs = take (length rs) (map strategyId (concat processed))
    /\ ((rest = [] /\ length rs = length (concat processed)
         /\ (es = true -> Forall (fun r => reachesTarget r = false) rs))
        \/ (es = true
            /\ exists init batch rs0 hit,
                 processed = init ++ [batch]
                 /\ rs = rs0 ++ [hit]
                 /\ reachesTarget hit = true
                 /\ Forall (fun r => reachesTarget r = false) rs0
                 /\ length (concat init) < length rs <= length (concat processed)
                 /\ exists w2, w' = cancelRemainingExecutions w2)).
Proof.
  revert schedules results w.
  induction batches as [| batch batches IH]; intros schedules results w.
  { exists w, [], [], []. rewrite app_nil_r. simpl.
    split; [reflexivity |]. split; [reflexivity |]. split; [apply callsBy_refl |].
    split; [reflexivity |]. left. repeat split. intros _. constructor. }
  simpl.
  pose proof (awaitAllSettled_runs env timeout_ (hd [] schedules) batch w) as Hb.
  destruct (startBatch env timeout_ batch w) as [w1 ps].
  destruct Hb as (settled & Hs & Hful & Hcalls).
  destruct (awaitAllSettled env (hd [] schedules) ps w1) as [w2 o].
  cbn [fst snd] in *. subst o.
  pose proof (slotResult_id batch settled Hful) as Hids.
  assert (Hlen : length settled = length batch).
  { destruct Hful as [<- _]. by rewrite length_map. }
  pose proof (collectBatch_cases es settled results) as Hc.
  destruct (collectBatch es settled results) as [results' [|]].
  - (* the early return *)
    destruct Hc as (-> & n & plan & hit & Hn & Hhit & Hno & ->).
    pose proof (lookup_lt_Some _ _ _ Hn) as Hlt.
    destruct (cancelRemainingExecutions_spec w2) as (_ & _ & Hinv & _).
    exists (cancelRemainingExecutions w2), (map slotResult (take (S n) settled)),
      [batch], batches.
    split; [reflexivity |]. split; [reflexivity |].
    assert (Hl : length (map slotResult (take (S n) settled)) = S n).
    { rewrite length_map, length_take. lia. }
    split; [| split].
    + simpl. rewrite app_nil_r. destruct Hcalls as (cs & Hi & Hcs).
      exists cs. rewrite Hinv. by split.
    + rewrite Hl. simpl. rewrite app_nil_r, <- Hids.
      by rewrite !firstn_map.
    + right. split; [reflexivity |].
      exists [], batch, (map slotResult (take n settled)), hit.
      split; [reflexivity |]. split.
      { rewrite (take_S_r _ _ _ Hn), map_app. reflexivity. }
      split; [exact Hhit |]. split; [by apply slotResult_noHit |].
      rewrite Hl. simpl. rewrite app_nil_r. split; [lia | by exists w2].
  - (* on to the next batch *)
    destruct Hc as (Hno & ->).
    destruct (IH (tl schedules) (results ++ map slotResult settled) w2)
      as (w' & rs & processed & rest & Hrun & Hbs & Hcalls' & Hids' & Hcase).
    exists w', (map slotResult settled ++ rs), (batch :: processed), rest.
    rewrite app_assoc. split; [exact Hrun |]. split; [by rewrite Hbs |].
    assert (Hl : length (map slotResult settled) = length batch)
      by (by rewrite length_map).
    split; [| split].
    + simpl. eapply callsBy_trans.
      * eapply callsBy_mono; [| exact Hcalls]. intros q Hq.
        apply elem_of_app. by left.
      * eapply callsBy_mono; [| exact Hcalls']. intros q Hq.
        apply elem_of_app. by right.
    + simpl. rewrite !map_app, length_app, Hids, Hids', Hl.
      rewrite take_app, length_map.
      rewrite (take_ge (map strategyId batch)) by (rewrite length_map; lia).
      f_equal. f_equal. lia.
    + destruct Hcase as [(-> & Hlen' & Hes) | (-> & init & b & rs0 & hit & -> & -> & Hhit & Hrs0 & Hpos & Hreg)].
      * left. split; [reflexivity |]. split.
        -- simpl. rewrite !length_app. lia.
        -- intros ->. apply Forall_app. split; [| by apply Hes].
           apply slotResult_noHit. by apply Hno.
      * right. split; [reflexivity |].
        exists (batch :: init), b, (map slotResult settled ++ rs0), hit.
        split; [reflexivity |]. split; [by rewrite app_assoc |].
        split; [exact Hhit |]. split.
        { apply Forall_app. split; [| exact Hrs0].
          apply slotResult_noHit. by apply Hno. }
        simpl. rewrite ?length_app in *. rewrite Hl.
        split; [lia | exact Hreg].
Qed.

(** ** What a strategy sees of the world *)

Lemma view_withEvents ctl f w : view ctl (withEvents f w) = view ctl w.
Proof. reflexivity. Qed.

Lemma view_emitProgress ctl p w : view ctl (emitProgress p w) = view ctl w.
Proof. reflexivity. Qed.

Lemma view_withInvocations ctl f w : view ctl (withInvocations f w) = view ctl w.
Proof. reflexivity. Qed.

Lemma view_withActive ctl f w : view ctl (withActive f w) = view ctl w.
Proof. reflexivity. Qed.

Lemma view_clearTimeout ctl w :
  view ctl (clearTimeout ctl w) = ((view ctl w).1, false).
Proof.
  unfold view. simpl. f_equal. rewrite lookup_delete_eq.
  apply bool_decide_false. by intros [? ?].
Qed.

Lemma view_clearTimeout_ne ctl ctl2 w :
  ctl2 <> ctl -> view ctl (clearTimeout ctl2 w) = view ctl w.
Proof. intros Hne. unfold view. simpl. by rewrite lookup_delete_ne. Qed.

Lemma view_abort ctl w :
  view ctl (abort ctl w) = ((fun _ => true) <$> (view ctl w).1, (view ctl w).2).
Proof.
  unfold view. simpl. f_equal.
  destruct (decide (ctl < length (controllers w))) as [Hlt | Hge].
  - rewrite list_lookup_insert_eq by exact Hlt.
    destruct (lookup_lt_is_Some_2 _ _ Hlt) as [b ->]. reflexivity.
  - rewrite list_insert_ge by lia. rewrite lookup_ge_None_2 by lia. reflexivity.
Qed.

Lemma view_abort_ne ctl ctl2 w :
  ctl2 <> ctl -> view ctl (abort ctl2 w) = view ctl w.
Proof. intros Hne. unfold view. simpl. by rewrite list_lookup_insert_ne. Qed.

Lemma view_fireTimer ctl w :
  view ctl (fireTimer ctl w)
  = if (view ctl w).2 then ((fun _ => true) <$> (view ctl w).1, false)
    else view ctl w.
Proof.
  unfold fireTimer. destruct (timers w !! ctl) as [t |] eqn:Ht.
  - rewrite view_clearTimeout, view_abort. unfold view at 3. simpl. rewrite Ht.
    rewrite bool_decide_true by eauto. reflexivity.
  - unfold view at 2. simpl. rewrite Ht.
    rewrite bool_decide_false by (by intros [? ?]). reflexivity.
Qed.

Lemma view_fireTimer_ne ctl ctl2 w :
  ctl2 <> ctl -> view ctl (fireTimer ctl2 w) = view ctl w.
Proof.
  intros Hne. unfold fireTimer. destruct (timers w !! ctl2); [| reflexivity].
  by rewrite view_clearTimeout_ne, view_abort_ne.
Qed.

Lemma aborted_view ctl w : aborted ctl w = default false (view ctl w).1.
Proof. reflexivity. Qed.

Lemma view_catchBlock plan ctl e w :
  view ctl (catchBlock plan ctl e w).1 = ((view ctl w).1, false).
Proof.
  unfold catchBlock. cbn [fst].
  by rewrite view_emitProgress, view_withActive, view_clearTimeout.
Qed.

Lemma view_catchBlock_ne plan ctl ctl2 e w :
  ctl2 <> ctl -> view ctl (catchBlock plan ctl2 e w).1 = view ctl w.
Proof.
  intros Hne. unfold catchBlock. cbn [fst].
  by rewrite view_emitProgress, view_withActive, view_clearTimeout_ne.
Qed.

Lemma view_executorOf ctl env plan at_ w :
  view ctl (executorOf env plan at_ w).1 = view ctl w.
Proof.
  destruct at_ as [| d | d m | d m t]; try reflexivity.
  simpl. by destruct (data_ t), (data_ d).
Qed.

Lemma executorOf_outcome env plan at_ w w' :
  (executorOf env plan at_ w).2 = (executorOf env plan at_ w').2.
Proof.
  destruct at_ as [| d | d m | d m t]; try reflexivity.
  simpl. by destruct (data_ t), (data_ d).
Qed.

Lemma view_finishStrategy env plan ctl t r w :
  view ctl (finishStrategy env plan ctl t r w).1 = ((view ctl w).1, false).
Proof.
  unfold finishStrategy.
  destruct (data_ r); [destruct (data_ t) |]; cbn [fst];
    rewrite ?view_catchBlock, ?view_emitProgress, ?view_withActive,
      ?view_clearTimeout; reflexivity.
Qed.

Lemma view_finishStrategy_ne env plan ctl ctl2 t r w :
  ctl2 <> ctl -> view ctl (finishStrategy env plan ctl2 t r w).1 = view ctl w.
Proof.
  intros Hne. unfold finishStrategy.
  destruct (data_ r); [destruct (data_ t) |]; cbn [fst];
    rewrite ?view_catchBlock_ne, ?view_emitProgress, ?view_withActive,
      ?view_clearTimeout_ne by exact Hne; reflexivity.
Qed.

Lemma finishStrategy_result env plan ctl ctl' t r w w' :
  (finishStrategy env plan ctl t r w).2 = (finishStrategy env plan ctl' t r w').2.
Proof.
  unfold finishStrategy. by destruct (data_ r); [destruct (data_ t) |].
Qed.

Ltac view_catch :=
  unfold catchBlock; cbn [fst snd shape];
  rewrite ?view_emitProgress, ?view_withActive, ?view_clearTimeout.

Ltac view_catch_ne H :=
  unfold catchBlock; cbn [fst snd shape];
  rewrite ?view_emitProgress, ?view_withActive, ?view_clearTimeout_ne by exact H.

(** A step of a strategy depends on the world through its view only, and
    leaves the view of any other controller as it is. *)
Lemma enterPhase_view env plan ctl ctl' at_ w w' :
  view ctl w = view ctl' w' ->
  shape (enterPhase env plan ctl at_ w).2 = shape (enterPhase env plan ctl' at_ w').2
  /\ view ctl (enterPhase env plan ctl at_ w).1
     = view ctl' (enterPhase env plan ctl' at_ w').1.
Proof.
  intros Hv. unfold enterPhase, executePhaseEnter.
  rewrite !aborted_view, Hv.
  destruct (default false (view ctl' w').1).
  - view_catch. rewrite Hv. by split.
  - pose proof (executorOf_outcome env plan at_
                  (emitProgress (runningEvent (phaseOf at_) plan) w)
                  (emitProgress (runningEvent (phaseOf at_) plan) w')) as Ho.
    pose proof (view_executorOf ctl env plan at_
                  (emitProgress (runningEvent (phaseOf at_) plan) w)) as H1.
    pose proof (view_executorOf ctl' env plan at_
                  (emitProgress (runningEvent (phaseOf at_) plan) w')) as H2.
    destruct (executorOf env plan at_ (emitProgress _ w)) as [w1 o1].
    destruct (executorOf env plan at_ (emitProgress _ w')) as [w1' o1'].
    cbn [fst snd] in *. subst o1'.
    split; [reflexivity |]. by rewrite H1, H2, !view_emitProgress.
Qed.

Lemma enterPhase_view_ne env plan ctl ctl2 at_ w :
  ctl2 <> ctl -> view ctl (enterPhase env plan ctl2 at_ w).1 = view ctl w.
Proof.
  intros Hne. unfold enterPhase, executePhaseEnter.
  destruct (aborted ctl2 w).
  - by view_catch_ne Hne.
  - pose proof (view_executorOf ctl env plan at_
                  (emitProgress (runningEvent (phaseOf at_) plan) w)) as H1.
    destruct (executorOf env plan at_ _) as [w1 o1]. exact H1.
Qed.

Lemma resumeStrategy_view env plan ctl ctl' at_ o w w' :
  view ctl w = view ctl' w' ->
  shape (resumeStrategy env plan ctl at_ o w).2
  = shape (resumeStrategy env plan ctl' at_ o w').2
  /\ view ctl (resumeStrategy env plan ctl at_ o w).1
     = view ctl' (resumeStrategy env plan ctl' at_ o w').1.
Proof.
  intros Hv. unfold resumeStrategy.
  set (w0 := if timerFires env plan (phaseOf at_) then fireTimer ctl w else w).
  set (w0' := if timerFires env plan (phaseOf at_) then fireTimer ctl' w' else w').
  assert (Hv0 : view ctl w0 = view ctl' w0').
  { subst w0 w0'. destruct (timerFires _ _ _); [| exact Hv].
    by rewrite !view_fireTimer, Hv. }
  clearbody w0 w0'. clear Hv w w'.
  destruct o as [result | e]; cbn [executePhaseLeave].
  2: { view_catch. rewrite Hv0. by split. }
  assert (Hv1 : view ctl (emitProgress (completedEvent (phaseOf at_) plan) w0)
                = view ctl' (emitProgress (completedEvent (phaseOf at_) plan) w0'))
    by (by rewrite !view_emitProgress).
  destruct at_ as [| d | d m | d m t]; cbn [phaseOf] in *.
  - destruct (success result); cbn [negb].
    + by apply enterPhase_view.
    + view_catch. rewrite Hv1. by split.
  - destruct (success result); cbn [negb].
    + by apply enterPhase_view.
    + view_catch. rewrite Hv1. by split.
  - destruct (success result); cbn [negb].
    + by apply enterPhase_view.
    + view_catch. rewrite Hv1. by split.
  - pose proof (finishStrategy_result env plan ctl ctl' t result
                  (emitProgress (completedEvent evaluation plan) w0)
                  (emitProgress (completedEvent evaluation plan) w0')) as Hr.
    pose proof (view_finishStrategy env plan ctl t result
                  (emitProgress (completedEvent evaluation plan) w0)) as H1.
    pose proof (view_finishStrategy env plan ctl' t result
                  (emitProgress (completedEvent evaluation plan) w0')) as H2.
    destruct (finishStrategy env plan ctl _ _ _) as [w2 r].
    destruct (finishStrategy env plan ctl' _ _ _) as [w2' r'].
    cbn [fst snd] in *. subst r'. split; [reflexivity |].
    by rewrite H1, H2, Hv1.
Qed.

Lemma resumeStrategy_view_ne env plan ctl ctl2 at_ o w :
  ctl2 <> ctl -> view ctl (resumeStrategy env plan ctl2 at_ o w).1 = view ctl w.
Proof.
  intros Hne. unfold resumeStrategy.
  set (w0 := if timerFires env plan (phaseOf at_) then fireTimer ctl2 w else w).
  assert (Hv0 : view ctl w0 = view ctl w).
  { subst w0. destruct (timerFires _ _ _); [| reflexivity].
    by apply view_fireTimer_ne. }
  clearbody w0. rewrite <- Hv0. clear Hv0 w.
  destruct o as [result | e]; cbn [executePhaseLeave].
  2: { by view_catch_ne Hne. }
  destruct at_ as [| d | d m | d m t]; cbn [phaseOf];
    try (destruct (success result); cbn [negb];
         [ by rewrite enterPhase_view_ne
         | by view_catch_ne Hne ]).
  pose proof (view_finishStrategy_ne env plan ctl ctl2 t result
                (emitProgress (completedEvent evaluation plan) w0) Hne) as H1.
  destruct (finishStrategy env plan ctl2 _ _ _) as [w2 r]. exact H1.
Qed.

Lemma resumeStrategy_controllers env plan ctl at_ o w :
  length (controllers (resumeStrategy env plan ctl at_ o w).1)
  = length (controllers w).
Proof.
  unfold resumeStrategy.
  set (w0 := if timerFires env plan (phaseOf at_) then fireTimer ctl w else w).
  assert (H0 : length (controllers w0) = length (controllers w)).
  { subst w0. destruct (timerFires _ _ _); [| reflexivity].
    unfold fireTimer. destruct (timers w !! ctl); [| reflexivity].
    simpl. apply length_insert. }
  clearbody w0. rewrite <- H0. clear H0 w.
  assert (He : forall at' w1, length (controllers (enterPhase env plan ctl at' w1).1)
                              = length (controllers w1)).
  { intros at' w1. unfold enterPhase, executePhaseEnter.
    destruct (aborted ctl w1); [reflexivity |].
    destruct at' as [| d | d m | d m t]; try reflexivity.
    simpl. by destruct (data_ t), (data_ d). }
  destruct o as [result | e]; cbn [executePhaseLeave]; [| reflexivity].
  destruct at_ as [| d | d m | d m t]; cbn [phaseOf];
    try (destruct (success result); cbn [negb]; [by rewrite He | reflexivity]).
  unfold finishStrategy. by destruct (data_ result); [destruct (data_ t) |].
Qed.

Lemma enterPhase_controllers env plan ctl at_ w :
  length (controllers (enterPhase env plan ctl at_ w).1) = length (controllers w).
Proof.
  unfold enterPhase, executePhaseEnter.
  destruct (aborted ctl w); [reflexivity |].
  destruct at_ as [| d | d m | d m t]; try reflexivity.
  simpl. by destruct (data_ t), (data_ d).
Qed.

Lemma startStrategy_view env plan timeout timeout' w w' :
  shape (startStrategy env plan timeout w).2
  = shape (startStrategy env plan timeout' w').2
  /\ view (length (controllers w)) (startStrategy env plan timeout w).1
     = view (length (controllers w')) (startStrategy env plan timeout' w').1.
Proof.
  unfold startStrategy, newAbortController. apply enterPhase_view.
  unfold view. simpl.
  rewrite !lookup_app_r, !Nat.sub_diag by lia. simpl.
  rewrite !lookup_insert_eq. by rewrite !bool_decide_true by eauto.
Qed.

Lemma startStrategy_view_ne env plan timeout ctl w :
  ctl < length (controllers w) ->
  view ctl (startStrategy env plan timeout w).1 = view ctl w.
Proof.
  intros Hlt. unfold startStrategy, newAbortController.
  rewrite enterPhase_view_ne by lia. unfold view. simpl.
  rewrite lookup_app_l by exact Hlt. rewrite lookup_insert_ne by lia. reflexivity.
Qed.

Lemma startStrategy_controllers env plan timeout w :
  length (controllers (startStrategy env plan timeout w).1)
  = S (length (controllers w)).
Proof.
  unfold startStrategy, newAbortController. rewrite enterPhase_controllers.
  simpl. rewrite length_app. simpl. lia.
Qed.

Lemma resumeStrategy_keeps_controller env plan ctl at_ o w :
  match (resumeStrategy env plan ctl at_ o w).2 with
  | Pending ctl' _ _ => ctl' = ctl
  | _ => True
  end.
Proof.
  destruct (resumeStrategy_adds env plan ctl at_ o w)
    as (es & cs & _ & _ & _ & Hset & _).
  destruct (resumeStrategy env plan ctl at_ o w).2; [| exact I | exact I].
  by destruct Hset.
Qed.

(** *** Steps counted from the other end *)

Lemma stepsStrategy_add n m env plan p w :
  stepsStrategy (n + m) env plan p w
  = stepsStrategy m env plan (stepsStrategy n env plan p w).2
      (stepsStrategy n env plan p w).1.
Proof.
  revert p w. induction n as [| n IH]; intros p w; simpl; [reflexivity |].
  destruct (stepStrategy env plan p w) as [w' p']. apply IH.
Qed.

Lemma stepsStrategy_settled m env plan p w :
  controllerOf p = None -> stepsStrategy m env plan p w = (w, p).
Proof.
  intros Hp. induction m as [| m IH]; simpl; [reflexivity |].
  destruct p; [discriminate | exact IH | exact IH].
Qed.

Lemma isolated_S env plan k :
  isolated env plan (S k)
  = stepStrategy env plan (isolated env plan k).2 (isolated env plan k).1.
Proof.
  unfold isolated. replace (S k) with (k + 1) by lia.
  rewrite stepsStrategy_add. simpl.
  by destruct (stepStrategy env plan _ _).
Qed.

Lemma isolated_4 env plan :
  (isolated env plan 4).2 = Fulfilled (outcomeOf env plan).
Proof.
  unfold outcomeOf, isolated.
  destruct (executeSingleStrategy_run env plan 0 emptyWorld)
    as (w' & r & es & cs & Hrun & _).
  unfold executeSingleStrategy in *.
  destruct (startStrategy env plan 0 emptyWorld) as [w1 p1]. cbn [fst snd].
  by rewrite Hrun.
Qed.

(** A strategy that has ended, where the strategy run on its own is
    after some resumptions, has ended with the result of that run. *)
Lemma isolated_settled env plan k r :
  (isolated env plan k).2 = Fulfilled r -> r = outcomeOf env plan.
Proof.
  intros Hk. pose proof (isolated_4 env plan) as H4.
  destruct (decide (k <= 4)) as [Hle | Hgt].
  - unfold isolated in *. replace 4 with (k + (4 - k)) in H4 by lia.
    rewrite stepsStrategy_add, stepsStrategy_settled in H4 by (by rewrite Hk).
    cbn [snd] in H4. congruence.
  - unfold isolated in *. replace k with (4 + (k - 4)) in Hk by lia.
    rewrite stepsStrategy_add, stepsStrategy_settled in Hk by (by rewrite H4).
    cbn [snd] in Hk. congruence.
Qed.

(** *** Tracking the run on its own *)

Lemma tracks_start env plan timeout w :
  tracks env plan (startStrategy env plan timeout w).2
    (startStrategy env plan timeout w).1.
Proof.
  exists 0. unfold isolated. cbn [stepsStrategy fst snd].
  destruct (startStrategy_view env plan timeout 0 w emptyWorld) as [Hs Hv].
  split; [exact Hs |].
  destruct (startStrategy_pending env plan timeout w) as (o & -> & _).
  destruct (startStrategy_pending env plan 0 emptyWorld) as (o' & -> & _).
  exact Hv.
Qed.

Lemma tracks_step env plan p w :
  tracks env plan p w ->
  tracks env plan (stepStrategy env plan p w).2 (stepStrategy env plan p w).1.
Proof.
  intros (k & Hs & Hv). destruct p as [ctl at_ o | r | e].
  - destruct (isolated env plan k) as [wi pi] eqn:Hi. cbn [fst snd] in *.
    destruct pi as [ctl' at' o' | r' | e']; try discriminate.
    injection Hs as <- <-. exists (S k). rewrite isolated_S, Hi.
    cbn [stepStrategy fst snd].
    destruct (resumeStrategy_view env plan ctl ctl' at_ o w wi Hv) as [Hs' Hv'].
    split; [exact Hs' |].
    pose proof (resumeStrategy_keeps_controller env plan ctl at_ o w) as Hc.
    pose proof (resumeStrategy_keeps_controller env plan ctl' at_ o wi) as Hc'.
    destruct (resumeStrategy env plan ctl at_ o w) as [w1 p1].
    destruct (resumeStrategy env plan ctl' at_ o wi) as [w1' p1'].
    cbn [fst snd] in *.
    destruct p1 as [c1 ? ? | |]; [| exact I | exact I].
    destruct p1' as [c1' ? ? | |]; [| exact I | exact I].
    by subst c1 c1'.
  - exists k. by split.
  - exists k. by split.
Qed.

Lemma tracks_frame env plan p w w' :
  (forall ctl, controllerOf p = Some ctl -> view ctl w' = view ctl w) ->
  tracks env plan p w -> tracks env plan p w'.
Proof.
  intros Hframe (k & Hs & Hv). exists k. split; [exact Hs |].
  destruct p as [ctl at_ o | r | e]; [| exact I | exact I].
  destruct (isolated env plan k).2; [| exact I | exact I].
  rewrite Hframe by reflexivity. exact Hv.
Qed.

Lemma tracks_settled env plan r w :
  tracks env plan (Fulfilled r) w -> r = outcomeOf env plan.
Proof.
  intros (k & Hs & _). simpl in Hs.
  destruct (isolated env plan k).2 as [? ? ? | r' |] eqn:Hk; try discriminate.
  injection Hs as ->. by apply (isolated_settled env plan k).
Qed.

(** *** A batch under any schedule *)

Lemma stepAt_tracks env i ps w :
  batchTracks env ps w ->
  batchTracks env (stepAt env i ps w).2 (stepAt env i ps w).1.
Proof.
  intros (Htr & Hdis & Hrng). unfold stepAt.
  destruct (ps !! i) as [[plan p] |] eqn:Hi; [| by repeat split].
  destruct p as [ctl at_ o | r | e].
  2,3: cbn [stepStrategy fst snd]; rewrite list_insert_id by exact Hi;
       by repeat split.
  cbn [stepStrategy].
  pose proof (tracks_step env plan (Pending ctl at_ o) w
                (Forall_lookup_1 _ _ _ _ Htr Hi)) as Hown.
  pose proof (resumeStrategy_keeps_controller env plan ctl at_ o w) as Hkeep.
  pose proof (resumeStrategy_controllers env plan ctl at_ o w) as Hlen.
  pose proof (fun c => resumeStrategy_view_ne env plan c ctl at_ o w) as Hfr.
  cbn [stepStrategy] in Hown.
  destruct (resumeStrategy env plan ctl at_ o w) as [w' p']. cbn [fst snd] in *.
  assert (Hctl : forall c, controllerOf p' = Some c -> c = ctl).
  { intros c Hc. destruct p'; [| discriminate | discriminate].
    injection Hc as <-. exact Hkeep. }
  split; [| split].
  - apply Forall_lookup_2. intros j [planj pj] Hj. cbn [fst snd].
    destruct (decide (j = i)) as [-> | Hne].
    + rewrite list_lookup_insert_eq in Hj by (by eapply lookup_lt_Some).
      by injection Hj as <- <-.
    + rewrite list_lookup_insert_ne in Hj by done.
      eapply tracks_frame; [| exact (Forall_lookup_1 _ _ _ _ Htr Hj)].
      cbn [snd]. intros c Hc. apply Hfr. intros Heq. subst c.
      by apply (Hdis i j (plan, Pending ctl at_ o) (planj, pj) ctl).
  - intros j1 j2 q1 q2 c Hne H1 H2 Hc1 Hc2.
    destruct (decide (j1 = i)) as [-> | Hn1].
    + rewrite list_lookup_insert_eq in H1 by (by eapply lookup_lt_Some).
      injection H1 as <-. cbn [snd] in Hc1. apply Hctl in Hc1. subst c.
      rewrite list_lookup_insert_ne in H2 by done.
      by apply (Hdis i j2 (plan, Pending ctl at_ o) q2 ctl).
    + rewrite list_lookup_insert_ne in H1 by done.
      destruct (decide (j2 = i)) as [-> | Hn2].
      * rewrite list_lookup_insert_eq in H2 by (by eapply lookup_lt_Some).
        injection H2 as <-. cbn [snd] in Hc2. apply Hctl in Hc2. subst c.
        by apply (Hdis j1 i q1 (plan, Pending ctl at_ o) ctl).
      * rewrite list_lookup_insert_ne in H2 by done.
        by apply (Hdis j1 j2 q1 q2 c).
  - intros j q c Hj Hc. rewrite Hlen.
    destruct (decide (j = i)) as [-> | Hne].
    + rewrite list_lookup_insert_eq in Hj by (by eapply lookup_lt_Some).
      injection Hj as <-. cbn [snd] in Hc. apply Hctl in Hc. subst c.
      by apply (Hrng i (plan, Pending ctl at_ o) ctl).
    + rewrite list_lookup_insert_ne in Hj by done. by apply (Hrng j q c).
Qed.

Lemma runSchedule_tracks env schedule ps w :
  batchTracks env ps w ->
  batchTracks env (runSchedule env schedule ps w).2 (runSchedule env schedule ps w).1.
Proof.
  revert ps w. induction schedule as [| i schedule IH]; intros ps w Hb; simpl;
    [exact Hb |].
  pose proof (stepAt_tracks env i ps w Hb) as Hb'.
  destruct (stepAt env i ps w) as [w' ps']. by apply IH.
Qed.

Lemma stepAt_shift env i x rest w :
  stepAt env (S i) (x :: rest) w
  = ((stepAt env i rest w).1, x :: (stepAt env i rest w).2).
Proof.
  unfold stepAt. simpl. destruct (rest !! i) as [[plan p] |]; [| reflexivity].
  by destruct (stepStrategy env plan p w).
Qed.

Lemma runSchedule_shift env schedule x rest w :
  runSchedule env (map S schedule) (x :: rest) w
  = ((runSchedule env schedule rest w).1, x :: (runSchedule env schedule rest w).2).
Proof.
  revert rest w. induction schedule as [| i schedule IH]; intros rest w; simpl;
    [reflexivity |].
  rewrite stepAt_shift. destruct (stepAt env i rest w) as [w' rest'].
  cbn [fst snd]. apply IH.
Qed.

(** One round is a schedule: every strategy once, in batch order. *)
Lemma stepAll_schedule env ps w :
  stepAll env ps w = runSchedule env (seq 0 (length ps)) ps w.
Proof.
  revert w. induction ps as [| [plan p] rest IH]; intros w; [reflexivity |].
  cbn [stepAll length seq runSchedule]. unfold stepAt at 1. cbn [lookup list_lookup].
  destruct (stepStrategy env plan p w) as [w1 p']. cbn [insert list_insert].
  rewrite <- seq_shift, runSchedule_shift, <- IH.
  by destruct (stepAll env rest w1).
Qed.

Lemma rounds_tracks n env ps w :
  batchTracks env ps w ->
  batchTracks env (rounds n env ps w).2 (rounds n env ps w).1.
Proof.
  revert ps w. induction n as [| n IH]; intros ps w Hb; simpl; [exact Hb |].
  pose proof (runSchedule_tracks env (seq 0 (length ps)) ps w Hb) as Hb'.
  rewrite <- stepAll_schedule in Hb'.
  destruct (stepAll env ps w) as [w' ps']. by apply IH.
Qed.

Lemma startBatch_view_ne env timeout batch ctl w :
  ctl < length (controllers w) ->
  view ctl (startBatch env timeout batch w).1 = view ctl w
  /\ length (controllers w) <= length (controllers (startBatch env timeout batch w).1).
Proof.
  revert w. induction batch as [| plan rest IH]; intros w Hlt; simpl; [by split |].
  pose proof (startStrategy_view_ne env plan timeout ctl w Hlt) as Hv.
  pose proof (startStrategy_controllers env plan timeout w) as Hl.
  destruct (startStrategy env plan timeout w) as [w1 p]. cbn [fst snd] in *.
  destruct (IH w1) as [Hv' Hl']; [lia |].
  destruct (startBatch env timeout rest w1) as [w2 ps]. cbn [fst snd] in *.
  split; [by rewrite Hv', Hv | lia].
Qed.

Lemma startBatch_tracks env timeout batch w :
  batchTracks env (startBatch env timeout batch w).2 (startBatch env timeout batch w).1
  /\ (forall i pi ctl,
        (startBatch env timeout batch w).2 !! i = Some pi ->
        controllerOf pi.2 = Some ctl -> length (controllers w) <= ctl)
  /\ length (controllers w) <= length (controllers (startBatch env timeout batch w).1).
Proof.
  revert w. induction batch as [| plan rest IH]; intros w; simpl.
  { split; [| split; [| lia]].
    - split; [constructor |]. split; intros; by simplify_eq.
    - intros; by simplify_eq. }
  pose proof (tracks_start env plan timeout w) as Ht.
  pose proof (startStrategy_controllers env plan timeout w) as Hl.
  destruct (startStrategy_pending env plan timeout w) as (o & Hp & _).
  destruct (startStrategy env plan timeout w) as [w1 p]. cbn [fst snd] in *.
  subst p.
  destruct (IH w1) as ((Htr & Hdis & Hrng) & Hlow & Hlen).
  destruct (startBatch_view_ne env timeout rest (length (controllers w)) w1)
    as [Hv _]; [lia |].
  destruct (startBatch env timeout rest w1) as [w2 ps]. cbn [fst snd] in *.
  split; [split; [| split] | split; [| lia]].
  - constructor; [| exact Htr]. cbn [fst snd].
    eapply tracks_frame; [| exact Ht]. intros c Hc. injection Hc as <-. exact Hv.
  - intros [| i] [| j] pi pj c Hne Hi Hj Hci Hcj; try done; simpl in *.
    + injection Hi as <-. simpl in Hci. injection Hci as <-.
      specialize (Hlow j pj _ Hj Hcj). lia.
    + injection Hj as <-. simpl in Hcj. injection Hcj as <-.
      specialize (Hlow i pi _ Hi Hci). lia.
    + apply (Hdis i j pi pj c); try done. congruence.
  - intros [| i] pi c Hi Hc; simpl in *.
    + injection Hi as <-. simpl in Hc. injection Hc as <-. lia.
    + by apply (Hrng i pi c).
  - intros [| i] pi c Hi Hc; simpl in *.
    + injection Hi as <-. simpl in Hc. injection Hc as <-. lia.
    + specialize (Hlow i pi c Hi Hc). lia.
Qed.

Lemma allSettled_tracks env batch ps w :
  batchRuns batch 0 ps ->
  Forall (fun pp => tracks env pp.1 pp.2 w) ps ->
  allSettled ps = Some (map (outcomeSlot env) batch).
Proof.
  revert batch. induction ps as [| [plan p] rest IH]; intros batch [Hm Hf] Ht.
  - simpl in Hm. by subst batch.
  - apply Forall_cons in Hf as [[Hw Hr] Hf]. apply Forall_cons in Ht as [Ht1 Ht].
    simpl in *. subst batch. simpl.
    rewrite (IH (map fst rest)) by (by try split).
    destruct p as [ctl [| | |] o | r | e]; simpl in *; try lia; try contradiction.
    by rewrite (tracks_settled env plan r w Ht1).
Qed.

(** Whatever the schedule, a batch settles with every strategy fulfilled
    by the result it has when run on its own. *)
Lemma awaitBatch_outcomes env timeout schedule batch w :
  (awaitAllSettled env schedule (startBatch env timeout batch w).2
     (startBatch env timeout batch w).1).2
  = Some (map (outcomeSlot env) batch).
Proof.
  destruct (startBatch_runs env timeout batch w) as [_ Hb0].
  destruct (startBatch_tracks env timeout batch w) as [Ht0 _].
  destruct (startBatch env timeout batch w) as [w1 ps]. cbn [fst snd] in *.
  unfold awaitAllSettled.
  destruct (runSchedule_runs env schedule batch 4 ps w1 Hb0) as [_ Hb1].
  pose proof (runSchedule_tracks env schedule ps w1 Ht0) as Ht1.
  destruct (runSchedule env schedule ps w1) as [w2 ps2]. cbn [fst snd] in *.
  destruct (rounds_runs 4 env batch 4 ps2 w2 Hb1) as [_ Hb2].
  pose proof (rounds_tracks 4 env ps2 w2 Ht1) as Ht2.
  destruct (rounds 4 env ps2 w2) as [w3 ps3]. cbn [fst snd] in *.
  destruct Ht2 as [Ht2 _]. by eapply allSettled_tracks.
Qed.

(** *** The results, whatever the schedule *)

Lemma uptoFirstHit_app l1 l2 :
  uptoFirstHit (l1 ++ l2)
  = if existsb reachesTarget l1 then uptoFirstHit l1 else l1 ++ uptoFirstHit l2.
Proof.
  induction l1 as [| r l1 IH]; simpl; [reflexivity |].
  destruct (reachesTarget r); simpl; [reflexivity |].
  rewrite IH. by destruct (existsb reachesTarget l1).
Qed.

Lemma collectBatch_outcomes es env batch results :
  collectBatch es (map (outcomeSlot env) batch) results
  = (results ++ (if es then uptoFirstHit (map (outcomeOf env) batch)
                 else map (outcomeOf env) batch),
     es && existsb reachesTarget (map (outcomeOf env) batch)).
Proof.
  revert results. induction batch as [| plan rest IH]; intros results; simpl.
  - rewrite andb_false_r. by destruct es; rewrite app_nil_r.
  - destruct es; simpl.
    + destruct (reachesTarget (outcomeOf env plan)); simpl; [reflexivity |].
      rewrite IH. simpl. by rewrite <- app_assoc.
    + rewrite IH. simpl. by rewrite <- app_assoc.
Qed.

Lemma uptoFirstHit_none l :
  existsb reachesTarget l = false -> uptoFirstHit l = l.
Proof.
  induction l as [| r l IH]; simpl; [reflexivity |].
  destruct (reachesTarget r); simpl; [discriminate |].
  intros H. by rewrite IH.
Qed.

(** The loop over the batches returns the results that the strategies
    have on their own, in the order of the plans; with early stop on, up
    to the first that reaches the target. *)
Lemma runBatches_results env timeout_ es schedules batches results w :
  exists w',
    runBatches env timeout_ es schedules batches results w
    = Some (w', results ++ (if es
                            then uptoFirstHit (map (outcomeOf env) (concat batches))
                            else map (outcomeOf env) (concat batches))).
Proof.
  revert schedules results w.
  induction batches as [| batch batches IH]; intros schedules results w.
  { exists w. simpl. by destruct es; rewrite app_nil_r. }
  simpl.
  pose proof (awaitBatch_outcomes env timeout_ (hd [] schedules) batch w) as Hs.
  destruct (startBatch env timeout_ batch w) as [w1 ps]. cbn [fst snd] in Hs.
  destruct (awaitAllSettled env (hd [] schedules) ps w1) as [w2 o].
  cbn [snd] in Hs. subst o. rewrite collectBatch_outcomes.
  rewrite map_app. destruct es; simpl.
  - rewrite uptoFirstHit_app.
    destruct (existsb reachesTarget (map (outcomeOf env) batch)) eqn:Hhit;
      [eauto |].
    rewrite (uptoFirstHit_none _ Hhit).
    destruct (IH (tl schedules) (results ++ map (outcomeOf env) batch) w2)
      as (w' & Hrun).
    exists w'. rewrite Hrun. by rewrite <- app_assoc.
  - destruct (IH (tl schedules) (results ++ map (outcomeOf env) batch) w2)
      as (w' & Hrun).
    exists w'. rewrite Hrun. by rewrite <- app_assoc.
Qed.

(** [executeStrategies] returns the results that the strategies have when
    each is run on its own, in the order of the plans, whatever the order
    in which the strategies of a batch are resumed; with early stop on, it
    returns them up to the first that reaches the target. *)
Lemma executeStrategies_results env schedules plans options w :
  1 <= default 3 (maxConcurrent options) ->
  exists w',
    executeStrategies env schedules plans options w
    = Some (w', if default false (earlyStopOnSuccess options)
                then uptoFirstHit (map (outcomeOf env) plans)
                else map (outcomeOf env) plans).
Proof.
  intros Hbs. unfold executeStrategies.
  destruct (createBatches_spec plans _ Hbs) as (batches & -> & Hcat & _).
  destruct (runBatches_results env (default 3600000%Z (timeout options))
              (default false (earlyStopOnSuccess options)) schedules batches [] w)
    as (w' & Hrun).
  exists w'. rewrite Hrun, Hcat. reflexivity.
Qed.

(** ** [executeStrategies] as a whole *)

(** C1: with a batch size of at least one and early stop off,
    [executeStrategies] returns, with exactly one result per plan, and the
    result at each position carries the id of the plan at that position:
    it is the result that the plan's strategy has when run on its own,
    whatever the order in which the strategies of a batch were resumed. *)
Theorem one_result_per_plan env schedules plans options w :
  1 <= default 3 (maxConcurrent options) ->
  default false (earlyStopOnSuccess options) = false ->
  exists w' results,
    executeStrategies env schedules plans options w = Some (w', results)
    /\ length results = length plans
    /\ map r_strategyId results = map strategyId plans
    /\ (forall i plan, plans !! i = Some plan ->
          exists r, results !! i = Some r /\ r_strategyId r = strategyId plan)
    /\ results = map (outcomeOf env) plans.
Proof.
  intros Hbs Hes.
  destruct (executeStrategies_results env schedules plans options w Hbs)
    as (w0 & Hres).
  rewrite Hes in Hres. revert Hres.
  unfold executeStrategies. rewrite Hes.
  destruct (createBatches_spec plans _ Hbs) as (batches & -> & Hcat & _).
  destruct (runBatches_spec env (default 3600000%Z (timeout options)) false
              schedules batches [] w)
    as (w' & rs & processed & rest & Hrun & Hb & _ & Hids & Hcase).
  destruct Hcase as [(-> & Hlen & _) | (Hf & _)]; [| discriminate].
  rewrite app_nil_r in Hb. subst processed. rewrite Hcat in *.
  assert (Hmap : map r_strategyId rs = map strategyId plans).
  { rewrite Hids, Hlen. apply take_ge. by rewrite length_map. }
  intros Hres. exists w', rs. split; [exact Hrun |]. split; [exact Hlen |].
  split; [exact Hmap |]. split; [| rewrite Hrun in Hres; simpl in Hres; congruence].
  intros i plan Hi.
  assert (Hi' : map strategyId plans !! i = Some (strategyId plan)).
  { change (map strategyId plans) with (strategyId <$> plans).
    by rewrite list_lookup_fmap, Hi. }
  rewrite <- Hmap in Hi'.
  change (map r_strategyId rs) with (r_strategyId <$> rs) in Hi'.
  rewrite list_lookup_fmap in Hi'.
  destruct (rs !! i) as [r |]; [| discriminate].
  exists r. split; [reflexivity |]. simpl in Hi'. congruence.
Qed.

Lemma one_result_per_plan_witness :
  exists w' results,
    executeStrategies envDataFails [[2; 0; 1]; [0]]
      [plan1; plan2; plan3; plan4] noOptions emptyWorld = Some (w', results)
    /\ length results = 4
    /\ map r_strategyId results = ["s1"; "s2"; "s3"; "s4"]
    /\ (forall i plan, [plan1; plan2; plan3; plan4] !! i = Some plan ->
          exists r, results !! i = Some r /\ r_strategyId r = strategyId plan)
    /\ results = map (outcomeOf envDataFails) [plan1; plan2; plan3; plan4].
Proof.
  apply (one_result_per_plan envDataFails [[2; 0; 1]; [0]]
           [plan1; plan2; plan3; plan4] noOptions emptyWorld).
  - simpl. lia.
  - reflexivity.
Defined.

(** Three strategies in one batch, the training agent rejecting for the
    second: the second result is the failure literal with the agent's
    message, the first and the third are the successes they are without
    it. *)
Example training_rejection_example :
  exists w' w'' first second third,
    executeStrategies envTrainingRejects [[1; 0; 2; 2; 1]] [plan1; plan2; plan3]
      noOptions emptyWorld
    = Some (w', [first; second; third])
    /\ second = failureResult plan2 "out of memory"
    /\ executeStrategies envAllSucceed [] [plan1; plan2; plan3]
         noOptions emptyWorld
       = Some (w'', [first; {| r_strategyId := "s2";
                               r_success := true;
                               finalMetrics := finalMetrics first;
                               r_model := r_model first;
                               r_error := None |}; third])
    /\ r_success first = true /\ r_success third = true.
Proof.
  eexists _, _, _, _, _. split; [vm_compute; reflexivity |].
  split; [reflexivity |]. split; [vm_compute; reflexivity |]. split; reflexivity.
Qed.

(** C10: for an empty list of plans [executeStrategies] returns the empty
    array and leaves the world as it was: no agent was called and no
    event was published.  [createBatches] of the empty list is the empty
    list of batches. *)
Theorem no_plans_no_effect env schedules options w batchSize :
  executeStrategies env schedules [] options w = Some (w, [])
  /\ createBatches (@nil OptimizationPlan) batchSize = Some [].
Proof. split; reflexivity. Qed.



(** Four plans, two at a time, every agent succeeding with accuracy 0.96:
    the first result stops the run; the agents were called for the first
    two plans only, four times each. *)
Example early_stop_example :
  exists w' r,
    executeStrategies envAllSucceed [] fourPlans twoAtATimeStopEarly emptyWorld
    = Some (w', [r])
    /\ r_strategyId r = "s1" /\ reachesTarget r = true
    /\ map (fun c => id c.2) (invocations w')
       = ["data-s1"; "data-s2"; "model-s1"; "model-s2";
          "train-s1"; "train-s2"; "eval-s1"; "eval-s2"].
Proof.
  eexists _, _. split; [vm_compute; reflexivity |]. repeat split.
Qed.

(** ** The comparator *)

Lemma greater_spec x y : greater x y = true <-> (y < x)%Q.
Proof.
  unfold greater. destruct (Qle_bool x y) eqn:H; simpl.
  - apply Qle_bool_iff in H. split; [discriminate | intros; lra].
  - split; [intros _ | reflexivity].
    apply Qnot_le_lt. intros Hle. apply Qle_bool_iff in Hle. congruence.
Qed.

Lemma negative_spec x : negative x = true <-> (x < 0)%Q.
Proof. apply (greater_spec 0 x). Qed.

Lemma Qabs_swap x y : Qabs (x - y) = Qabs (y - x).
Proof. apply Qabs_Qminus. Qed.

(** The comparison function is antisymmetric. *)
Lemma rankCompare_antisym a b : (rankCompare b a == - rankCompare a b)%Q.
Proof.
  unfold rankCompare.
  destruct (greater (Qabs (m_accuracy (finalMetrics a) - m_accuracy (finalMetrics b)))
              (1 # 100)) eqn:Hab;
  destruct (greater (Qabs (m_accuracy (finalMetrics b) - m_accuracy (finalMetrics a)))
              (1 # 100)) eqn:Hba; try ring.
  - apply greater_spec in Hab. rewrite Qabs_swap in Hab.
    apply greater_spec in Hab. congruence.
  - apply greater_spec in Hba. rewrite Qabs_swap in Hba.
    apply greater_spec in Hba. congruence.
Qed.


Section Sort.

Context {T : Type}.
Variable compareFn : T -> T -> Q.
Hypothesis compareFn_antisym : forall a b, (compareFn b a == - compareFn a b)%Q.

(** [a] is not put after [b] by the comparison function. *)
Let ordered (a b : T) : Prop := (compareFn a b <= 0)%Q.

Lemma sortInsert_Permutation x placed :
  sortInsert compareFn x placed ≡ₚ x :: placed.
Proof.
  induction placed as [| y rest IH]; simpl; [reflexivity |].
  destruct (negative (compareFn x y)); [| reflexivity].
  rewrite IH. apply Permutation_swap.
Qed.

Lemma sortInsert_HdRel a x placed :
  flip ordered a x -> HdRel (flip ordered) a placed ->
  HdRel (flip ordered) a (sortInsert compareFn x placed).
Proof.
  intros Hx Hhd. destruct placed as [| y rest]; simpl.
  - by constructor.
  - destruct (negative (compareFn x y)); constructor; [| exact Hx].
    by apply HdRel_inv in Hhd.
Qed.

Lemma sortInsert_Sorted x placed :
  Sorted (flip ordered) placed ->
  Sorted (flip ordered) (sortInsert compareFn x placed).
Proof.
  induction 1 as [| y rest Hs IH Hhd]; simpl.
  - repeat constructor.
  - destruct (negative (compareFn x y)) eqn:Hneg.
    + apply negative_spec in Hneg. constructor; [exact IH |].
      apply sortInsert_HdRel; [| exact Hhd]. unfold flip, ordered. lra.
    + constructor; [by constructor |]. constructor. unfold flip, ordered.
      assert (~ (compareFn x y < 0)%Q) as Hge.
      { intros Hlt. apply negative_spec in Hlt. congruence. }
      pose proof (compareFn_antisym x y). lra.
Qed.

Lemma fold_sortInsert l placed :
  fold_left (fun placed x => sortInsert compareFn x placed) l placed ≡ₚ l ++ placed
  /\ (Sorted (flip ordered) placed ->
      Sorted (flip ordered)
        (fold_left (fun placed x => sortInsert compareFn x placed) l placed)).
Proof.
  revert placed. induction l as [| x l IH]; intros placed; simpl; [by split |].
  destruct (IH (sortInsert compareFn x placed)) as [Hp Hs]. split.
  - rewrite Hp, sortInsert_Permutation. by rewrite Permutation_middle.
  - intros Hsorted. apply Hs. by apply sortInsert_Sorted.
Qed.

Lemma sort_Permutation l : sort compareFn l ≡ₚ l.
Proof.
  unfold sort. rewrite reverse_Permutation.
  destruct (fold_sortInsert l []) as [Hp _]. by rewrite Hp, app_nil_r.
Qed.

Lemma sort_Sorted l : Sorted ordered (sort compareFn l).
Proof.
  unfold sort. destruct (fold_sortInsert l []) as [_ Hs].
  apply (Sorted_reverse (flip ordered)). apply Hs. constructor.
Qed.

End Sort.





(** * More properties *)

(** ** A run depends on the environment through its own plan only *)

Lemma executorOf_sameAnswers plan env env' at_ w :
  sameAnswers plan env env' ->
  executorOf env plan at_ w = executorOf env' plan at_ w.
Proof.
  intros (Ha & _). unfold executorOf, callAgent.
  destruct at_ as [| d | d m | d m t]; rewrite ?Ha; reflexivity.
Qed.

Lemma enterPhase_sameAnswers plan env env' ctl at_ w :
  sameAnswers plan env env' ->
  enterPhase env plan ctl at_ w = enterPhase env' plan ctl at_ w.
Proof.
  intros H. unfold enterPhase, executePhaseEnter.
  by rewrite (executorOf_sameAnswers plan env env' at_ _ H).
Qed.

Lemma finishStrategy_sameAnswers plan env env' ctl t r w :
  sameAnswers plan env env' ->
  finishStrategy env plan ctl t r w = finishStrategy env' plan ctl t r w.
Proof.
  intros (_ & _ & Hr & Hs). unfold finishStrategy, calculateModelSize.
  destruct (data_ r) as [ev |]; [| reflexivity]. by rewrite Hr, Hs.
Qed.

Lemma resumeStrategy_sameAnswers plan env env' ctl at_ o w :
  sameAnswers plan env env' ->
  resumeStrategy env plan ctl at_ o w = resumeStrategy env' plan ctl at_ o w.
Proof.
  intros H. unfold resumeStrategy.
  destruct H as (Ha & Ht & Hr & Hs). rewrite Ht.
  assert (H : sameAnswers plan env env') by (by repeat split).
  destruct (executePhaseLeave _ plan o _) as [w1 [e | result]]; [reflexivity |].
  destruct at_ as [| d | d m | d m t];
    rewrite ?(enterPhase_sameAnswers plan env env' _ _ _ H),
      ?(finishStrategy_sameAnswers plan env env' _ _ _ _ H); reflexivity.
Qed.

Lemma stepsStrategy_sameAnswers plan env env' n p w :
  sameAnswers plan env env' ->
  stepsStrategy n env plan p w = stepsStrategy n env' plan p w.
Proof.
  intros H. revert p w. induction n as [| n IH]; intros p w; [reflexivity |].
  simpl. destruct p as [ctl at_ o | r | e]; simpl; try apply IH.
  rewrite (resumeStrategy_sameAnswers plan env env' _ _ _ _ H).
  destruct (resumeStrategy env' plan ctl at_ o w). apply IH.
Qed.

Lemma executeSingleStrategy_sameAnswers plan env env' timeout w :
  sameAnswers plan env env' ->
  executeSingleStrategy env plan timeout w
  = executeSingleStrategy env' plan timeout w.
Proof.
  intros H. unfold executeSingleStrategy, startStrategy.
  destruct (newAbortController w) as [ctl w1].
  rewrite (enterPhase_sameAnswers plan env env' _ _ _ H).
  destruct (enterPhase env' plan ctl AtData _) as [w' p].
  by apply stepsStrategy_sameAnswers.
Qed.

Lemma sameAnswers_envOf env plan :
  sameAnswers plan env
    (envOf (agentExecute env data plan) (agentExecute env model plan)
       (agentExecute env training plan) (agentExecute env evaluation plan)
       (timerFires env plan data) (timerFires env plan model)
       (timerFires env plan training) (timerFires env plan evaluation)
       (random env plan) (showNumber env)).
Proof. repeat split; by intros []. Qed.

(** ** The strategy runner against its straight-line reading *)

Ltac next_answer :=
  cbv beta iota zeta;
  lazymatch goal with
  | |- runsAs _ (match ?x with Resolves _ => _ | Throws _ => _ end) =>
      destruct x as [[[] ?] | ?]
  | |- runsAs _ (match ?x with Some _ => _ | None => _ end) => destruct x
  | |- runsAs _ (if ?x then _ else _) => destruct x
  end; cbn [negb success data_].

Lemma sequentialRun_emptyWorld env plan :
  runsAs (executeSingleStrategy env plan 0 emptyWorld) (sequentialRun env plan).
Proof.
  rewrite (executeSingleStrategy_sameAnswers plan env _ 0 emptyWorld
             (sameAnswers_envOf env plan)).
  unfold sequentialRun, doneEvent, calculateModelSize.
  generalize (agentExecute env data plan) (agentExecute env model plan)
    (agentExecute env training plan) (agentExecute env evaluation plan)
    (timerFires env plan data) (timerFires env plan model)
    (timerFires env plan training) (timerFires env plan evaluation)
    (random env plan) (showNumber env).
  intros od om ot oe fd fm ft fe rnd shw. destruct plan as [sid app arch].
  repeat next_answer; cbv beta iota zeta;
    first [ by vm_compute | by destruct fd; vm_compute
          | by destruct fm; vm_compute | by destruct ft; vm_compute
          | by destruct fe; vm_compute ].
Qed.

(** ** What a run adds does not depend on the world it starts in *)

Lemma sameAdded_refl w1 w2 : sameAdded w1 w1 w2 w2.
Proof. exists [], []. by rewrite !app_nil_r. Qed.

Lemma sameAdded_trans w1 w1' w1'' w2 w2' w2'' :
  sameAdded w1 w1' w2 w2' -> sameAdded w1' w1'' w2' w2'' ->
  sameAdded w1 w1'' w2 w2''.
Proof.
  intros (es & cs & H1 & H2 & H3 & H4) (es' & cs' & H1' & H2' & H3' & H4').
  exists (es ++ es'), (cs ++ cs').
  rewrite H1', H2', H3', H4', H1, H2, H3, H4. by rewrite !app_assoc.
Qed.

Lemma sameAdded_emitProgress e w1 w2 :
  sameAdded w1 (emitProgress e w1) w2 (emitProgress e w2).
Proof. exists [e], []. by rewrite !app_nil_r. Qed.

Lemma sameAdded_fireTimer ctl1 ctl2 w1 w2 :
  sameAdded w1 (fireTimer ctl1 w1) w2 (fireTimer ctl2 w2).
Proof.
  exists [], [].
  by rewrite !events_fireTimer, !invocations_fireTimer, !app_nil_r.
Qed.

Lemma sameAdded_catchBlock plan ctl1 ctl2 e w1 w2 :
  sameAdded w1 (catchBlock plan ctl1 e w1).1 w2 (catchBlock plan ctl2 e w2).1.
Proof. exists [failedEvent plan (thrownMessage e)], []. by rewrite !app_nil_r. Qed.

Lemma sameAdded_executorOf env plan at_ w1 w2 :
  sameAdded w1 (executorOf env plan at_ w1).1 w2 (executorOf env plan at_ w2).1.
Proof.
  destruct at_ as [| d | d m | d m t]; simpl;
    try (eexists [], [_]; by rewrite !app_nil_r).
  destruct (data_ t), (data_ d); simpl;
    try apply sameAdded_refl.
  eexists [], [_]. by rewrite !app_nil_r.
Qed.

Lemma sameAdded_finishStrategy env plan ctl1 ctl2 t r w1 w2 :
  sameAdded w1 (finishStrategy env plan ctl1 t r w1).1
    w2 (finishStrategy env plan ctl2 t r w2).1.
Proof.
  unfold finishStrategy.
  destruct (data_ r) as [ev |]; [destruct (data_ t) as [tr |] |]; simpl.
  - eexists [_], []. by rewrite !app_nil_r.
  - eexists [_; _], []. simpl. by rewrite !app_nil_r, <- !app_assoc.
  - eexists [_], []. by rewrite !app_nil_r.
Qed.

Lemma enterPhase_same env plan ctl1 ctl2 at_ w1 w2 :
  view ctl1 w1 = view ctl2 w2 ->
  sameAdded w1 (enterPhase env plan ctl1 at_ w1).1
    w2 (enterPhase env plan ctl2 at_ w2).1.
Proof.
  intros Hv. unfold enterPhase, executePhaseEnter.
  rewrite !aborted_view, Hv.
  destruct (default false (view ctl2 w2).1).
  - apply sameAdded_catchBlock.
  - pose proof (sameAdded_executorOf env plan at_
                  (emitProgress (runningEvent (phaseOf at_) plan) w1)
                  (emitProgress (runningEvent (phaseOf at_) plan) w2)) as H.
    destruct (executorOf env plan at_ (emitProgress _ w1)) as [w1' o1].
    destruct (executorOf env plan at_ (emitProgress _ w2)) as [w2' o2].
    eapply sameAdded_trans; [apply sameAdded_emitProgress | exact H].
Qed.

Lemma resumeStrategy_same env plan ctl1 ctl2 at_ o w1 w2 :
  view ctl1 w1 = view ctl2 w2 ->
  sameAdded w1 (resumeStrategy env plan ctl1 at_ o w1).1
    w2 (resumeStrategy env plan ctl2 at_ o w2).1.
Proof.
  intros Hv. unfold resumeStrategy.
  set (w01 := if timerFires env plan (phaseOf at_) then fireTimer ctl1 w1 else w1).
  set (w02 := if timerFires env plan (phaseOf at_) then fireTimer ctl2 w2 else w2).
  assert (Hv0 : view ctl1 w01 = view ctl2 w02).
  { subst w01 w02. destruct (timerFires _ _ _); [| exact Hv].
    by rewrite !view_fireTimer, Hv. }
  assert (H0 : sameAdded w1 w01 w2 w02).
  { subst w01 w02. destruct (timerFires _ _ _);
      [apply sameAdded_fireTimer | apply sameAdded_refl]. }
  clearbody w01 w02. eapply sameAdded_trans; [exact H0 |]. clear H0 Hv.
  destruct o as [result | e]; cbn [executePhaseLeave].
  2: { apply sameAdded_catchBlock. }
  assert (Hv1 : view ctl1 (emitProgress (completedEvent (phaseOf at_) plan) w01)
                = view ctl2 (emitProgress (completedEvent (phaseOf at_) plan) w02))
    by (by rewrite !view_emitProgress).
  destruct at_ as [| d | d m | d m t]; cbn [phaseOf] in *;
    (eapply sameAdded_trans; [apply sameAdded_emitProgress |]);
    try (destruct (success result); cbn [negb];
         [ by apply enterPhase_same | apply sameAdded_catchBlock ]).
  pose proof (sameAdded_finishStrategy env plan ctl1 ctl2 t result
                (emitProgress (completedEvent evaluation plan) w01)
                (emitProgress (completedEvent evaluation plan) w02)) as H.
  destruct (finishStrategy env plan ctl1 _ _ _) as [w1' r1].
  destruct (finishStrategy env plan ctl2 _ _ _) as [w2' r2]. exact H.
Qed.

Lemma stepStrategy_samePoint env plan p1 w1 p2 w2 :
  samePoint p1 w1 p2 w2 ->
  samePoint (stepStrategy env plan p1 w1).2 (stepStrategy env plan p1 w1).1
    (stepStrategy env plan p2 w2).2 (stepStrategy env plan p2 w2).1
  /\ sameAdded w1 (stepStrategy env plan p1 w1).1 w2 (stepStrategy env plan p2 w2).1.
Proof.
  intros [Hs Hv].
  destruct p1 as [ctl1 at1 o1 | r1 | e1], p2 as [ctl2 at2 o2 | r2 | e2];
    try discriminate; cbn [stepStrategy fst snd];
    try (split; [by split | apply sameAdded_refl]).
  injection Hs as <- <-.
  destruct (resumeStrategy_view env plan ctl1 ctl2 at1 o1 w1 w2 Hv) as [Hs' Hv'].
  pose proof (resumeStrategy_keeps_controller env plan ctl1 at1 o1 w1) as Hc1.
  pose proof (resumeStrategy_keeps_controller env plan ctl2 at1 o1 w2) as Hc2.
  split; [| by apply resumeStrategy_same].
  split; [exact Hs' |].
  destruct (resumeStrategy env plan ctl1 at1 o1 w1) as [w1' p1'].
  destruct (resumeStrategy env plan ctl2 at1 o1 w2) as [w2' p2'].
  cbn [fst snd] in *.
  destruct p1' as [c1 ? ? | |]; [| exact I | exact I].
  destruct p2' as [c2 ? ? | |]; [| exact I | exact I].
  by subst c1 c2.
Qed.

Lemma stepsStrategy_samePoint n env plan p1 w1 p2 w2 :
  samePoint p1 w1 p2 w2 ->
  shape (stepsStrategy n env plan p1 w1).2 = shape (stepsStrategy n env plan p2 w2).2
  /\ sameAdded w1 (stepsStrategy n env plan p1 w1).1
       w2 (stepsStrategy n env plan p2 w2).1.
Proof.
  revert p1 w1 p2 w2. induction n as [| n IH]; intros p1 w1 p2 w2 Hp.
  - split; [exact (proj1 Hp) | apply sameAdded_refl].
  - cbn [stepsStrategy].
    destruct (stepStrategy_samePoint env plan p1 w1 p2 w2 Hp) as [Hp' Ha].
    destruct (stepStrategy env plan p1 w1) as [w1' p1'].
    destruct (stepStrategy env plan p2 w2) as [w2' p2'].
    cbn [fst snd] in *.
    destruct (IH p1' w1' p2' w2' Hp') as [Hs Ha'].
    split; [exact Hs | by eapply sameAdded_trans].
Qed.

Lemma startStrategy_samePoint env plan timeout1 timeout2 w1 w2 :
  samePoint (startStrategy env plan timeout1 w1).2 (startStrategy env plan timeout1 w1).1
    (startStrategy env plan timeout2 w2).2 (startStrategy env plan timeout2 w2).1
  /\ sameAdded w1 (startStrategy env plan timeout1 w1).1
       w2 (startStrategy env plan timeout2 w2).1.
Proof.
  destruct (startStrategy_view env plan timeout1 timeout2 w1 w2) as [Hs Hv].
  split.
  - split; [exact Hs |].
    destruct (startStrategy_pending env plan timeout1 w1) as (o1 & -> & _).
    destruct (startStrategy_pending env plan timeout2 w2) as (o2 & -> & _).
    exact Hv.
  - unfold startStrategy, newAbortController.
    eapply sameAdded_trans; [| apply enterPhase_same].
    + exists [startEvent plan], []. by rewrite !app_nil_r.
    + unfold view. simpl.
      rewrite !lookup_app_r, !Nat.sub_diag by lia. simpl.
      rewrite !lookup_insert_eq. by rewrite !bool_decide_true by eauto.
Qed.

(** A run from any world, with any timeout, is the straight-line run:
    its events and agent calls come after those the world held. *)
Lemma executeSingleStrategy_sequentialRun env plan timeout w :
  (executeSingleStrategy env plan timeout w).2
  = Fulfilled (returned (sequentialRun env plan))
  /\ events (executeSingleStrategy env plan timeout w).1
     = events w ++ published (sequentialRun env plan)
  /\ invocations (executeSingleStrategy env plan timeout w).1
     = invocations w ++ called (sequentialRun env plan).
Proof.
  destruct (sequentialRun_emptyWorld env plan) as (Hr & He & Hc).
  unfold executeSingleStrategy in *.
  destruct (startStrategy_samePoint env plan timeout 0 w emptyWorld) as [Hp Ha].
  destruct (startStrategy env plan timeout w) as [w1 p1].
  destruct (startStrategy env plan 0 emptyWorld) as [w2 p2].
  cbn [fst snd] in *.
  destruct (stepsStrategy_samePoint 4 env plan p1 w1 p2 w2 Hp) as [Hs Ha'].
  pose proof (sameAdded_trans _ _ _ _ _ _ Ha Ha') as (es & cs & H1 & H2 & H3 & H4).
  rewrite Hr in Hs. rewrite He in H3. rewrite Hc in H4. simpl in H3, H4.
  subst es cs. split; [| by split].
  destruct (stepsStrategy 4 env plan p1 w1).2; simpl in Hs; congruence.
Qed.

(** ** What the straight-line reading shows *)

Ltac split_run :=
  repeat (cbv beta iota zeta;
          lazymatch goal with
          | |- _ (match ?x with _ => _ end) => destruct x eqn:?
          end);
  cbv beta iota zeta.

Lemma sequentialRun_callsInOrder env plan : callsInOrder plan (sequentialRun env plan).
Proof.
  unfold sequentialRun. split_run; unfold callsInOrder, caught; cbn [called returned r_success failureResult];
    first [ exists 1; split; [lia |]; split; [reflexivity | discriminate]
          | exists 2; split; [lia |]; split; [reflexivity | discriminate]
          | exists 3; split; [lia |]; split; [reflexivity | discriminate]
          | exists 4; split; [lia |]; split; [reflexivity | done] ].
Qed.

Lemma sequentialRun_eventsInOrder env plan :
  eventsInOrder env plan (sequentialRun env plan).
Proof.
  unfold sequentialRun. split_run; unfold eventsInOrder, caught;
    cbn [published returned r_success r_error failureResult].
  all: first
    [ exists 2; eexists; split; [lia |]; split; [reflexivity | by split]
    | exists 3; eexists; split; [lia |]; split; [reflexivity | by split]
    | exists 4; eexists; split; [lia |]; split; [reflexivity | by split]
    | exists 5; eexists; split; [lia |]; split; [reflexivity | by split]
    | exists 6; eexists; split; [lia |]; split; [reflexivity | by split]
    | exists 7; eexists; split; [lia |]; split; [reflexivity | by split]
    | exists 8; eexists; split; [lia |]; split; [reflexivity | by split]
    | exists 9; eexists; split; [lia |]; split; [reflexivity | by split]
    | exists 9; eexists; split; [lia |]; split; [reflexivity |];
      split; [reflexivity |]; split; [reflexivity |]; by eexists ].
Qed.

Lemma sequentialRun_goesWell env plan tr ev :
  goesWell env plan tr ev ->
  sequentialRun env plan
  = {| published := fullTrace plan ++ [doneEvent env plan ev];
       called := map (taskFor plan) phases;
       returned := successResult env plan tr ev |}.
Proof.
  intros (d & m & t & e & [Hd Hds] & [Hm Hms] & [Ht Hts] & He & [dp Hdp] & Htr & Hev
          & Hfd & Hfm & Hft).
  unfold sequentialRun.
  rewrite Hd, Hds, Hfd, Hm, Hms, Hfm, Ht, Hts, Hft, Htr, Hdp, He, Hev.
  reflexivity.
Qed.

Lemma sequentialRun_fails env plan :
  (forall tr ev, ~ goesWell env plan tr ev) ->
  exists msg, returned (sequentialRun env plan) = failureResult plan msg.
Proof.
  intros Hno. pattern (sequentialRun env plan).
  lazymatch goal with |- ?P _ => set (Q := P) end.
  unfold sequentialRun. split_run; subst Q; cbv beta;
    try (eexists; reflexivity).
  exfalso.
  repeat match goal with
         | H : negb ?b = false |- _ => apply negb_false_iff in H
         end.
  eapply Hno. unfold goesWell, answered. do 4 eexists.
  repeat split; try eassumption. eauto.
Qed.

(** X1: [executeSingleStrategy], run as the event loop runs it (from its
    call to its first [await], then from each settling of an agent's
    promise to the next [await]), from any world and with any timeout, does
    what its body says when read from top to bottom: its promise is
    fulfilled with the result of that reading, and the events and the agent
    calls of that reading are appended, in order, to those the world
    held. *)
Theorem run_is_straight_line env plan timeout w :
  (executeSingleStrategy env plan timeout w).2
  = Fulfilled (returned (sequentialRun env plan))
  /\ events (executeSingleStrategy env plan timeout w).1
     = events w ++ published (sequentialRun env plan)
  /\ invocations (executeSingleStrategy env plan timeout w).1
     = invocations w ++ called (sequentialRun env plan).
Proof. apply executeSingleStrategy_sequentialRun. Qed.

(** X2: a run calls the agents in phase order, each at most once: the
    calls it adds are the data task, then the model task, the training
    task and the evaluation task, up to some phase.  The data agent is
    always called; a run that reports a success has called all four. *)
Theorem agents_called_in_phase_order env plan timeout w :
  exists n,
    1 <= n <= 4
    /\ invocations (executeSingleStrategy env plan timeout w).1
       = invocations w ++ take n (map (taskFor plan) phases)
    /\ forall r,
         (executeSingleStrategy env plan timeout w).2 = Fulfilled r ->
         r_success r = true -> n = 4.
Proof.
  destruct (executeSingleStrategy_sequentialRun env plan timeout w)
    as (Hr & _ & Hc).
  destruct (sequentialRun_callsInOrder env plan) as (n & Hn & Hcalled & Hs).
  exists n. split; [exact Hn |]. split; [by rewrite Hc, Hcalled |].
  intros r Hr'. rewrite Hr in Hr'. injection Hr' as <-. exact Hs.
Qed.

(** X3: the events of a run are a start of the full trace (the start
    event, then for each phase its 'running' and its 'completed' event)
    followed by exactly one last event.  For a failure that is the
    'failed' event with the message of the result; for a success all nine
    events of the trace are there and the last event is the 'completed'
    event with progress 100 that carries the evaluation payload. *)
Theorem events_in_phase_order env plan timeout w :
  exists n last r,
    (executeSingleStrategy env plan timeout w).2 = Fulfilled r
    /\ 2 <= n <= 9
    /\ events (executeSingleStrategy env plan timeout w).1
       = events w ++ take n (fullTrace plan) ++ [last]
    /\ match r_error r with
       | Some msg => last = failedEvent plan msg /\ r_success r = false
       | None =>
           n = 9 /\ r_success r = true /\ exists ev, last = doneEvent env plan ev
       end.
Proof.
  destruct (executeSingleStrategy_sequentialRun env plan timeout w)
    as (Hr & He & _).
  destruct (sequentialRun_eventsInOrder env plan) as (n & last & Hn & Hp & Hlast).
  exists n, last, (returned (sequentialRun env plan)).
  split; [exact Hr |]. split; [exact Hn |]. split; [by rewrite He, Hp | exact Hlast].
Qed.

(** X4: a run reports a success exactly when everything goes well:
    the data, model and training agents answer [success: true], the
    evaluation agent answers, the payloads read are there, and the timeout
    does not elapse before the evaluation phase is entered.  The result
    then takes accuracy and loss from the evaluation payload, training time
    and model from the training payload; in every other case the result is
    the failure literal. *)
Theorem success_exactly_when_all_goes_well env plan timeout w :
  (forall tr ev,
     goesWell env plan tr ev ->
     (executeSingleStrategy env plan timeout w).2
     = Fulfilled (successResult env plan tr ev))
  /\ ((forall tr ev, ~ goesWell env plan tr ev) ->
      exists msg,
        (executeSingleStrategy env plan timeout w).2
        = Fulfilled (failureResult plan msg)).
Proof.
  destruct (executeSingleStrategy_sequentialRun env plan timeout w) as (Hr & _).
  rewrite Hr. split.
  - intros tr ev Hgo. by rewrite (sequentialRun_goesWell env plan tr ev Hgo).
  - intros Hno. destruct (sequentialRun_fails env plan Hno) as (msg & ->).
    by exists msg.
Qed.

(** X5: the timeout is only looked at when a phase is entered.  If
    it elapses while the agent of the data, model or training phase is
    awaited, and the agents up to that phase succeed, that phase still
    completes (its 'completed' event is published), the next agent is
    never called, and the run ends in the failure 'Execution aborted'. *)
Theorem timeout_aborts_before_next_phase env plan timeout w phase :
  phase <> evaluation ->
  (forall ph, phaseIndex ph <= phaseIndex phase -> exists r, answered env plan ph r) ->
  (forall ph, phaseIndex ph < phaseIndex phase -> timerFires env plan ph = false) ->
  timerFires env plan phase = true ->
  (executeSingleStrategy env plan timeout w).2
  = Fulfilled (failureResult plan "Execution aborted")
  /\ invocations (executeSingleStrategy env plan timeout w).1
     = invocations w ++ take (S (phaseIndex phase)) (map (taskFor plan) phases)
  /\ events (executeSingleStrategy env plan timeout w).1
     = events w ++ take (2 * phaseIndex phase + 3) (fullTrace plan)
         ++ [failedEvent plan "Execution aborted"].
Proof.
  intros Hph Hans Hbefore Hfires.
  destruct (executeSingleStrategy_sequentialRun env plan timeout w)
    as (-> & -> & ->).
  unfold sequentialRun.
  destruct (Hans data) as (d & Hd & Hds); [simpl; lia |].
  rewrite Hd, Hds. cbn [negb].
  destruct phase; [| | | done].
  - rewrite Hfires. done.
  - rewrite (Hbefore data) by (simpl; lia).
    destruct (Hans model) as (m & Hm & Hms); [simpl; lia |].
    rewrite Hm, Hms, Hfires. done.
  - rewrite (Hbefore data), (Hbefore model) by (simpl; lia).
    destruct (Hans model) as (m & Hm & Hms); [simpl; lia |].
    destruct (Hans training) as (t & Ht & Hts); [simpl; lia |].
    rewrite Hm, Hms, Ht, Hts, Hfires. done.
Qed.

Lemma timeout_aborts_before_next_phase_witness :
  (executeSingleStrategy envTimeoutInModel plan1 1000 emptyWorld).2
  = Fulfilled (failureResult plan1 "Execution aborted")
  /\ invocations (executeSingleStrategy envTimeoutInModel plan1 1000 emptyWorld).1
     = invocations emptyWorld ++ take 2 (map (taskFor plan1) phases)
  /\ events (executeSingleStrategy envTimeoutInModel plan1 1000 emptyWorld).1
     = events emptyWorld ++ take 5 (fullTrace plan1)
         ++ [failedEvent plan1 "Execution aborted"].
Proof.
  apply (timeout_aborts_before_next_phase envTimeoutInModel plan1 1000 emptyWorld
           model).
  - discriminate.
  - intros ph _. exists succeeded. split; reflexivity.
  - intros [] H; simpl in H; try lia; reflexivity.
  - reflexivity.
Defined.

(** X6: a timeout that elapses while the evaluation agent is
    awaited changes nothing of what the run returns, publishes and calls:
    after the last phase the signal is not looked at again. *)
Theorem timeout_during_evaluation_has_no_effect env plan timeout w :
  (executeSingleStrategy (timeoutDuringEvaluation env) plan timeout w).2
  = (executeSingleStrategy env plan timeout w).2
  /\ events (executeSingleStrategy (timeoutDuringEvaluation env) plan timeout w).1
     = events (executeSingleStrategy env plan timeout w).1
  /\ invocations (executeSingleStrategy (timeoutDuringEvaluation env) plan timeout w).1
     = invocations (executeSingleStrategy env plan timeout w).1.
Proof.
  destruct (executeSingleStrategy_sequentialRun env plan timeout w)
    as (-> & -> & ->).
  destruct (executeSingleStrategy_sequentialRun (timeoutDuringEvaluation env)
              plan timeout w) as (-> & -> & ->).
  done.
Qed.

(** ** The batches *)

Lemma chunkCount_lt n batchSize k :
  1 <= batchSize -> k * batchSize < n <-> k < chunkCount n batchSize.
Proof.
  intros Hbs. unfold chunkCount.
  pose proof (Nat.div_mod_eq (n + batchSize - 1) batchSize) as Hdm.
  pose proof (Nat.mod_upper_bound (n + batchSize - 1) batchSize) as Hm.
  split; intros H; nia.
Qed.

Lemma createBatchesLoop_chunks {T} (items : list T) batchSize fuel k batches :
  1 <= batchSize ->
  k <= chunkCount (length items) batchSize ->
  length items - k * batchSize < fuel ->
  createBatchesLoop fuel items batchSize (k * batchSize) batches
  = Some (batches
          ++ map (chunk items batchSize)
               (seq k (chunkCount (length items) batchSize - k))).
Proof.
  intros Hbs. revert k batches.
  induction fuel as [| fuel IH]; intros k batches Hk Hfuel; [lia |]. simpl.
  pose proof (chunkCount_lt (length items) batchSize k Hbs) as Hlt.
  case_bool_decide as Hi.
  - apply Hlt in Hi.
    replace (k * batchSize + batchSize) with (S k * batchSize) by lia.
    rewrite IH by (simpl; nia).
    replace (chunkCount (length items) batchSize - k)
      with (S (chunkCount (length items) batchSize - S k)) by lia.
    cbn [seq map]. rewrite <- app_assoc. do 2 f_equal. simpl. f_equal.
    unfold slice, chunk. f_equal. lia.
  - replace (chunkCount (length items) batchSize - k) with 0 by lia.
    simpl. by rewrite app_nil_r.
Qed.

Lemma createBatches_as_chunks {T} (items : list T) batchSize :
  1 <= batchSize ->
  createBatches items batchSize
  = Some (map (chunk items batchSize) (seq 0 (chunkCount (length items) batchSize))).
Proof.
  intros Hbs. unfold createBatches.
  pose proof (createBatchesLoop_chunks items batchSize (S (length items)) 0 [] Hbs)
    as H.
  cbn [Nat.mul app] in H. rewrite !Nat.sub_0_r in H. apply H; lia.
Qed.

(** X7: with a batch size of at least one, [createBatches] returns
    the list cut into consecutive pieces of [batchSize] items: as many
    pieces as it takes to hold the items, the [k]-th one being the
    [batchSize] items from position [k * batchSize] on (fewer in the last
    piece, if the items run out). *)
Theorem createBatches_chunks {T} (items : list T) batchSize :
  1 <= batchSize ->
  createBatches items batchSize
  = Some (map (chunk items batchSize) (seq 0 (chunkCount (length items) batchSize))).
Proof. apply createBatches_as_chunks. Qed.

Lemma createBatches_chunks_witness :
  createBatches fourPlans 3
  = Some (map (chunk fourPlans 3) (seq 0 (chunkCount (length fourPlans) 3))).
Proof. apply (createBatches_chunks fourPlans 3). lia. Defined.

(** X8: with [maxConcurrent: 0] and at least one plan,
    [executeStrategies] never returns: the loop of [createBatches] does
    not advance, and no strategy is ever started. *)
Theorem no_concurrency_never_returns env schedules plans options w :
  plans <> [] -> maxConcurrent options = Some 0 ->
  executeStrategies env schedules plans options w = None.
Proof.
  intros Hne Hmax. unfold executeStrategies. rewrite Hmax. simpl.
  by rewrite (createBatches_zero plans Hne).
Qed.

Lemma no_concurrency_never_returns_witness :
  executeStrategies envAllSucceed [] fourPlans noneAtATime emptyWorld = None.
Proof.
  apply (no_concurrency_never_returns envAllSucceed [] fourPlans noneAtATime
           emptyWorld).
  - discriminate.
  - reflexivity.
Defined.

(** ** The size of a model *)

(** X9: for a value of [Math.random()], which lies in [0, 1),
    [calculateModelSize] returns a whole number from 10 to 60. *)
Theorem calculateModelSize_range env plan :
  (0 <= random env plan)%Q -> (random env plan < 1)%Q ->
  exists n : Z, calculateModelSize env plan = inject_Z n /\ (10 <= n <= 60)%Z.
Proof.
  intros H0 H1. unfold calculateModelSize.
  set (y := (random env plan * 50 + 10 + (1 # 2))%Q).
  exists (Qfloor y). split; [reflexivity |]. split.
  - change 10%Z with (Qfloor (inject_Z 10)) at 1.
    + apply Qfloor_resp_le. subst y. unfold inject_Z. lra.
  - pose proof (Qfloor_le y) as Hle.
    assert (Hlt : (inject_Z (Qfloor y) < inject_Z 61)%Q).
    { eapply Qle_lt_trans; [exact Hle |]. subst y. unfold inject_Z. lra. }
    rewrite <- Zlt_Qlt in Hlt. lia.
Qed.

Lemma calculateModelSize_range_witness :
  exists n : Z, calculateModelSize envAllSucceed plan1 = inject_Z n /\ (10 <= n <= 60)%Z.
Proof.
  apply (calculateModelSize_range envAllSucceed plan1); vm_compute; congruence.
Defined.

(** ** Cancelling *)

Lemma cancelRemainingExecutions_aborted w ctl :
  aborted ctl (cancelRemainingExecutions w) = true
  <-> aborted ctl w = true \/ isRegistered ctl w.
Proof.
  unfold cancelRemainingExecutions, isRegistered.
  change (aborted ctl (withActive (fun _ => ∅) ?x)) with (aborted ctl x).
  apply (map_fold_weak_ind
           (fun r (m : gmap string nat) =>
              length (controllers r) = length (controllers w)
              /\ (aborted ctl r = true
                  <-> aborted ctl w = true
                      \/ (ctl < length (controllers w)
                          /\ exists sid, m !! sid = Some ctl)))).
  - split; [reflexivity |]. split; [by left |].
    intros [H | (_ & sid & H)]; [exact H | by rewrite lookup_empty in H].
  - intros sid c m r Hnone (Hl & IH).
    split; [by rewrite <- Hl; apply length_insert |].
    unfold abort, aborted in *. simpl.
    destruct (decide (ctl = c)) as [-> | Hne].
    + destruct (decide (c < length (controllers r))) as [Hlt | Hge].
      * rewrite list_lookup_insert_eq by exact Hlt. simpl.
        split; [intros _ | done]. right. split; [lia |].
        exists sid. by rewrite lookup_insert_eq.
      * rewrite list_insert_ge by lia. rewrite IH.
        split; (intros [H | (Hlt & _)]; [by left | lia]).
    + rewrite list_lookup_insert_ne by done. rewrite IH.
      split; (intros [H | (Hlt & sid' & Hs)]; [by left | right]);
        (split; [exact Hlt |]); exists sid'.
      * rewrite lookup_insert_ne; [exact Hs |]. intros <-. congruence.
      * destruct (decide (sid = sid')) as [<- | Hs'].
        -- rewrite lookup_insert_eq in Hs. congruence.
        -- by rewrite lookup_insert_ne in Hs.
Qed.

Lemma cancelRemainingExecutions_empty w :
  activeExecutions w = ∅ -> cancelRemainingExecutions w = w.
Proof.
  intros H. unfold cancelRemainingExecutions. rewrite H, map_fold_empty.
  destruct w. simpl in *. by subst.
Qed.

(** X10: [cancelRemainingExecutions] aborts exactly the controllers
    that the registry holds (one that was aborted before stays so, any
    other controller is left as it is) and empties the registry.  It
    publishes no event, calls no agent, and clears no timer: the timeouts
    of the strategies it cancels stay pending.  Cancelling twice is
    cancelling once. *)
Theorem cancel_aborts_the_registered w :
  (forall ctl,
     aborted ctl (cancelRemainingExecutions w) = true
     <-> aborted ctl w = true \/ isRegistered ctl w)
  /\ activeExecutions (cancelRemainingExecutions w) = ∅
  /\ timers (cancelRemainingExecutions w) = timers w
  /\ events (cancelRemainingExecutions w) = events w
  /\ invocations (cancelRemainingExecutions w) = invocations w
  /\ cancelRemainingExecutions (cancelRemainingExecutions w)
     = cancelRemainingExecutions w.
Proof.
  destruct (cancelRemainingExecutions_spec w) as (Ha & He & Hi & Ht & _).
  split; [apply cancelRemainingExecutions_aborted |].
  split; [exact Ha |]. split; [exact Ht |]. split; [exact He |].
  split; [exact Hi |]. by apply cancelRemainingExecutions_empty.
Qed.

(** ** Nothing is left behind *)

Lemma timers_fireTimer ctl w :
  timers (fireTimer ctl w) = timers w \/ timers (fireTimer ctl w) = delete ctl (timers w).
Proof. unfold fireTimer. destruct (timers w !! ctl); [by right | by left]. Qed.

Lemma timers_catchBlock plan ctl e w :
  timers (catchBlock plan ctl e w).1 = delete ctl (timers w).
Proof. reflexivity. Qed.

Lemma timers_enterPhase env plan ctl at_ w :
  timers (enterPhase env plan ctl at_ w).1 = timers w
  \/ timers (enterPhase env plan ctl at_ w).1 = delete ctl (timers w).
Proof.
  unfold enterPhase, executePhaseEnter. destruct (aborted ctl w); [by right |].
  destruct (executorOf_adds env plan at_
              (emitProgress (runningEvent (phaseOf at_) plan) w))
    as (_ & _ & Ht & _).
  destruct (executorOf _ _ _ _) as [w1 o]. left. exact Ht.
Qed.

Lemma timers_finishStrategy env plan ctl t r w :
  timers (finishStrategy env plan ctl t r w).1 = delete ctl (timers w).
Proof.
  unfold finishStrategy.
  destruct (data_ r); [destruct (data_ t) |]; simpl; by rewrite ?delete_delete_eq.
Qed.

(** A step of a strategy leaves the timers as they are, or clears its
    own. *)
Lemma timers_resumeStrategy env plan ctl at_ o w :
  timers (resumeStrategy env plan ctl at_ o w).1 = timers w
  \/ timers (resumeStrategy env plan ctl at_ o w).1 = delete ctl (timers w).
Proof.
  unfold resumeStrategy.
  set (w0 := if timerFires env plan (phaseOf at_) then fireTimer ctl w else w).
  assert (H0 : timers w0 = timers w \/ timers w0 = delete ctl (timers w)).
  { subst w0. destruct (timerFires _ _ _); [apply timers_fireTimer | by left]. }
  clearbody w0.
  assert (Hgo : forall w',
            timers w' = timers w0 \/ timers w' = delete ctl (timers w0) ->
            timers w' = timers w \/ timers w' = delete ctl (timers w)).
  { intros w' [-> | ->]; [exact H0 |]. right.
    destruct H0 as [-> | ->]; by rewrite ?delete_delete_eq. }
  apply Hgo.
  destruct o as [result | e]; cbn [executePhaseLeave]; [| by right].
  destruct at_ as [| d | d m | d m t];
    try (destruct (success result); cbn [negb];
         [ apply (timers_enterPhase env plan ctl _
                    (emitProgress (completedEvent _ plan) w0))
         | by right ]).
  pose proof (timers_finishStrategy env plan ctl t result
                (emitProgress (completedEvent evaluation plan) w0)) as H.
  destruct (finishStrategy env plan ctl t result _) as [w2 r]. by right.
Qed.

Lemma startStrategy_registers env plan timeout w :
  exists o,
    (startStrategy env plan timeout w).2 = Pending (length (controllers w)) AtData o
    /\ activeExecutions (startStrategy env plan timeout w).1
       = <[strategyId plan := length (controllers w)]> (activeExecutions w)
    /\ timers (startStrategy env plan timeout w).1
       = <[length (controllers w) := timeout]> (timers w).
Proof.
  unfold startStrategy, newAbortController, enterPhase, executePhaseEnter.
  assert (Hab : forall w1, controllers w1 = controllers w ++ [false] ->
                           aborted (length (controllers w)) w1 = false).
  { intros w1 Hc. unfold aborted. rewrite Hc, lookup_app_r, Nat.sub_diag; done. }
  rewrite Hab by reflexivity. simpl. eexists. by repeat split.
Qed.

Lemma held_refl w : held w [] w.
Proof. split; intros; by left. Qed.

Lemma held_settled w0 ps w :
  held w0 ps w ->
  Forall (fun pp => controllerOf pp.2 = None) ps ->
  activeExecutions w ⊆ activeExecutions w0 /\ timers w ⊆ timers w0.
Proof.
  intros [Ha Ht] Hs.
  assert (Hno : forall i plan c at_ o, ps !! i = Some (plan, Pending c at_ o) -> False).
  { intros i plan c at_ o Hi.
    by pose proof (Forall_lookup_1 _ _ _ _ Hs Hi) as H. }
  split; apply map_subseteq_spec.
  - intros sid ctl H. destruct (Ha sid ctl H) as [H0 | (i & plan & c & at_ & o & Hi & _)];
      [exact H0 | by destruct (Hno _ _ _ _ _ Hi)].
  - intros ctl t H. destruct (Ht ctl t H) as [H0 | (i & plan & at_ & o & Hi)];
      [exact H0 | by destruct (Hno _ _ _ _ _ Hi)].
Qed.

Lemma stepAt_held env w0 i ps w :
  held w0 ps w -> held w0 (stepAt env i ps w).2 (stepAt env i ps w).1.
Proof.
  intros [Ha Ht]. unfold stepAt.
  destruct (ps !! i) as [[plan p] |] eqn:Hi; [| by split].
  destruct p as [ctl at_ o | r | e].
  2,3: cbn [stepStrategy fst snd]; rewrite list_insert_id by exact Hi; by split.
  cbn [stepStrategy].
  destruct (resumeStrategy_adds env plan ctl at_ o w)
    as (es & cs & _ & _ & _ & Hset & Hact).
  pose proof (timers_resumeStrategy env plan ctl at_ o w) as Htm.
  destruct (resumeStrategy env plan ctl at_ o w) as [w' p']. cbn [fst snd] in *.
  pose proof (lookup_lt_Some _ _ _ Hi) as Hlt.
  assert (Hother : forall j q, j <> i -> ps !! j = Some q ->
                               <[i := (plan, p')]> ps !! j = Some q).
  { intros j q Hne Hj. by rewrite list_lookup_insert_ne. }
  destruct p' as [ctl' at' o' | r' | e'].
  - destruct Hset as [-> _]. split.
    + intros sid c Hs. rewrite Hact in Hs.
      destruct (Ha sid c Hs) as [H0 | (j & planj & cj & atj & oj & Hj & Hsid)];
        [by left | right].
      destruct (decide (j = i)) as [-> | Hne].
      * rewrite Hi in Hj. injection Hj as <- <- <- <-.
        exists i, plan, ctl, at', o'. by rewrite list_lookup_insert_eq.
      * exists j, planj, cj, atj, oj. split; [by apply Hother | exact Hsid].
    + intros c t Htc.
      assert (Hold : timers w !! c = Some t).
      { destruct Htm as [Heq | Heq]; rewrite Heq in Htc; [exact Htc |].
        by apply lookup_delete_Some in Htc as [_ ?]. }
      destruct (Ht c t Hold) as [H0 | (j & planj & atj & oj & Hj)];
        [by left | right].
      destruct (decide (j = i)) as [-> | Hne].
      * rewrite Hi in Hj. injection Hj as <- <- <- <-.
        exists i, plan, at', o'. by rewrite list_lookup_insert_eq.
      * exists j, planj, atj, oj. by apply Hother.
  - destruct Hset as (_ & _ & Hnone & _). split.
    + intros sid c Hs. rewrite Hact in Hs.
      apply lookup_delete_Some in Hs as [Hne Hs].
      destruct (Ha sid c Hs) as [H0 | (j & planj & cj & atj & oj & Hj & Hsid)];
        [by left | right].
      destruct (decide (j = i)) as [-> | Hnj].
      * rewrite Hi in Hj. injection Hj as <- <- <- <-. done.
      * exists j, planj, cj, atj, oj. split; [by apply Hother | exact Hsid].
    + intros c t Htc.
      assert (Hc : c <> ctl) by (intros ->; congruence).
      assert (Hold : timers w !! c = Some t).
      { destruct Htm as [Heq | Heq]; rewrite Heq in Htc; [exact Htc |].
        by apply lookup_delete_Some in Htc as [_ ?]. }
      destruct (Ht c t Hold) as [H0 | (j & planj & atj & oj & Hj)];
        [by left | right].
      destruct (decide (j = i)) as [-> | Hnj].
      * rewrite Hi in Hj. by injection Hj as <- <- <- <-.
      * exists j, planj, atj, oj. by apply Hother.
  - destruct Hset.
Qed.

Lemma runSchedule_held env w0 schedule ps w :
  held w0 ps w ->
  held w0 (runSchedule env schedule ps w).2 (runSchedule env schedule ps w).1.
Proof.
  revert ps w. induction schedule as [| i schedule IH]; intros ps w H; simpl;
    [exact H |].
  pose proof (stepAt_held env w0 i ps w H) as H'.
  destruct (stepAt env i ps w) as [w' ps']. by apply IH.
Qed.

Lemma rounds_held n env w0 ps w :
  held w0 ps w -> held w0 (rounds n env ps w).2 (rounds n env ps w).1.
Proof.
  revert ps w. induction n as [| n IH]; intros ps w H; simpl; [exact H |].
  pose proof (runSchedule_held env w0 (seq 0 (length ps)) ps w H) as H'.
  rewrite <- stepAll_schedule in H'.
  destruct (stepAll env ps w) as [w' ps']. by apply IH.
Qed.

Lemma startBatch_held env timeout batch w :
  held w (startBatch env timeout batch w).2 (startBatch env timeout batch w).1.
Proof.
  revert w. induction batch as [| plan rest IH]; intros w; simpl;
    [apply held_refl |].
  destruct (startStrategy_registers env plan timeout w) as (o & Hp & Hact & Htm).
  destruct (startStrategy env plan timeout w) as [w1 p]. cbn [fst snd] in *.
  subst p. specialize (IH w1).
  destruct (startBatch env timeout rest w1) as [w2 ps]. cbn [fst snd] in *.
  destruct IH as [Ha Ht]. split.
  - intros sid c Hs.
    destruct (Ha sid c Hs) as [H1 | (j & planj & cj & atj & oj & Hj & Hsid)].
    + rewrite Hact in H1. apply lookup_insert_Some in H1 as [[<- <-] | [_ H0]];
        [right | by left].
      by exists 0, plan, (length (controllers w)), AtData, o.
    + right. by exists (S j), planj, cj, atj, oj.
  - intros c t Htc.
    destruct (Ht c t Htc) as [H1 | (j & planj & atj & oj & Hj)].
    + rewrite Htm in H1. apply lookup_insert_Some in H1 as [[<- <-] | [_ H0]];
        [right | by left].
      by exists 0, plan, AtData, o.
    + right. by exists (S j), planj, atj, oj.
Qed.

Lemma allSettled_settled ps settled :
  allSettled ps = Some settled ->
  Forall (fun pp => controllerOf pp.2 = None) ps.
Proof.
  revert settled. induction ps as [| [plan p] rest IH]; intros settled H;
    [constructor |].
  simpl in H. destruct p as [ctl at_ o | r | e]; [discriminate | |];
    (destruct (allSettled rest) as [s |] eqn:Hr; [| discriminate]);
    (constructor; [reflexivity | by eapply IH]).
Qed.

(** A batch that has settled has left the registry and the timers with
    nothing that was not there before it started. *)
Lemma awaitAllSettled_held env timeout schedule batch w settled :
  (awaitAllSettled env schedule (startBatch env timeout batch w).2
     (startBatch env timeout batch w).1).2 = Some settled ->
  activeExecutions (awaitAllSettled env schedule (startBatch env timeout batch w).2
                      (startBatch env timeout batch w).1).1 ⊆ activeExecutions w
  /\ timers (awaitAllSettled env schedule (startBatch env timeout batch w).2
               (startBatch env timeout batch w).1).1 ⊆ timers w.
Proof.
  pose proof (startBatch_held env timeout batch w) as H0.
  destruct (startBatch env timeout batch w) as [w1 ps]. cbn [fst snd] in *.
  unfold awaitAllSettled.
  pose proof (runSchedule_held env w schedule ps w1 H0) as H1.
  destruct (runSchedule env schedule ps w1) as [w2 ps2]. cbn [fst snd] in *.
  pose proof (rounds_held 4 env w ps2 w2 H1) as H2.
  destruct (rounds 4 env ps2 w2) as [w3 ps3]. cbn [fst snd] in *.
  intros Hs. eapply held_settled; [exact H2 | by eapply allSettled_settled].
Qed.

Lemma runBatches_held env timeout_ es schedules batches results w w' rs :
  runBatches env timeout_ es schedules batches results w = Some (w', rs) ->
  activeExecutions w' ⊆ activeExecutions w /\ timers w' ⊆ timers w.
Proof.
  revert schedules results w.
  induction batches as [| batch batches IH]; intros schedules results w; simpl.
  { intros H. by injection H as <- _. }
  pose proof (awaitAllSettled_held env timeout_ (hd [] schedules) batch w) as Hb.
  destruct (startBatch env timeout_ batch w) as [w1 ps]. cbn [fst snd] in Hb.
  destruct (awaitAllSettled env (hd [] schedules) ps w1) as [w2 [settled |]];
    [| discriminate].
  destruct (Hb settled eq_refl) as [Ha Ht]. cbn [fst] in *.
  destruct (collectBatch es settled results) as [results' [|]].
  - intros H. injection H as <- _.
    destruct (cancelRemainingExecutions_spec w2) as (-> & _ & _ & -> & _).
    split; [apply map_empty_subseteq | exact Ht].
  - intros H. destruct (IH _ _ _ H) as [Ha' Ht'].
    split; etrans; eassumption.
Qed.

(** X11: when [executeStrategies] returns, whatever the options and the
    order in which the strategies were resumed, the registry and the table
    of pending timers hold nothing that was not there at the call: every
    strategy that was started has removed its entry and cleared its
    timer.  In particular both are empty if they were so before. *)
Theorem nothing_left_behind env schedules plans options w w' results :
  executeStrategies env schedules plans options w = Some (w', results) ->
  activeExecutions w' ⊆ activeExecutions w /\ timers w' ⊆ timers w.
Proof.
  unfold executeStrategies.
  destruct (createBatches plans _) as [batches |]; [| discriminate].
  apply runBatches_held.
Qed.

Lemma nothing_left_behind_witness :
  activeExecutions sampleEnd.1 ⊆ activeExecutions emptyWorld
  /\ timers sampleEnd.1 ⊆ timers emptyWorld.
Proof.
  apply (nothing_left_behind envTrainingRejects [[2; 0; 1]] [plan1; plan2; plan3]
           noOptions emptyWorld sampleEnd.1 sampleEnd.2).
  vm_compute. reflexivity.
Defined.

(** ** Early stop only cuts the run short *)







(** ** The winners *)

(** [reduce] with a callback that keeps [prev] unless [curr] is strictly
    greater on [measure] returns the first of the greatest. *)
Lemma reduce_firstMax (measure : ExecutionResult -> Q)
    (callback : ExecutionResult -> ExecutionResult -> ExecutionResult)
    first others :
  (forall prev curr,
     callback prev curr
     = if greater (measure curr) (measure prev) then curr else prev) ->
  firstMax measure (first :: others) (reduce callback first others).
Proof.
  intros Hcb. unfold reduce.
  assert (Hgen : forall rest seen acc,
            firstMax measure seen acc ->
            firstMax measure (seen ++ rest) (fold_left callback rest acc)).
  { induction rest as [| curr rest IH]; intros seen acc Hacc; simpl.
    - by rewrite app_nil_r.
    - replace (seen ++ curr :: rest) with ((seen ++ [curr]) ++ rest)
        by (by rewrite <- app_assoc).
      apply IH. destruct Hacc as (i & Hi & Hmax & Hfirst).
      pose proof (lookup_lt_Some _ _ _ Hi) as Hlt.
      rewrite Hcb. destruct (greater (measure curr) (measure acc)) eqn:Hg.
      + apply greater_spec in Hg. exists (length seen). split; [| split].
        * by rewrite lookup_app_r, Nat.sub_diag.
        * intros r Hr. apply elem_of_app in Hr as [Hr | Hr].
          -- specialize (Hmax r Hr). lra.
          -- apply list_elem_of_singleton in Hr as ->. lra.
        * intros j r Hj Hr. rewrite lookup_app_l in Hr by exact Hj.
          apply list_elem_of_lookup_2 in Hr. specialize (Hmax r Hr). lra.
      + assert (Hle : (measure curr <= measure acc)%Q).
        { destruct (Qlt_le_dec (measure acc) (measure curr)) as [Hlt' | Hle];
            [| exact Hle].
          apply greater_spec in Hlt'. congruence. }
        exists i. split; [| split].
        * by rewrite lookup_app_l.
        * intros r Hr. apply elem_of_app in Hr as [Hr | Hr]; [by apply Hmax |].
          by apply list_elem_of_singleton in Hr as ->.
        * intros j r Hj Hr. rewrite lookup_app_l in Hr by lia.
          by apply (Hfirst j). }
  apply (Hgen others [first] first).
  exists 0. split; [reflexivity |]. split.
  - intros r Hr. apply list_elem_of_singleton in Hr as ->. lra.
  - intros j r Hj. lia.
Qed.

Lemma greater_opp x y : greater (- x) (- y) = greater y x.
Proof.
  destruct (greater y x) eqn:H.
  - apply greater_spec in H. apply greater_spec. lra.
  - destruct (greater (- x) (- y)) eqn:H'; [| reflexivity].
    apply greater_spec in H'. assert (x < y)%Q as H2 by lra.
    apply greater_spec in H2. congruence.
Qed.

(** The winners that [compareStrategies] names, as results of the
    ranking. *)
Lemma compareStrategies_winners results c :
  compareStrategies results = inr c ->
  exists others,
    ranking c = best c :: others
    /\ accuracyWinner (analysis c) = r_strategyId (reduce moreAccurate (best c) others)
    /\ speedWinner (analysis c) = r_strategyId (reduce faster (best c) others)
    /\ sizeWinner (analysis c) = r_strategyId (reduce smaller (best c) others)
    /\ overallWinner (analysis c) = r_strategyId (best c).
Proof.
  unfold compareStrategies.
  destruct (sort rankCompare _) as [| b others]; [discriminate |].
  intros H. injection H as <-. by exists others.
Qed.

(** X13: the category winners of [compareStrategies] are results of
    the ranking that are best in their category among all successful
    results: none is more accurate than the accuracy winner, none trained
    faster than the speed winner, none is smaller than the size winner;
    among equals the one that ranks first is named.  The overall winner is
    [best], the head of the ranking, and need not be the accuracy winner:
    for [resultA], [resultB], [resultC] the overall winner is "A" and the
    accuracy winner is "C". *)
Theorem winners_are_best results c :
  compareStrategies results = inr c ->
  (exists a s z,
     firstMax accuracyOf (ranking c) a
     /\ accuracyWinner (analysis c) = r_strategyId a
     /\ firstMax (fun r => - timeOf r)%Q (ranking c) s
     /\ speedWinner (analysis c) = r_strategyId s
     /\ firstMax (fun r => - sizeOf r)%Q (ranking c) z
     /\ sizeWinner (analysis c) = r_strategyId z
     /\ overallWinner (analysis c) = r_strategyId (best c)
     /\ forall r, r ∈ results -> r_success r = true ->
                  (accuracyOf r <= accuracyOf a)%Q
                  /\ (timeOf s <= timeOf r)%Q
                  /\ (sizeOf z <= sizeOf r)%Q)
  /\ exists c',
       compareStrategies [resultA; resultB; resultC] = inr c'
       /\ overallWinner (analysis c') = "A"
       /\ accuracyWinner (analysis c') = "C".
Proof.
  intros Hc. split.
  - destruct (compareStrategies_winners results c Hc)
      as (others & Hrank & Ha & Hs & Hz & Ho).
    pose proof (reduce_firstMax accuracyOf moreAccurate (best c) others
                  (fun _ _ => eq_refl)) as Hacc.
    assert (Hspeed : firstMax (fun r => - timeOf r)%Q (best c :: others)
                       (reduce faster (best c) others)).
    { apply reduce_firstMax. intros prev curr. unfold faster, timeOf.
      by rewrite greater_opp. }
    assert (Hsize : firstMax (fun r => - sizeOf r)%Q (best c :: others)
                      (reduce smaller (best c) others)).
    { apply reduce_firstMax. intros prev curr. unfold smaller, sizeOf.
      by rewrite greater_opp. }
    rewrite <- Hrank in Hacc, Hspeed, Hsize.
    eexists _, _, _. split; [exact Hacc |]. split; [exact Ha |].
    split; [exact Hspeed |]. split; [exact Hs |].
    split; [exact Hsize |]. split; [exact Hz |]. split; [exact Ho |].
    intros r Hr Hsucc.
    assert (Hin : r ∈ ranking c).
    { pose proof (sort_Permutation rankCompare rankCompare_antisym
                    (filter (fun r => r_success r = true) results)) as Hp.
      unfold compareStrategies in Hc.
      destruct (sort rankCompare _) as [| b os] eqn:Hsort; [discriminate |].
      injection Hc as <-. cbn [ranking]. rewrite Hp.
      apply list_elem_of_filter. by split. }
    destruct Hacc as (_ & _ & Hmax & _). destruct Hspeed as (_ & _ & Hmin & _).
    destruct Hsize as (_ & _ & Hsmall & _).
    specialize (Hmax r Hin). specialize (Hmin r Hin). specialize (Hsmall r Hin).
    cbv beta in Hmin, Hsmall. repeat split; lra.
  - eexists. split; [vm_compute; reflexivity |]. by split.
Qed.

Lemma winners_are_best_witness :
  (exists a s z,
     firstMax accuracyOf [resultA; resultB; resultC] a
     /\ "C" = r_strategyId a
     /\ firstMax (fun r => - timeOf r)%Q [resultA; resultB; resultC] s
     /\ "A" = r_strategyId s
     /\ firstMax (fun r => - sizeOf r)%Q [resultA; resultB; resultC] z
     /\ "A" = r_strategyId z
     /\ "A" = r_strategyId resultA
     /\ forall r, r ∈ [resultA; resultB; resultC] -> r_success r = true ->
                  (accuracyOf r <= accuracyOf a)%Q
                  /\ (timeOf s <= timeOf r)%Q
                  /\ (sizeOf z <= sizeOf r)%Q)
  /\ exists c',
       compareStrategies [resultA; resultB; resultC] = inr c'
       /\ overallWinner (analysis c') = "A"
       /\ accuracyWinner (analysis c') = "C".
Proof.
  apply (winners_are_best [resultA; resultB; resultC]
           {| best := resultA;
              ranking := [resultA; resultB; resultC];
              analysis := {| accuracyWinner := "C"; speedWinner := "A";
                             sizeWinner := "A"; overallWinner := "A" |} |}).
  vm_compute. reflexivity.
Defined.

(** ** Ranking a ranking *)



Lemma filter_all {T} (P : T -> Prop) `{forall x, Decision (P x)} (l : list T) :
  Forall P l -> filter P l = l.
Proof.
  induction 1 as [| x l Hx _ IH]; [reflexivity |].
  by rewrite filter_cons_True, IH.
Qed.



(** ** The agents *)

Lemma atRest_new : atRest BaseAgent.new.
Proof.
  split; [by left |]. split; [discriminate |].
  intros _ task H. by apply elem_of_nil in H.
Qed.

Ltac in_log :=
  rewrite ?elem_of_app, ?list_elem_of_singleton in *;
  first [ tauto | intuition discriminate | intuition congruence ].

Lemma call_atRest c a : atRest a -> atRest (BaseAgent.call c a).
Proof.
  unfold atRest. destruct a as [st ini tr hc]. cbn. intros (Hst & Hinit & Hexec).
  destruct c as [oi | oi oe task | oc]; cbn.
  - unfold BaseAgent.initialize, BaseAgent.initializeEnter. cbn.
    destruct ini; cbn; [by repeat split |].
    destruct oi as [[] | e]; cbn.
    + split; [by left |]. split; [intros _ | discriminate]. in_log.
    + split; [by right |]. split; [discriminate | intros _ task].
      specialize (Hexec eq_refl task). in_log.
  - unfold BaseAgent.execute, BaseAgent.initialize, BaseAgent.initializeEnter. cbn.
    destruct ini; cbn.
    + specialize (Hinit eq_refl).
      destruct oe as [r | e]; cbn;
        (split; [by (left + right) |]); (split; [intros _ | discriminate]); in_log.
    + destruct oi as [[] | e]; cbn.
      * destruct oe as [r | e]; cbn;
          (split; [by (left + right) |]); (split; [intros _ | discriminate]); in_log.
      * split; [by right |]. split; [discriminate | intros _ task'].
        specialize (Hexec eq_refl task'). in_log.
  - unfold BaseAgent.cleanup. destruct oc as [[] | e]; cbn.
    + split; [by left |]. split.
      * intros H. specialize (Hinit H). in_log.
      * intros H task. specialize (Hexec H task). in_log.
    + split; [exact Hst |]. split.
      * intros H. specialize (Hinit H). in_log.
      * intros H task. specialize (Hexec H task). in_log.
Qed.

(** X15: between calls an agent is idle or in error, whatever calls of
    [initialize], [execute] and [cleanup] were made on it and however
    their hooks settled: the statuses 'initializing', 'active' and
    'completed' are only seen while a call is under way.  If the agent
    counts as initialized, [onInitialize] has been called; as long as it
    does not, [onExecute] never has. *)
Theorem agent_at_rest cs : atRest (BaseAgent.calls cs BaseAgent.new).
Proof.
  unfold BaseAgent.calls.
  assert (H : forall a, atRest a ->
                        atRest (fold_left (fun a c => BaseAgent.call c a) cs a)).
  { induction cs as [| c cs IH]; intros a Ha; [exact Ha |].
    simpl. apply IH. by apply call_atRest. }
  apply H, atRest_new.
Qed.

Lemma call_initialized c a :
  BaseAgent.initialized a = true ->
  BaseAgent.initialized (BaseAgent.call c a) = true
  /\ exists hs,
       BaseAgent.hookCalls (BaseAgent.call c a) = BaseAgent.hookCalls a ++ hs
       /\ BaseAgent.OnInitialize ∉ hs.
Proof.
  intros Hi. destruct c as [oi | oi oe task | oc]; simpl.
  - unfold BaseAgent.initialize, BaseAgent.initializeEnter. rewrite Hi. simpl.
    split; [exact Hi |]. exists []. rewrite app_nil_r. split; [reflexivity |].
    apply not_elem_of_nil.
  - unfold BaseAgent.execute. rewrite Hi. simpl.
    destruct oe as [r | e]; simpl; (split; [exact Hi |]);
      exists [BaseAgent.OnExecute task]; (split; [reflexivity |]);
      intros H; by apply list_elem_of_singleton in H.
  - unfold BaseAgent.cleanup.
    destruct oc as [[] | e]; simpl; (split; [exact Hi |]);
      exists [BaseAgent.OnCleanup]; (split; [reflexivity |]);
      intros H; by apply list_elem_of_singleton in H.
Qed.

(** X16: once an agent counts as initialized it stays so, through
    every later call, also a [cleanup] and a failing [execute], and
    [onInitialize] is never called again: an [execute] after a [cleanup]
    goes straight to [onExecute]. *)
Theorem initialized_for_good cs a :
  BaseAgent.initialized a = true ->
  BaseAgent.initialized (BaseAgent.calls cs a) = true
  /\ exists hs,
       BaseAgent.hookCalls (BaseAgent.calls cs a) = BaseAgent.hookCalls a ++ hs
       /\ BaseAgent.OnInitialize ∉ hs.
Proof.
  unfold BaseAgent.calls. revert a.
  induction cs as [| c cs IH]; intros a Hi; simpl.
  - split; [exact Hi |]. exists []. rewrite app_nil_r. split; [reflexivity |].
    apply not_elem_of_nil.
  - destruct (call_initialized c a Hi) as (Hi' & hs & Hh & Hno).
    destruct (IH _ Hi') as (Hi'' & hs' & Hh' & Hno').
    split; [exact Hi'' |]. exists (hs ++ hs').
    rewrite Hh', Hh, <- app_assoc. split; [reflexivity |].
    intros H. apply elem_of_app in H as [H | H]; tauto.
Qed.

Lemma initialized_for_good_witness :
  BaseAgent.initialized
    (BaseAgent.calls
       [BaseAgent.Cleanup (resolves tt);
        BaseAgent.Execute (rejects JsOther) (resolves succeeded) (taskFor plan1 data).2]
       readyAgent) = true
  /\ exists hs,
       BaseAgent.hookCalls
         (BaseAgent.calls
            [BaseAgent.Cleanup (resolves tt);
             BaseAgent.Execute (rejects JsOther) (resolves succeeded)
               (taskFor plan1 data).2]
            readyAgent)
       = BaseAgent.hookCalls readyAgent ++ hs
       /\ BaseAgent.OnInitialize ∉ hs.
Proof.
  apply (initialized_for_good
           [BaseAgent.Cleanup (resolves tt);
            BaseAgent.Execute (rejects JsOther) (resolves succeeded)
              (taskFor plan1 data).2]
           readyAgent).
  reflexivity.
Defined.

(** X17: [execute] calls that are started on an agent that is not
    initialized, each before the [onInitialize] of the one before has
    settled (as the strategies of a batch call the one data agent), each
    call [onInitialize]: the agent is initialized once per call. *)
Theorem first_calls_initialize_each tasks a :
  BaseAgent.initialized a = false ->
  BaseAgent.hookCalls (fold_left (fun a task => BaseAgent.executeEnter task a) tasks a)
  = BaseAgent.hookCalls a ++ map (fun _ => BaseAgent.OnInitialize) tasks
  /\ BaseAgent.initialized
       (fold_left (fun a task => BaseAgent.executeEnter task a) tasks a) = false.
Proof.
  revert a. induction tasks as [| task tasks IH]; intros a Hi; simpl.
  - by rewrite app_nil_r.
  - destruct (IH (BaseAgent.executeEnter task a)) as [Hh Hi'].
    + unfold BaseAgent.executeEnter, BaseAgent.initializeEnter. by rewrite Hi.
    + split; [| exact Hi']. rewrite Hh.
      unfold BaseAgent.executeEnter, BaseAgent.initializeEnter. rewrite Hi. simpl.
      by rewrite <- app_assoc.
Qed.

Lemma first_calls_initialize_each_witness :
  BaseAgent.hookCalls
    (fold_left (fun a task => BaseAgent.executeEnter task a) threeTasks BaseAgent.new)
  = BaseAgent.hookCalls BaseAgent.new
      ++ map (fun _ => BaseAgent.OnInitialize) threeTasks
  /\ BaseAgent.initialized
       (fold_left (fun a task => BaseAgent.executeEnter task a) threeTasks
          BaseAgent.new) = false.
Proof.
  apply (first_calls_initialize_each threeTasks BaseAgent.new). reflexivity.
Defined.

(** ** The executor with the agents of the repository *)

(** The agents of the data, model and training phases turn the tasks of
    the executor away: their types are not the agents' own. *)
Lemma DataAgent_turns_away handle plan a :
  (DataAgent.execute handle (taskFor plan data).2 a).2
  = rejects (JsError "Unknown task type: preprocess").
Proof.
  unfold DataAgent.execute, BaseAgent.execute, BaseAgent.initialize,
    BaseAgent.initializeEnter.
  by destruct (BaseAgent.initialized a).
Qed.

Lemma TrainingAgent_turns_away handle plan a :
  (TrainingAgent.execute handle (taskFor plan training).2 a).2
  = rejects (JsError "Unknown task type: train").
Proof.
  unfold TrainingAgent.execute, BaseAgent.execute, BaseAgent.initialize,
    BaseAgent.initializeEnter.
  by destruct (BaseAgent.initialized a).
Qed.

Lemma ModelAgent_turns_away modelLibrary handle plan a :
  exists e, (ModelAgent.execute modelLibrary handle (taskFor plan model).2 a).2
            = rejects e.
Proof.
  unfold ModelAgent.execute, BaseAgent.execute, BaseAgent.initialize,
    BaseAgent.initializeEnter.
  destruct (BaseAgent.initialized a); simpl; [by eexists |].
  destruct modelLibrary as [[] | e]; simpl; by eexists.
Qed.

Lemma outcomeOf_turnedAway handle modelLibrary state env plan :
  outcomeOf (withRepositoryAgents handle modelLibrary state env) plan
  = turnedAway plan.
Proof.
  unfold outcomeOf.
  destruct (executeSingleStrategy_sequentialRun
              (withRepositoryAgents handle modelLibrary state env) plan 0 emptyWorld)
    as (-> & _).
  unfold sequentialRun. cbn [agentExecute withRepositoryAgents].
  by rewrite DataAgent_turns_away.
Qed.

Lemma compareStrategies_turnedAway plans :
  compareStrategies (map turnedAway plans)
  = inl (JsError "No successful strategies to compare").
Proof.
  unfold compareStrategies.
  assert (H : filter (fun r => r_success r = true) (map turnedAway plans) = []).
  { induction plans as [| plan plans IH]; [reflexivity |]. simpl.
    by rewrite filter_cons_False. }
  by rewrite H.
Qed.

Lemma uptoFirstHit_turnedAway plans :
  uptoFirstHit (map turnedAway plans) = map turnedAway plans.
Proof.
  induction plans as [| plan plans IH]; [reflexivity |]. simpl. by rewrite IH.
Qed.

(** X18: with the repository's own agents the executor gets nothing
    done.  The data agent accepts tasks of type 'process_data' only and
    the executor sends 'preprocess' (the model and training agents would
    turn their tasks away as well), so every strategy ends in the data
    phase with the failure 'Unknown task type: preprocess', having called
    the data agent and no other; [executeStrategies] returns that failure
    for every plan, whatever the options, and [compareStrategies] on its
    results throws. *)
Theorem repository_agents_turn_every_task_away
    handle modelLibrary state env schedules plans options w :
  1 <= default 3 (maxConcurrent options) ->
  (forall plan timeout w0,
     let run := executeSingleStrategy
                  (withRepositoryAgents handle modelLibrary state env)
                  plan timeout w0 in
     run.2 = Fulfilled (turnedAway plan)
     /\ invocations run.1 = invocations w0 ++ [taskFor plan data]
     /\ events run.1
        = events w0 ++ [startEvent plan; runningEvent data plan;
                        failedEvent plan "Unknown task type: preprocess"])
  /\ (exists w',
        executeStrategies (withRepositoryAgents handle modelLibrary state env)
          schedules plans options w
        = Some (w', map turnedAway plans))
  /\ compareStrategies (map turnedAway plans)
     = inl (JsError "No successful strategies to compare")
  /\ forall plan a,
       (exists e, (ModelAgent.execute modelLibrary (handle model)
                     (taskFor plan model).2 a).2 = rejects e)
       /\ (TrainingAgent.execute (handle training) (taskFor plan training).2 a).2
          = rejects (JsError "Unknown task type: train").
Proof.
  intros Hbs. split; [| split; [| split]].
  - intros plan timeout w0 run. subst run.
    destruct (executeSingleStrategy_sequentialRun
                (withRepositoryAgents handle modelLibrary state env) plan timeout w0)
      as (-> & -> & ->).
    unfold sequentialRun. cbn [agentExecute withRepositoryAgents].
    by rewrite DataAgent_turns_away.
  - destruct (executeStrategies_results
                (withRepositoryAgents handle modelLibrary state env)
                schedules plans options w Hbs) as (w' & ->).
    exists w'. do 2 f_equal.
    rewrite (map_ext _ turnedAway (outcomeOf_turnedAway handle modelLibrary state env)).
    destruct (default false (earlyStopOnSuccess options));
      [apply uptoFirstHit_turnedAway | reflexivity].
  - apply compareStrategies_turnedAway.
  - intros plan a. split;
      [apply ModelAgent_turns_away | apply TrainingAgent_turns_away].
Qed.

Lemma repository_agents_turn_every_task_away_witness :
  (forall plan timeout w0,
     let run := executeSingleStrategy
                  (withRepositoryAgents (fun _ _ => resolves succeeded) (resolves tt)
                     (fun _ _ => BaseAgent.new) envAllSucceed)
                  plan timeout w0 in
     run.2 = Fulfilled (turnedAway plan)
     /\ invocations run.1 = invocations w0 ++ [taskFor plan data]
     /\ events run.1
        = events w0 ++ [startEvent plan; runningEvent data plan;
                        failedEvent plan "Unknown task type: preprocess"])
  /\ (exists w',
        executeStrategies
          (withRepositoryAgents (fun _ _ => resolves succeeded) (resolves tt)
             (fun _ _ => BaseAgent.new) envAllSucceed)
          [] fourPlans twoAtATimeStopEarly emptyWorld
        = Some (w', map turnedAway fourPlans))
  /\ compareStrategies (map turnedAway fourPlans)
     = inl (JsError "No successful strategies to compare")
  /\ forall plan a,
       (exists e, (ModelAgent.execute (resolves tt) (fun _ => resolves succeeded)
                     (taskFor plan model).2 a).2 = rejects e)
       /\ (TrainingAgent.execute (fun _ => resolves succeeded)
             (taskFor plan training).2 a).2
          = rejects (JsError "Unknown task type: train").
Proof.
  apply (repository_agents_turn_every_task_away (fun _ _ => resolves succeeded)
           (resolves tt) (fun _ _ => BaseAgent.new) envAllSucceed [] fourPlans
           twoAtATimeStopEarly emptyWorld).
  simpl. lia.
Defined.

(** ** Initializing the executor *)

Section Initialize.

Variable onInitialize : nat -> Settles unit.
Variable agents : list BaseAgent.Agent.

(** While the hooks settle: every agent is where its [initialize] has
    left it, at its [await] or at its end; a rejection that was seen is
    the hook's of an agent that was not initialized; with none seen, the
    hooks of the agents at their end have resolved. *)
Let settling (st : list (BaseAgent.Agent * bool) * option Thrown) : Prop :=
  length st.1 = length agents
  /\ (forall i a, agents !! i = Some a ->
        st.1 !! i = Some (BaseAgent.initializeEnter a)
        \/ st.1 !! i = Some (initializedAlone onInitialize i a, false))
  /\ (forall e, st.2 = Some e ->
        exists i a, agents !! i = Some a /\ BaseAgent.initialized a = false
                    /\ onInitialize i = rejects e)
  /\ (st.2 = None ->
      forall i a, agents !! i = Some a -> BaseAgent.initialized a = false ->
                  st.1 !! i = Some (initializedAlone onInitialize i a, false) ->
                  exists u, onInitialize i = resolves u).

Lemma initializedAlone_pending a i :
  BaseAgent.initialized a = false ->
  BaseAgent.initializeEnter a <> (initializedAlone onInitialize i a, false).
Proof.
  intros Hi. unfold BaseAgent.initializeEnter. rewrite Hi. by intros [=].
Qed.

Lemma initializedAlone_ready a i :
  BaseAgent.initialized a = true ->
  BaseAgent.initializeEnter a = (initializedAlone onInitialize i a, false).
Proof.
  intros Hi. unfold initializedAlone, BaseAgent.initialize,
    BaseAgent.initializeEnter. by rewrite Hi.
Qed.

Lemma settling_start : settling (map BaseAgent.initializeEnter agents, None).
Proof.
  unfold settling. cbn [fst snd].
  split; [by rewrite length_map |]. split; [| split; [discriminate |]].
  - intros i a Hi. left. cbn [fst].
    change (map ?f ?l) with (f <$> l). by rewrite list_lookup_fmap, Hi.
  - intros _ i a Hi Hinit Hs. cbn [fst] in Hs.
    change (map ?f ?l) with (f <$> l) in Hs.
    rewrite list_lookup_fmap, Hi in Hs. injection Hs as Hs.
    by destruct (initializedAlone_pending a i Hinit).
Qed.

Lemma settleAt_settling i st :
  settling st ->
  settling (settleAt onInitialize i st)
  /\ (forall a, agents !! i = Some a ->
        (settleAt onInitialize i st).1 !! i
        = Some (initializedAlone onInitialize i a, false))
  /\ (forall j x, (st.1 !! j = Some (x, false)) ->
                  (settleAt onInitialize i st).1 !! j = Some (x, false))
  /\ (forall e, st.2 = Some e -> (settleAt onInitialize i st).2 = Some e)
  /\ (forall a e, st.2 = None -> st.1 !! i = Some (a, true) ->
                  onInitialize i = rejects e ->
                  (settleAt onInitialize i st).2 = Some e).
Proof.
  destruct st as [ps first]. unfold settling at 1.
  intros (Hlen & Hat & Hrej & Hres). cbn [fst snd] in *.
  unfold settleAt. cbn [fst snd].
  destruct (ps !! i) as [[a1 [|]] |] eqn:Hi.
  - (* the agent was at its await *)
    assert (Hagent : exists a, agents !! i = Some a /\ BaseAgent.initialized a = false
                               /\ a1 = (BaseAgent.initializeEnter a).1).
    { destruct (lookup_lt_is_Some_2 agents i) as [a Ha].
      { rewrite <- Hlen. by eapply lookup_lt_Some. }
      exists a. split; [exact Ha |].
      destruct (Hat i a Ha) as [H | H]; rewrite Hi in H; [| discriminate].
      injection H as H. unfold BaseAgent.initializeEnter in *.
      destruct (BaseAgent.initialized a); [discriminate |]. split; [reflexivity |].
      by injection H as ->. }
    destruct Hagent as (a & Ha & Hinit & ->).
    assert (Hleave : (BaseAgent.initializeLeave (onInitialize i)
                        (BaseAgent.initializeEnter a).1).1
                     = initializedAlone onInitialize i a).
    { unfold initializedAlone, BaseAgent.initialize, BaseAgent.initializeEnter.
      by rewrite Hinit. }
    assert (Hr : (BaseAgent.initializeLeave (onInitialize i)
                    (BaseAgent.initializeEnter a).1).2
                 = match onInitialize i with
                   | resolves _ => resolves tt
                   | rejects e => rejects e
                   end).
    { unfold BaseAgent.initializeLeave. by destruct (onInitialize i) as [[] | e]. }
    destruct (BaseAgent.initializeLeave (onInitialize i)
                (BaseAgent.initializeEnter a).1) as [a' r].
    cbn [fst snd] in *. subst a' r.
    pose proof (lookup_lt_Some _ _ _ Hi) as Hlt.
    split; [| split; [| split; [| split]]].
    + unfold settling. cbn [fst snd]. split; [by rewrite length_insert |].
      split; [| split].
      * intros j b Hj. destruct (decide (j = i)) as [-> | Hne].
        -- right. rewrite list_lookup_insert_eq by exact Hlt. congruence.
        -- rewrite list_lookup_insert_ne by done. by apply Hat.
      * intros e He. destruct first as [e0 |].
        -- by apply Hrej.
        -- destruct (onInitialize i) as [[] | e'] eqn:Ho; [discriminate |].
           injection He as <-. by exists i, a.
      * intros Hnone j b Hj Hjinit Hs.
        destruct first as [e0 |]; [discriminate |].
        destruct (onInitialize i) as [u | e'] eqn:Ho; [| discriminate].
        destruct (decide (j = i)) as [-> | Hne]; [by exists u |].
        rewrite list_lookup_insert_ne in Hs by done. by apply (Hres eq_refl j b).
    + intros b Hb. rewrite list_lookup_insert_eq by exact Hlt. congruence.
    + intros j x Hj. destruct (decide (j = i)) as [-> | Hne]; [congruence |].
      by rewrite list_lookup_insert_ne.
    + intros e ->. reflexivity.
    + intros b e -> Hb Ho. by rewrite Ho.
  - (* the agent's [initialize] had ended *)
    split; [by unfold settling |]. split; [| by repeat split; try congruence].
    intros a Ha. cbn [fst snd]. destruct (Hat i a Ha) as [H | H]; [| exact H].
    rewrite H in Hi. injection Hi as Hi. rewrite H. f_equal.
    destruct (BaseAgent.initialized a) eqn:Hinit;
      [by apply initializedAlone_ready |].
    unfold BaseAgent.initializeEnter in Hi. rewrite Hinit in Hi. discriminate.
  - split; [by unfold settling |]. split; [| by repeat split; try congruence].
    intros a Ha. apply lookup_ge_None_1 in Hi.
    apply lookup_lt_Some in Ha. lia.
Qed.

Lemma settleAll_settling order st :
  settling st ->
  settling (fold_left (fun st i => settleAt onInitialize i st) order st)
  /\ (forall j x, st.1 !! j = Some (x, false) ->
        (fold_left (fun st i => settleAt onInitialize i st) order st).1 !! j
        = Some (x, false))
  /\ (forall i a, i ∈ order -> agents !! i = Some a ->
        (fold_left (fun st i => settleAt onInitialize i st) order st).1 !! i
        = Some (initializedAlone onInitialize i a, false))
  /\ (forall e, st.2 = Some e ->
        (fold_left (fun st i => settleAt onInitialize i st) order st).2 = Some e).
Proof.
  revert st. induction order as [| i order IH]; intros st Hst; simpl.
  - split; [exact Hst |]. split; [done |]. split; [| done].
    intros j a Hj. by apply elem_of_nil in Hj.
  - destruct (settleAt_settling i st Hst) as (Hst' & Hi & Hkeep & Hfirst & _).
    destruct (IH _ Hst') as (Hend & Hkeep' & Hall & Hfirst').
    split; [exact Hend |]. split; [| split].
    + intros j x Hj. by apply Hkeep', Hkeep.
    + intros j a Hj Ha. apply elem_of_cons in Hj as [-> | Hj].
      * by apply Hkeep', Hi.
      * by apply Hall.
    + intros e He. by apply Hfirst', Hfirst.
Qed.

(** The run of [initialize]: the state when every hook has settled. *)
Lemma initialize_settled order :
  exists settled first,
    fold_left (fun st i => settleAt onInitialize i st)
      (order ++ seq 0 (length agents))
      (map BaseAgent.initializeEnter agents, None) = (settled, first)
    /\ settling (settled, first)
    /\ map fst settled = imap (initializedAlone onInitialize) agents.
Proof.
  destruct (settleAll_settling (order ++ seq 0 (length agents)) _ settling_start)
    as (Hend & _ & Hall & _).
  destruct (fold_left _ _ _) as [settled first].
  exists settled, first. split; [reflexivity |]. split; [exact Hend |].
  destruct Hend as (Hlen & _). cbn [fst snd] in *.
  apply list_eq. intros i.
  change (map fst settled) with (fst <$> settled).
  rewrite list_lookup_fmap, list_lookup_imap.
  destruct (agents !! i) as [a |] eqn:Ha; simpl.
  - rewrite (Hall i a); [reflexivity | | exact Ha].
    apply elem_of_app. right. apply elem_of_seq.
    apply lookup_lt_Some in Ha. lia.
  - apply lookup_ge_None_1 in Ha.
    rewrite (lookup_ge_None_2 settled i); [reflexivity | lia].
Qed.

(** X19: [ParallelExecutor.initialize] leaves every agent as its own
    [initialize] leaves it, in whatever order the hooks settle.  It
    resolves exactly when the hook of every agent that was not
    initialized resolves; else it rejects with the reason of one of
    these hooks, the first to settle if that one rejects.  The other
    agents are initialized all the same: a failed [initialize] leaves the
    executor partly initialized. *)
Theorem initialize_agents order :
  (initialize onInitialize order agents).1
  = imap (initializedAlone onInitialize) agents
  /\ ((initialize onInitialize order agents).2 = resolves tt
      <-> forall i a, agents !! i = Some a -> BaseAgent.initialized a = false ->
                      exists u, onInitialize i = resolves u)
  /\ (forall e,
        (initialize onInitialize order agents).2 = rejects e ->
        exists i a, agents !! i = Some a /\ BaseAgent.initialized a = false
                    /\ onInitialize i = rejects e)
  /\ (forall i rest a e,
        order = i :: rest -> agents !! i = Some a ->
        BaseAgent.initialized a = false -> onInitialize i = rejects e ->
        (initialize onInitialize order agents).2 = rejects e).
Proof.
  unfold initialize.
  destruct (initialize_settled order) as (settled & first & Hrun & Hend & Hmap).
  split; [by rewrite Hrun |]. split; [| split].
  - rewrite Hrun. cbn [snd]. destruct Hend as (Hlen & Hat & Hrej & Hres).
    cbn [fst snd] in *. split.
    + destruct first as [e |]; [discriminate |]. intros _ i a Ha Hinit.
      apply (Hres eq_refl i a Ha Hinit).
      assert (Hi : (fst <$> settled) !! i = Some (initializedAlone onInitialize i a)).
      { change (fst <$> settled) with (map fst settled).
        by rewrite Hmap, list_lookup_imap, Ha. }
      rewrite list_lookup_fmap in Hi.
      destruct (Hat i a Ha) as [H | H]; [| exact H].
      rewrite H in Hi. simpl in Hi.
      unfold BaseAgent.initializeEnter in *. rewrite Hinit in *.
      exfalso. injection Hi as Hi.
      unfold initializedAlone, BaseAgent.initialize, BaseAgent.initializeEnter in Hi.
      rewrite Hinit in Hi.
      apply (f_equal BaseAgent.transitions) in Hi. revert Hi.
      destruct (onInitialize i) as [[] | e]; cbn; intros Hi;
        apply (f_equal length) in Hi; rewrite !length_app in Hi; simpl in Hi; lia.
    + intros Hall. destruct first as [e |]; [| reflexivity].
      destruct (Hrej e eq_refl) as (i & a & Ha & Hinit & Ho).
      destruct (Hall i a Ha Hinit) as (u & Hu). congruence.
  - rewrite Hrun. cbn [snd]. intros e He.
    destruct Hend as (_ & _ & Hrej & _). cbn [snd] in Hrej.
    destruct first as [e' |]; [| discriminate]. injection He as <-.
    by apply Hrej.
  - intros i rest a e -> Ha Hinit Ho. rewrite Hrun. cbn [app fold_left] in Hrun.
    destruct (settleAt_settling i _ settling_start) as (Hst' & _ & _ & _ & Hfirst).
    specialize (Hfirst (BaseAgent.initializeEnter a).1 e eq_refl).
    cbn [fst] in Hfirst.
    assert (Hlk : map BaseAgent.initializeEnter agents !! i
                  = Some ((BaseAgent.initializeEnter a).1, true)).
    { change (map ?f ?l) with (f <$> l). rewrite list_lookup_fmap, Ha. simpl.
      unfold BaseAgent.initializeEnter. by rewrite Hinit. }
    specialize (Hfirst Hlk Ho).
    destruct (settleAll_settling (rest ++ seq 0 (length agents)) _ Hst')
      as (_ & _ & _ & Hkeep).
    specialize (Hkeep e Hfirst). rewrite Hrun in Hkeep. cbn [snd] in Hkeep.
    by rewrite Hkeep.
Qed.

End Initialize.

Lemma initialize_agents_witness :
  (initialize thirdRejects [4; 2; 0] fiveAgents).1
  = imap (initializedAlone thirdRejects) fiveAgents
  /\ ((initialize thirdRejects [4; 2; 0] fiveAgents).2 = resolves tt
      <-> forall i a, fiveAgents !! i = Some a -> BaseAgent.initialized a = false ->
                      exists u, thirdRejects i = resolves u)
  /\ (forall e,
        (initialize thirdRejects [4; 2; 0] fiveAgents).2 = rejects e ->
        exists i a, fiveAgents !! i = Some a /\ BaseAgent.initialized a = false
                    /\ thirdRejects i = rejects e)
  /\ (forall i rest a e,
        [4; 2; 0] = i :: rest -> fiveAgents !! i = Some a ->
        BaseAgent.initialized a = false -> thirdRejects i = rejects e ->
        (initialize thirdRejects [4; 2; 0] fiveAgents).2 = rejects e).
Proof. apply (initialize_agents thirdRejects fiveAgents [4; 2; 0]). Defined.

(** * The response generator *)

(** ** The comparison table *)

Lemma StronglySorted_pairwise {T} (R : T -> T -> Prop) l :
  StronglySorted R l -> pairwise R l.
Proof.
  induction 1 as [| x l Hs IH Hx]; intros i j a b Hij Ha Hb; [done |].
  destruct j as [| j]; [lia |]. simpl in Hb.
  destruct i as [| i]; simpl in Ha.
  - injection Ha as <-. rewrite Forall_forall in Hx.
    apply Hx. by eapply list_elem_of_lookup_2.
  - apply (IH i j); [lia | done | done].
Qed.

Lemma byAccuracy_antisym a b : (byAccuracy b a == - byAccuracy a b)%Q.
Proof. unfold byAccuracy. ring. Qed.

(** X20: the rows of the comparison table are the successful results,
    every row at least as accurate as all rows below it.  The table is
    ordered by accuracy alone, the ranking of [compareStrategies] is not:
    for [resultA], [resultB], [resultC] the best strategy is "A", and its
    row, the one with the winner's mark, is the last of the table. *)
Theorem table_rows_by_accuracy results :
  comparisonRows results ≡ₚ filter (fun r => r_success r = true) results
  /\ pairwise (fun a b => (accuracyOf b <= accuracyOf a)%Q) (comparisonRows results)
  /\ exists c,
       compareStrategies [resultA; resultB; resultC] = inr c
       /\ best c = resultA
       /\ comparisonRows [resultA; resultB; resultC] = [resultC; resultB; resultA]
       /\ map (isWinner (best c)) (comparisonRows [resultA; resultB; resultC])
          = [false; false; true].
Proof.
  split; [apply (sort_Permutation byAccuracy byAccuracy_antisym) |]. split.
  - pose proof (sort_Sorted byAccuracy byAccuracy_antisym
                  (filter (fun r => r_success r = true) results)) as Hs.
    apply Sorted_StronglySorted in Hs.
    + intros i j a b Hij Ha Hb.
      pose proof (StronglySorted_pairwise _ _ Hs i j a b Hij Ha Hb) as Hab.
      unfold byAccuracy, accuracyOf in *. simpl in Hab. lra.
    + intros a b c Hab Hbc. unfold byAccuracy in *. lra.
  - eexists. split; [vm_compute; reflexivity |]. by vm_compute.
Qed.

(** ** The recommendations *)

Lemma accuracyAdvice_length bestStrategy :
  (length (accuracyAdvice bestStrategy) = 1
   /\ (90 # 100 <= m_accuracy (finalMetrics bestStrategy))%Q)
  \/ (length (accuracyAdvice bestStrategy) = 2
      /\ (m_accuracy (finalMetrics bestStrategy) < 90 # 100)%Q).
Proof.
  unfold accuracyAdvice.
  destruct (Qle_bool (95 # 100) _) eqn:H95.
  - left. split; [reflexivity |]. apply Qle_bool_iff in H95. lra.
  - destruct (Qle_bool (90 # 100) _) eqn:H90.
    + left. split; [reflexivity |]. by apply Qle_bool_iff in H90.
    + right. split; [reflexivity |]. apply Qnot_le_lt. intros H.
      apply Qle_bool_iff in H. congruence.
Qed.

Lemma speedAdvice_length tx results bestStrategy :
  length (speedAdvice tx results bestStrategy) <= 1.
Proof.
  unfold speedAdvice. destruct (sort byTrainingTime _) as [| f rest]; [simpl; lia |].
  case_bool_decide; [| simpl; lia]. destruct (exceeds _ 2); simpl; lia.
Qed.

Lemma sizeAdvice_length bestStrategy :
  (sizeAdvice bestStrategy = []
   /\ ~ (50 < m_modelSize (finalMetrics bestStrategy))%Q)
  \/ (sizeAdvice bestStrategy
      = ["Consider model compression techniques for deployment."]
      /\ (50 < m_modelSize (finalMetrics bestStrategy))%Q).
Proof.
  unfold sizeAdvice. destruct (greater _ 50) eqn:H.
  - right. split; [reflexivity |]. by apply greater_spec.
  - left. split; [reflexivity |]. intros Hlt. apply greater_spec in Hlt. congruence.
Qed.

(** X21: [generateRecommendations] returns one to three texts: the
    accuracy advice (one text, or two below an accuracy of 0.90), the
    speed advice if there is one, the size advice if the model is larger
    than 50.  Only one combination is cut by the [slice(0, 3)]: below 0.90
    with a speed advice and a model larger than 50 the size advice is
    left out, as for [heavyResult], which is told nothing of its size of
    58. *)
Theorem recommendations_cut tx results bestStrategy :
  let every :=
    accuracyAdvice bestStrategy ++ speedAdvice tx results bestStrategy
    ++ sizeAdvice bestStrategy in
  1 <= length (generateRecommendations tx results bestStrategy) <= 3
  /\ (length every <= 3 -> generateRecommendations tx results bestStrategy = every)
  /\ (3 < length every
      <-> (m_accuracy (finalMetrics bestStrategy) < 90 # 100)%Q
          /\ speedAdvice tx results bestStrategy <> []
          /\ (50 < m_modelSize (finalMetrics bestStrategy))%Q)
  /\ (3 < length every ->
      generateRecommendations tx results bestStrategy
      = accuracyAdvice bestStrategy ++ speedAdvice tx results bestStrategy)
  /\ generateRecommendations plainTexts [heavyResult; quickResult] heavyResult
     = ["Consider collecting more diverse training data.";
        "Try ensemble methods or deeper architectures.";
        "quick is 3.0x faster with 3.0% accuracy"].
Proof.
  intros every. subst every. unfold generateRecommendations.
  pose proof (accuracyAdvice_length bestStrategy) as Ha.
  pose proof (speedAdvice_length tx results bestStrategy) as Hs.
  pose proof (sizeAdvice_length bestStrategy) as Hz.
  set (a := accuracyAdvice bestStrategy) in *.
  set (s := speedAdvice tx results bestStrategy) in *.
  set (z := sizeAdvice bestStrategy) in *.
  assert (Hzl : length z <= 1) by (destruct Hz as [[-> _] | [-> _]]; simpl; lia).
  split; [| split; [| split; [| split]]].
  - rewrite length_take, !length_app. destruct Ha as [[-> _] | [-> _]]; lia.
  - intros H. by apply take_ge.
  - rewrite !length_app. split.
    + intros H. destruct Ha as [[Hl _] | [Hl Hacc]]; [lia |].
      split; [exact Hacc |]. split.
      * intros Hnil. rewrite Hnil in H. simpl in H. lia.
      * destruct Hz as [[Hnil _] | [_ Hbig]]; [| exact Hbig].
        rewrite Hnil in H. simpl in H. lia.
    + intros (Hacc & Hsp & Hbig).
      destruct Ha as [[_ Hge] | [-> _]]; [lra |].
      destruct Hz as [[_ Hsmall] | [-> _]]; [tauto |].
      destruct s as [| x s']; [done |]. simpl. lia.
  - rewrite !length_app. intros H.
    destruct Ha as [[Hl _] | [Hl _]]; [lia |].
    assert (Hsl : length s = 1) by lia.
    rewrite app_assoc. apply take_app_length'. rewrite length_app. lia.
  - by vm_compute.
Qed.

(** ** The progress bar *)

Lemma Qfloor_nonneg x : (0 <= Qfloor x)%Z <-> (0 <= x)%Q.
Proof.
  split; intros H.
  - pose proof (Qfloor_le x) as Hle.
    assert (0 <= inject_Z (Qfloor x))%Q by (rewrite <- (Zle_Qle 0); exact H).
    lra.
  - change 0%Z with (Qfloor 0). by apply Qfloor_resp_le.
Qed.

Lemma Qfloor_le_iff x (n : Z) : (Qfloor x <= n)%Z <-> (x < inject_Z (n + 1))%Q.
Proof.
  split; intros H.
  - pose proof (Qlt_floor x) as Hlt.
    assert (inject_Z (Qfloor x + 1) <= inject_Z (n + 1))%Q
      by (rewrite <- Zle_Qle; lia).
    lra.
  - pose proof (Qfloor_le x) as Hle.
    assert (inject_Z (Qfloor x) < inject_Z (n + 1))%Q as Hlt by lra.
    rewrite <- Zlt_Qlt in Hlt. lia.
Qed.

Lemma createProgressBar_returns env progress :
  (exists bar, createProgressBar env progress = inr bar)
  <-> (0 <= progress)%Q /\ (progress < 110)%Q.
Proof.
  unfold createProgressBar, repeatString.
  pose proof (Qfloor_nonneg (progress / 10)) as H0.
  pose proof (Qfloor_le_iff (progress / 10) 10) as H1.
  change (inject_Z (10 + 1)) with 11%Q in H1.
  assert (Heq : (progress == progress / 10 * 10)%Q) by field.
  assert (Hdiv0 : (0 <= progress / 10)%Q <-> (0 <= progress)%Q).
  { set (y := (progress / 10)%Q) in *. split; intros H; lra. }
  assert (Hdiv1 : (progress / 10 < 11)%Q <-> (progress < 110)%Q).
  { set (y := (progress / 10)%Q) in *. split; intros H; lra. }
  clear Heq.
  destruct (Z.ltb_spec (Qfloor (progress / 10)) 0) as [Hneg | Hpos].
  - split; [by intros [bar ?] |]. intros [Hp _]. apply Hdiv0, H0 in Hp. lia.
  - destruct (Z.ltb_spec (10 - Qfloor (progress / 10)) 0) as [Hbig | Hfit].
    + split; [by intros [bar ?] |]. intros [_ Hp]. apply Hdiv1, H1 in Hp. lia.
    + split; [intros _ | by eexists]. split.
      * by apply Hdiv0, H0.
      * apply Hdiv1, H1. lia.
Qed.

Lemma progress_update_returns_aux env phase progress message verbosity :
  (exists text,
     generateProgressUpdate env phase progress message verbosity = inr text)
  <-> verbosity = Some minimal \/ ((0 <= progress)%Q /\ (progress < 110)%Q).
Proof.
  unfold generateProgressUpdate.
  pose proof (createProgressBar_returns env progress) as Hbar.
  destruct verbosity as [[| |] |]; simpl.
  - split; [by left | by eexists].
  - destruct (createProgressBar env progress) as [e | bar].
    + split; [by intros [? ?] |]. intros [? | H]; [done |].
      apply Hbar in H as [? ?]. done.
    + split; [intros _; right; apply Hbar; by eexists | by eexists].
  - destruct (createProgressBar env progress) as [e | bar].
    + split; [by intros [? ?] |]. intros [? | H]; [done |].
      apply Hbar in H as [? ?]. done.
    + split; [intros _; right; apply Hbar; by eexists | by eexists].
  - destruct (createProgressBar env progress) as [e | bar].
    + split; [by intros [? ?] |]. intros [? | H]; [done |].
      apply Hbar in H as [? ?]. done.
    + split; [intros _; right; apply Hbar; by eexists | by eexists].
Qed.


Lemma published_progress env plan :
  Forall (fun e => ep_progress e = 0 \/ ep_progress e = 25 \/ ep_progress e = 100)
    (published (sequentialRun env plan)).
Proof.
  pattern (sequentialRun env plan).
  lazymatch goal with |- ?P _ => set (Q := P) end.
  unfold sequentialRun. split_run; subst Q; cbv beta;
    unfold caught; cbn [published app];
    repeat (constructor; [simpl; tauto |]); constructor.
Qed.

(** X23: every event that a run of the executor publishes has a
    progress of 0, 25 or 100, so that [generateProgressUpdate] draws it,
    at any verbosity. *)
Theorem executor_events_render env plan timeout w verbosity :
  exists es,
    events (executeSingleStrategy env plan timeout w).1 = events w ++ es
    /\ Forall (fun e =>
                 (ep_progress e = 0 \/ ep_progress e = 25 \/ ep_progress e = 100)
                 /\ exists text,
                      generateProgressUpdate env (ep_phase e) (progressOf e)
                        (ep_message e) verbosity = inr text) es.
Proof.
  destruct (executeSingleStrategy_sequentialRun env plan timeout w)
    as (_ & He & _).
  exists (published (sequentialRun env plan)). split; [exact He |].
  eapply Forall_impl; [apply published_progress |].
  intros e Hp. split; [exact Hp |].
  apply progress_update_returns_aux. right. unfold progressOf.
  destruct Hp as [-> | [-> | ->]]; by vm_compute.
Qed.

(** * Strategies side by side *)

(** ** What a step adds is the strategy's own *)

Lemma ownAdded_refl plan w : ownAdded plan w w [] [].
Proof. unfold ownAdded. rewrite !app_nil_r. repeat split; constructor. Qed.

Lemma ownAdded_trans plan w1 w2 w3 es cs es' cs' :
  ownAdded plan w1 w2 es cs -> ownAdded plan w2 w3 es' cs' ->
  ownAdded plan w1 w3 (es ++ es') (cs ++ cs').
Proof.
  intros (He & Hc & Hes & Hcs) (He' & Hc' & Hes' & Hcs').
  unfold ownAdded. rewrite He', He, Hc', Hc, !app_assoc.
  repeat split; by apply Forall_app.
Qed.

Lemma taskFor_own plan phase : id (taskFor plan phase).2 ∈ taskIds plan.
Proof.
  unfold taskIds, phases. destruct phase; simpl;
    rewrite !elem_of_cons; tauto.
Qed.

Lemma ownAdded_emitProgress plan e w :
  ep_strategyId e = strategyId plan -> ownAdded plan w (emitProgress e w) [e] [].
Proof.
  intros He. unfold ownAdded. simpl. rewrite app_nil_r.
  repeat split; by repeat constructor.
Qed.

Lemma ownAdded_fireTimer plan ctl w : ownAdded plan w (fireTimer ctl w) [] [].
Proof.
  unfold ownAdded. rewrite events_fireTimer, invocations_fireTimer, !app_nil_r.
  repeat split; constructor.
Qed.

Lemma ownAdded_catchBlock plan ctl e w :
  ownAdded plan w (catchBlock plan ctl e w).1 [failedEvent plan (thrownMessage e)] [].
Proof.
  unfold ownAdded. simpl. rewrite app_nil_r. repeat split; by repeat constructor.
Qed.

Lemma ownAdded_executorOf env plan at_ w :
  exists cs, ownAdded plan w (executorOf env plan at_ w).1 [] cs.
Proof.
  unfold ownAdded.
  destruct at_ as [| d | d m | d m t]; simpl.
  1-3: eexists [_]; rewrite app_nil_r; repeat split; [constructor |];
       (constructor; [| constructor]); unfold taskIds, phases; simpl;
       rewrite !elem_of_cons; tauto.
  destruct (data_ t), (data_ d); simpl.
  1: { eexists [_]. rewrite app_nil_r. repeat split; [constructor |].
       constructor; [apply (taskFor_own plan evaluation) | constructor]. }
  all: exists []; rewrite !app_nil_r; repeat split; constructor.
Qed.

Lemma ownAdded_finishStrategy env plan ctl t r w :
  exists es, ownAdded plan w (finishStrategy env plan ctl t r w).1 es [].
Proof.
  unfold finishStrategy, ownAdded.
  destruct (data_ r) as [ev |]; [destruct (data_ t) as [tr |] |]; simpl.
  - eexists [_]. rewrite app_nil_r. repeat split; by repeat constructor.
  - eexists [_; _]. rewrite app_nil_r, <- app_assoc. simpl.
    repeat split; by repeat constructor.
  - eexists [_]. rewrite app_nil_r. repeat split; by repeat constructor.
Qed.

Lemma ownAdded_enterPhase env plan ctl at_ w :
  exists es cs, ownAdded plan w (enterPhase env plan ctl at_ w).1 es cs.
Proof.
  unfold enterPhase, executePhaseEnter. destruct (aborted ctl w).
  - eexists _, _. apply ownAdded_catchBlock.
  - destruct (ownAdded_executorOf env plan at_
                (emitProgress (runningEvent (phaseOf at_) plan) w)) as (cs & H).
    destruct (executorOf env plan at_ _) as [w1 o]. cbn [fst] in *.
    eexists _, _. eapply ownAdded_trans; [| exact H].
    by apply ownAdded_emitProgress.
Qed.

Lemma ownAdded_resumeStrategy env plan ctl at_ o w :
  exists es cs, ownAdded plan w (resumeStrategy env plan ctl at_ o w).1 es cs.
Proof.
  unfold resumeStrategy.
  set (w0 := if timerFires env plan (phaseOf at_) then fireTimer ctl w else w).
  assert (H0 : ownAdded plan w w0 [] []).
  { subst w0. destruct (timerFires _ _ _);
      [apply ownAdded_fireTimer | apply ownAdded_refl]. }
  clearbody w0.
  assert (Hgo : forall w' es cs, ownAdded plan w0 w' es cs ->
                                 exists es cs, ownAdded plan w w' es cs).
  { intros w' es cs H. eexists _, _. eapply ownAdded_trans; [exact H0 | exact H]. }
  destruct o as [result | e]; cbn [executePhaseLeave].
  2: { eapply Hgo, ownAdded_catchBlock. }
  assert (Hdone : ownAdded plan w0
                    (emitProgress (completedEvent (phaseOf at_) plan) w0)
                    [completedEvent (phaseOf at_) plan] [])
    by (by apply ownAdded_emitProgress).
  destruct at_ as [| d | d m | d m t]; cbn [phaseOf] in *;
    try (destruct (success result); cbn [negb];
         [ lazymatch goal with
           | |- context [enterPhase env plan ctl ?a ?w1] =>
               destruct (ownAdded_enterPhase env plan ctl a w1) as (es & cs & H)
           end;
           eapply Hgo, ownAdded_trans; [exact Hdone | exact H]
         | eapply Hgo, ownAdded_trans; [exact Hdone | apply ownAdded_catchBlock] ]).
  destruct (ownAdded_finishStrategy env plan ctl t result
              (emitProgress (completedEvent evaluation plan) w0)) as (es & H).
  destruct (finishStrategy env plan ctl t result _) as [w2 r]. cbn [fst] in *.
  eapply Hgo, ownAdded_trans; [exact Hdone | exact H].
Qed.

Lemma ownAdded_stepStrategy env plan p w :
  exists es cs, ownAdded plan w (stepStrategy env plan p w).1 es cs.
Proof.
  destruct p as [ctl at_ o | r | e]; simpl;
    [apply ownAdded_resumeStrategy | |]; eexists _, _; apply ownAdded_refl.
Qed.

Lemma ownAdded_startStrategy env plan timeout w :
  exists es cs, ownAdded plan w (startStrategy env plan timeout w).1 es cs.
Proof.
  unfold startStrategy, newAbortController.
  match goal with
  | |- context [enterPhase env plan ?c AtData ?w1] =>
      destruct (ownAdded_enterPhase env plan c AtData w1) as (es & cs & H)
  end.
  exists ([startEvent plan] ++ es), ([] ++ cs).
  eapply ownAdded_trans; [| exact H].
  unfold ownAdded. simpl. rewrite app_nil_r.
  repeat split; [constructor; [reflexivity | constructor] | constructor].
Qed.

(** ** Telling the strategies apart *)

Lemma eventsOf_app plan es es' :
  eventsOf plan (es ++ es') = eventsOf plan es ++ eventsOf plan es'.
Proof. apply filter_app. Qed.

Lemma callsOf_app plan cs cs' :
  callsOf plan (cs ++ cs') = callsOf plan cs ++ callsOf plan cs'.
Proof. apply filter_app. Qed.

Lemma eventsOf_own plan es :
  Forall (fun e => ep_strategyId e = strategyId plan) es -> eventsOf plan es = es.
Proof. apply filter_all. Qed.

Lemma callsOf_own plan cs :
  Forall (fun c : Phase * AgentTask => id c.2 ∈ taskIds plan) cs ->
  callsOf plan cs = cs.
Proof. apply (filter_all (fun c : Phase * AgentTask => id c.2 ∈ taskIds plan)). Qed.

Lemma filter_none {T} (P : T -> Prop) `{forall x, Decision (P x)} (l : list T) :
  Forall (fun x => ~ P x) l -> filter P l = [].
Proof.
  induction 1 as [| x l Hx _ IH]; [reflexivity |].
  by rewrite filter_cons_False.
Qed.

(** The task ids of two plans meet only if the plans have the same
    strategy id. *)
Lemma taskIds_disjoint plan plan' x :
  x ∈ taskIds plan -> x ∈ taskIds plan' -> strategyId plan = strategyId plan'.
Proof.
  unfold taskIds, phases. simpl. rewrite !elem_of_cons, !elem_of_nil.
  intros [-> | [-> | [-> | [-> | []]]]] [H | [H | [H | [H | []]]]];
    simpl in H; by simplify_eq.
Qed.

Lemma eventsOf_others plan (plans : list OptimizationPlan) es :
  strategyId plan ∉ map strategyId plans ->
  Forall (fun e => exists plan',
            plan' ∈ plans /\ ep_strategyId e = strategyId plan') es ->
  eventsOf plan es = [].
Proof.
  intros Hnot Hes. apply filter_none. eapply Forall_impl; [exact Hes |].
  intros e (plan' & Hin & He) Heq. apply Hnot.
  rewrite <- Heq, He. change (map strategyId plans) with (strategyId <$> plans).
  by apply list_elem_of_fmap_2.
Qed.

Lemma callsOf_others plan (plans : list OptimizationPlan) cs :
  strategyId plan ∉ map strategyId plans ->
  Forall (fun c : Phase * AgentTask =>
            exists plan', plan' ∈ plans /\ id c.2 ∈ taskIds plan') cs ->
  callsOf plan cs = [].
Proof.
  intros Hnot Hcs.
  apply (filter_none (fun c : Phase * AgentTask => id c.2 ∈ taskIds plan)).
  eapply Forall_impl; [exact Hcs |].
  intros c (plan' & Hin & Hc) Hmine. apply Hnot.
  rewrite (taskIds_disjoint plan plan' _ Hmine Hc).
  change (map strategyId plans) with (strategyId <$> plans).
  by apply list_elem_of_fmap_2.
Qed.

Lemma ownAdded_owner plan (plans : list OptimizationPlan) w w' es cs :
  plan ∈ plans -> ownAdded plan w w' es cs ->
  Forall (fun e => exists plan',
            plan' ∈ plans /\ ep_strategyId e = strategyId plan') es
  /\ Forall (fun c : Phase * AgentTask =>
               exists plan', plan' ∈ plans /\ id c.2 ∈ taskIds plan') cs.
Proof.
  intros Hin (_ & _ & Hes & Hcs).
  split; (eapply Forall_impl; [eassumption |]); intros x Hx; by exists plan.
Qed.

(** ** A batch under any schedule: events and calls *)

(** The strategy's own step. *)
Lemma follows_step env es cs w plan p es' cs' :
  follows env es cs w (plan, p) ->
  ownAdded plan w (stepStrategy env plan p w).1 es' cs' ->
  follows env (es ++ es') (cs ++ cs') (stepStrategy env plan p w).1
    (plan, (stepStrategy env plan p w).2).
Proof.
  intros (k & Hp & He & Hc) (Hes & Hcs & Hown & Hownc). cbn [fst snd] in *.
  destruct (stepStrategy_samePoint env plan p w _ _ Hp) as [Hp' Ha].
  rewrite <- (isolated_S env plan k) in Hp', Ha.
  destruct Ha as (es0 & cs0 & He1 & Hc1 & He2 & Hc2).
  rewrite Hes in He1. apply app_inv_head in He1. subst es0.
  rewrite Hcs in Hc1. apply app_inv_head in Hc1. subst cs0.
  exists (S k). cbn [fst snd]. split; [exact Hp' |].
  rewrite eventsOf_app, callsOf_app, He, Hc, He2, Hc2.
  by rewrite (eventsOf_own plan es' Hown), (callsOf_own plan cs' Hownc).
Qed.

(** The step of another strategy. *)
Lemma follows_frame env es cs w w' pp es' cs' :
  follows env es cs w pp ->
  (forall ctl, controllerOf pp.2 = Some ctl -> view ctl w' = view ctl w) ->
  eventsOf pp.1 es' = [] -> callsOf pp.1 cs' = [] ->
  follows env (es ++ es') (cs ++ cs') w' pp.
Proof.
  intros (k & [Hs Hv] & He & Hc) Hframe Hes Hcs.
  exists k. split; [split; [exact Hs |] |].
  - destruct pp.2 as [ctl at_ o | r | e]; [| exact I | exact I].
    destruct (isolated env pp.1 k).2; [| exact I | exact I].
    rewrite Hframe by reflexivity. exact Hv.
  - by rewrite eventsOf_app, callsOf_app, Hes, Hcs, !app_nil_r.
Qed.

Lemma fst_insert (ps : list (OptimizationPlan * Promise)) i plan p p' :
  ps !! i = Some (plan, p) -> map fst (<[i := (plan, p')]> ps) = map fst ps.
Proof.
  intros Hi. change (map fst ?l) with (fst <$> l).
  rewrite list_fmap_insert. apply list_insert_id.
  by rewrite list_lookup_fmap, Hi.
Qed.

Lemma NoDup_lookup_ne (ps : list (OptimizationPlan * Promise)) i j pi pj :
  NoDup (map strategyId (map fst ps)) ->
  i <> j -> ps !! i = Some pi -> ps !! j = Some pj ->
  strategyId pi.1 <> strategyId pj.1.
Proof.
  intros Hnd Hne Hi Hj Heq. apply Hne.
  eapply (NoDup_lookup _ i j (strategyId pi.1) Hnd).
  - change (map strategyId (map fst ps)) with (strategyId <$> (fst <$> ps)).
    by rewrite !list_lookup_fmap, Hi.
  - change (map strategyId (map fst ps)) with (strategyId <$> (fst <$> ps)).
    by rewrite !list_lookup_fmap, Hj, Heq.
Qed.

Lemma stepAt_follows env w0 i ps w :
  batchFollows env w0 ps w ->
  batchFollows env w0 (stepAt env i ps w).2 (stepAt env i ps w).1.
Proof.
  intros Hb. pose proof Hb as (es & cs & He & Hc & Htr & Hnd & Hf & Hoe & Hoc).
  pose proof (stepAt_tracks env i ps w Htr) as Htr'.
  unfold stepAt in *.
  destruct (ps !! i) as [[plan p] |] eqn:Hi; [| exact Hb].
  destruct (ownAdded_stepStrategy env plan p w) as (es' & cs' & Hown).
  pose proof (follows_step env es cs w plan p es' cs'
                (Forall_lookup_1 _ _ _ _ Hf Hi) Hown) as Hmine.
  assert (Hview : forall j pj ctl, j <> i -> ps !! j = Some pj ->
            controllerOf pj.2 = Some ctl ->
            view ctl (stepStrategy env plan p w).1 = view ctl w).
  { intros j pj ctl Hne Hj Hctl. destruct p as [c at_ o | r | e]; try reflexivity.
    cbn [stepStrategy]. apply resumeStrategy_view_ne. intros ->.
    destruct Htr as (_ & Hdis & _).
    by apply (Hdis i j (plan, Pending ctl at_ o) pj ctl). }
  destruct (stepStrategy env plan p w) as [w' p']. cbn [fst snd] in *.
  pose proof (fst_insert ps i plan p p' Hi) as Hfst.
  assert (Hin : plan ∈ map fst ps).
  { change (map fst ps) with (fst <$> ps).
    apply (list_elem_of_fmap_2 fst ps (plan, p)). by eapply list_elem_of_lookup_2. }
  destruct (ownAdded_owner plan (map fst ps) w w' es' cs' Hin Hown) as [Hoe' Hoc'].
  destruct Hown as (He' & Hc' & Hes' & Hcs').
  exists (es ++ es'), (cs ++ cs').
  rewrite Hfst, He', Hc', He, Hc, <- !app_assoc.
  split; [reflexivity |]. split; [reflexivity |]. split; [exact Htr' |].
  split; [exact Hnd |]. split; [| split; by apply Forall_app].
  apply Forall_lookup_2. intros j pj Hj.
  destruct (decide (j = i)) as [-> | Hne].
  - rewrite list_lookup_insert_eq in Hj by (by eapply lookup_lt_Some).
    by injection Hj as <-.
  - rewrite list_lookup_insert_ne in Hj by done.
    pose proof (NoDup_lookup_ne ps j i pj (plan, p) Hnd Hne Hj Hi) as Hsid.
    cbn [fst] in Hsid.
    apply (follows_frame env es cs w w' pj es' cs');
      [exact (Forall_lookup_1 _ _ _ _ Hf Hj) | | |].
    + intros ctl Hctl. by apply (Hview j pj).
    + apply filter_none. eapply Forall_impl; [exact Hes' |].
      intros e Hx Hy. congruence.
    + apply (filter_none (fun c : Phase * AgentTask => id c.2 ∈ taskIds pj.1)).
      eapply Forall_impl; [exact Hcs' |].
      intros c Hx Hy. apply Hsid. by apply (taskIds_disjoint pj.1 plan (id c.2)).
Qed.

Lemma runSchedule_follows env w0 schedule ps w :
  batchFollows env w0 ps w ->
  batchFollows env w0 (runSchedule env schedule ps w).2
    (runSchedule env schedule ps w).1.
Proof.
  revert ps w. induction schedule as [| i schedule IH]; intros ps w H; simpl;
    [exact H |].
  pose proof (stepAt_follows env w0 i ps w H) as H'.
  destruct (stepAt env i ps w) as [w' ps']. by apply IH.
Qed.

Lemma rounds_follows n env w0 ps w :
  batchFollows env w0 ps w ->
  batchFollows env w0 (rounds n env ps w).2 (rounds n env ps w).1.
Proof.
  revert ps w. induction n as [| n IH]; intros ps w H; simpl; [exact H |].
  pose proof (runSchedule_follows env w0 (seq 0 (length ps)) ps w H) as H'.
  rewrite <- stepAll_schedule in H'.
  destruct (stepAll env ps w) as [w' ps']. by apply IH.
Qed.

Lemma startBatch_fst env timeout batch w :
  map fst (startBatch env timeout batch w).2 = batch.
Proof. by destruct (startBatch_runs env timeout batch w) as (_ & ? & _). Qed.

Lemma follows_rebase env es0 cs0 es cs w pp :
  eventsOf pp.1 es0 = [] -> callsOf pp.1 cs0 = [] ->
  follows env es cs w pp -> follows env (es0 ++ es) (cs0 ++ cs) w pp.
Proof.
  intros He0 Hc0 (k & Hp & He & Hc). exists k. split; [exact Hp |].
  by rewrite eventsOf_app, callsOf_app, He0, Hc0.
Qed.

Lemma startBatch_follows env timeout batch w :
  NoDup (map strategyId batch) ->
  batchFollows env w (startBatch env timeout batch w).2
    (startBatch env timeout batch w).1.
Proof.
  revert w. induction batch as [| plan rest IH]; intros w Hnd.
  { exists [], []. simpl. rewrite !app_nil_r.
    destruct (startBatch_tracks env timeout [] w) as [Htr _].
    repeat split; try constructor; exact Htr || apply Htr. }
  pose proof (startBatch_tracks env timeout (plan :: rest) w) as [Htr _].
  pose proof (startBatch_fst env timeout (plan :: rest) w) as Hfst.
  cbn [map] in Hnd. apply NoDup_cons in Hnd as [Hnot Hnd].
  cbn [startBatch] in *.
  destruct (ownAdded_startStrategy env plan timeout w) as (es1 & cs1 & Hown).
  destruct (startStrategy_samePoint env plan timeout 0 w emptyWorld) as [Hp Ha].
  pose proof (startStrategy_controllers env plan timeout w) as Hlen.
  destruct (startStrategy_pending env plan timeout w) as (o & Hpend & _).
  destruct (startStrategy env plan timeout w) as [w1 p] eqn:Hstart.
  cbn [fst snd] in *. subst p.
  specialize (IH w1 Hnd).
  pose proof (startBatch_fst env timeout rest w1) as Hfst'.
  destruct (startBatch_view_ne env timeout rest (length (controllers w)) w1)
    as [Hview _]; [lia |].
  destruct (startBatch env timeout rest w1) as [w2 ps]. cbn [fst snd] in *.
  destruct IH as (es2 & cs2 & He2 & Hc2 & _ & _ & Hf & Hoe & Hoc).
  rewrite Hfst' in Hoe, Hoc.
  pose proof Hown as (He1 & Hc1 & Hes1 & Hcs1).
  exists (es1 ++ es2), (cs1 ++ cs2).
  rewrite He2, Hc2, He1, Hc1, <- !app_assoc.
  split; [reflexivity |]. split; [reflexivity |]. split; [exact Htr |].
  cbn [map fst]. rewrite Hfst'.
  split; [by apply NoDup_cons |]. split; [| split].
  - constructor.
    + (* the strategy that was started first *)
      exists 0. cbn [fst snd]. unfold isolated. cbn [stepsStrategy fst snd].
      destruct Ha as (es0 & cs0 & Ha1 & Ha2 & Ha3 & Ha4).
      rewrite He1 in Ha1. apply app_inv_head in Ha1. subst es0.
      rewrite Hc1 in Ha2. apply app_inv_head in Ha2. subst cs0.
      split.
      * destruct Hp as [Hs Hv]. split; [exact Hs |].
        destruct (startStrategy env plan 0 emptyWorld).2; [| exact I | exact I].
        by rewrite Hview.
      * rewrite eventsOf_app, callsOf_app, Ha3, Ha4.
        rewrite (eventsOf_own plan es1 Hes1), (callsOf_own plan cs1 Hcs1).
        rewrite (eventsOf_others plan rest es2 Hnot Hoe).
        rewrite (callsOf_others plan rest cs2 Hnot Hoc).
        by rewrite !app_nil_r.
    + (* those started after it *)
      apply Forall_lookup_2. intros j pj Hj.
      assert (Hin : pj.1 ∈ rest).
      { rewrite <- Hfst'. change (map fst ps) with (fst <$> ps).
        apply list_elem_of_fmap_2. by eapply list_elem_of_lookup_2. }
      assert (Hsid : strategyId pj.1 <> strategyId plan).
      { intros Heq. apply Hnot. rewrite <- Heq.
        change (map strategyId rest) with (strategyId <$> rest).
        by apply list_elem_of_fmap_2. }
      apply follows_rebase; [| | exact (Forall_lookup_1 _ _ _ _ Hf Hj)].
      * apply filter_none. eapply Forall_impl; [exact Hes1 |].
        intros e Hx Hy. congruence.
      * apply (filter_none (fun c : Phase * AgentTask => id c.2 ∈ taskIds pj.1)).
        eapply Forall_impl; [exact Hcs1 |].
        intros c Hx Hy. apply Hsid. by apply (taskIds_disjoint pj.1 plan (id c.2)).
  - apply Forall_app. split.
    + eapply Forall_impl; [exact Hes1 |]. intros e Hx. exists plan.
      split; [apply elem_of_cons; by left | exact Hx].
    + eapply Forall_impl; [exact Hoe |]. intros e (plan' & Hin & Hx).
      exists plan'. split; [apply elem_of_cons; by right | exact Hx].
  - apply Forall_app. split.
    + eapply Forall_impl; [exact Hcs1 |]. intros c Hx. exists plan.
      split; [apply elem_of_cons; by left | exact Hx].
    + eapply Forall_impl; [exact Hoc |]. intros c (plan' & Hin & Hx).
      exists plan'. split; [apply elem_of_cons; by right | exact Hx].
Qed.

(** A run on its own that has ended stays as it is. *)
Lemma isolated_ended env plan k r :
  (isolated env plan k).2 = Fulfilled r ->
  isolated env plan k = executeSingleStrategy env plan 0 emptyWorld.
Proof.
  intros Hk.
  assert (H4 : isolated env plan 4 = executeSingleStrategy env plan 0 emptyWorld).
  { unfold isolated, executeSingleStrategy.
    by destruct (startStrategy env plan 0 emptyWorld). }
  rewrite <- H4. pose proof (isolated_4 env plan) as Hend.
  destruct (decide (k <= 4)) as [Hle | Hgt].
  - unfold isolated in *. replace 4 with (k + (4 - k)) by lia.
    rewrite stepsStrategy_add, (stepsStrategy_settled (4 - k)) by (by rewrite Hk).
    by destruct (stepsStrategy k env plan _ _).
  - unfold isolated in *. replace k with (4 + (k - 4)) by lia.
    rewrite stepsStrategy_add, (stepsStrategy_settled (k - 4)) by (by rewrite Hend).
    by destruct (stepsStrategy 4 env plan _ _).
Qed.

(** Whatever the schedule, when a batch of strategies with different ids
    has settled, the events that carry a strategy's id are those of its
    run on its own, in order, and so are the agent calls with its task
    ids; nothing else was published or called. *)
Lemma awaitAllSettled_follows env timeout schedule batch w :
  NoDup (map strategyId batch) ->
  exists es cs,
    events (awaitAllSettled env schedule (startBatch env timeout batch w).2
              (startBatch env timeout batch w).1).1 = events w ++ es
    /\ invocations (awaitAllSettled env schedule (startBatch env timeout batch w).2
                      (startBatch env timeout batch w).1).1 = invocations w ++ cs
    /\ (forall plan, plan ∈ batch ->
          eventsOf plan es = published (sequentialRun env plan)
          /\ callsOf plan cs = called (sequentialRun env plan))
    /\ Forall (fun e => exists plan,
                 plan ∈ batch /\ ep_strategyId e = strategyId plan) es
    /\ Forall (fun c : Phase * AgentTask =>
                 exists plan, plan ∈ batch /\ id c.2 ∈ taskIds plan) cs.
Proof.
  intros Hnd.
  pose proof (startBatch_follows env timeout batch w Hnd) as H0.
  destruct (startBatch_runs env timeout batch w) as [_ Hb0].
  destruct (startBatch env timeout batch w) as [w1 ps]. cbn [fst snd] in *.
  unfold awaitAllSettled.
  pose proof (runSchedule_follows env w schedule ps w1 H0) as H1.
  destruct (runSchedule_runs env schedule batch 4 ps w1 Hb0) as [_ Hb1].
  destruct (runSchedule env schedule ps w1) as [w2 ps2]. cbn [fst snd] in *.
  pose proof (rounds_follows 4 env w ps2 w2 H1) as H2.
  destruct (rounds_runs 4 env batch 4 ps2 w2 Hb1) as [_ Hb2].
  destruct (rounds 4 env ps2 w2) as [w3 ps3]. cbn [fst snd] in *.
  destruct H2 as (es & cs & He & Hc & _ & _ & Hf & Hoe & Hoc).
  destruct Hb2 as [Hfst Hdone]. rewrite Hfst in Hoe, Hoc.
  exists es, cs. split; [exact He |]. split; [exact Hc |].
  split; [| by split].
  intros plan Hin. rewrite <- Hfst in Hin.
  change (map fst ps3) with (fst <$> ps3) in Hin.
  apply list_elem_of_fmap in Hin as ([plan' p] & -> & Hin). cbn [fst].
  apply list_elem_of_lookup_1 in Hin as (i & Hi).
  pose proof (Forall_lookup_1 _ _ _ _ Hf Hi) as (k & [Hs _] & Hek & Hck).
  pose proof (Forall_lookup_1 _ _ _ _ Hdone Hi) as [Hwell Hrem].
  cbn [fst snd] in *.
  destruct p as [ctl [| | |] o | r | e]; simpl in Hrem, Hwell; try lia;
    try contradiction.
  simpl in Hs.
  destruct (isolated env plan' k).2 as [? ? ? | r' |] eqn:Hk; try discriminate.
  rewrite (isolated_ended env plan' k r' Hk) in Hek, Hck.
  destruct (sequentialRun_emptyWorld env plan') as (_ & Hpub & Hcal).
  by rewrite Hek, Hck, Hpub, Hcal.
Qed.

Lemma createBatches_concat {T} (items : list T) batchSize batches :
  createBatches items batchSize = Some batches -> concat batches = items.
Proof.
  destruct batchSize as [| bs].
  - destruct items as [| x items]; [by intros [= <-] |].
    by rewrite createBatches_zero.
  - destruct (createBatches_spec items (S bs)) as (bl & -> & Hcat & _); [lia |].
    by intros [= <-].
Qed.

Lemma runBatches_follows env timeout_ schedules batches results w w' rs :
  NoDup (map strategyId (concat batches)) ->
  runBatches env timeout_ false schedules batches results w = Some (w', rs) ->
  exists es cs,
    events w' = events w ++ es
    /\ invocations w' = invocations w ++ cs
    /\ (forall plan, plan ∈ concat batches ->
          eventsOf plan es = published (sequentialRun env plan)
          /\ callsOf plan cs = called (sequentialRun env plan))
    /\ Forall (fun e => exists plan,
                 plan ∈ concat batches /\ ep_strategyId e = strategyId plan) es
    /\ Forall (fun c : Phase * AgentTask =>
                 exists plan, plan ∈ concat batches /\ id c.2 ∈ taskIds plan) cs.
Proof.
  revert schedules results w.
  induction batches as [| batch batches IH]; intros schedules results w Hnd.
  { simpl. intros [= <- <-]. exists [], []. rewrite !app_nil_r.
    split; [reflexivity |]. split; [reflexivity |].
    split; [intros plan H; by apply elem_of_nil in H |]. split; constructor. }
  cbn [concat map] in Hnd. change (map strategyId (batch ++ concat batches))
    with (strategyId <$> (batch ++ concat batches)) in Hnd.
  rewrite fmap_app in Hnd. apply NoDup_app in Hnd as (Hnd1 & Hdis & Hnd2).
  cbn [runBatches].
  destruct (awaitAllSettled_follows env timeout_ (hd [] schedules) batch w Hnd1)
    as (es1 & cs1 & He1 & Hc1 & Hmine1 & Hoe1 & Hoc1).
  destruct (startBatch env timeout_ batch w) as [w1 ps]. cbn [fst snd] in *.
  destruct (awaitAllSettled env (hd [] schedules) ps w1) as [w2 [settled |]];
    [| discriminate].
  cbn [fst] in *. rewrite collectBatch_no_early_stop. intros Hrun.
  destruct (IH _ _ _ Hnd2 Hrun) as (es2 & cs2 & He2 & Hc2 & Hmine2 & Hoe2 & Hoc2).
  exists (es1 ++ es2), (cs1 ++ cs2).
  rewrite He2, Hc2, He1, Hc1, <- !app_assoc.
  split; [reflexivity |]. split; [reflexivity |]. split; [| split].
  - intros plan Hin. cbn [concat] in Hin.
    rewrite eventsOf_app, callsOf_app.
    apply elem_of_app in Hin as [Hin | Hin].
    + destruct (Hmine1 plan Hin) as [-> ->].
      assert (Hnot : strategyId plan ∉ map strategyId (concat batches)).
      { intros H. apply (Hdis (strategyId plan)); [| exact H].
        by apply list_elem_of_fmap_2. }
      rewrite (eventsOf_others plan _ es2 Hnot Hoe2).
      rewrite (callsOf_others plan _ cs2 Hnot Hoc2).
      by rewrite !app_nil_r.
    + destruct (Hmine2 plan Hin) as [-> ->].
      assert (Hnot : strategyId plan ∉ map strategyId batch).
      { intros H. apply (Hdis (strategyId plan)); [exact H |].
        by apply list_elem_of_fmap_2. }
      rewrite (eventsOf_others plan _ es1 Hnot Hoe1).
      by rewrite (callsOf_others plan _ cs1 Hnot Hoc1).
  - cbn [concat]. apply Forall_app. split;
      (eapply Forall_impl; [eassumption |]); intros e (plan & Hin & Hx);
      exists plan; (split; [| exact Hx]); apply elem_of_app; tauto.
  - cbn [concat]. apply Forall_app. split;
      (eapply Forall_impl; [eassumption |]); intros c (plan & Hin & Hx);
      exists plan; (split; [| exact Hx]); apply elem_of_app; tauto.
Qed.

(** X24: the strategies of a batch run side by side, and in whatever
    order they are resumed they do not get in each other's way.  For plans
    with different strategy ids and early stop off, the events that
    [executeStrategies] has published for a strategy (those that carry its
    id) are exactly those of the strategy's run on its own, in the same
    order, and the agent calls with its task ids are those of that run;
    every event published and every call made belongs to one of the
    plans. *)
Theorem strategies_do_not_mix env schedules plans options w w' results :
  NoDup (map strategyId plans) ->
  default false (earlyStopOnSuccess options) = false ->
  executeStrategies env schedules plans options w = Some (w', results) ->
  (forall plan, plan ∈ plans ->
     eventsOf plan (eventsSince w w') = published (sequentialRun env plan)
     /\ callsOf plan (callsSince w w') = called (sequentialRun env plan))
  /\ Forall (fun e => exists plan,
               plan ∈ plans /\ ep_strategyId e = strategyId plan)
       (eventsSince w w')
  /\ Forall (fun c : Phase * AgentTask =>
               exists plan, plan ∈ plans /\ id c.2 ∈ taskIds plan)
       (callsSince w w').
Proof.
  intros Hnd Hes. unfold executeStrategies. rewrite Hes.
  destruct (createBatches plans _) as [batches |] eqn:Hcb; [| discriminate].
  apply createBatches_concat in Hcb. subst plans. intros Hrun.
  destruct (runBatches_follows _ _ _ _ _ _ _ _ Hnd Hrun)
    as (es & cs & He & Hc & Hmine & Hoe & Hoc).
  unfold eventsSince, callsSince. rewrite He, Hc, !drop_app_length.
  split; [exact Hmine | split; [exact Hoe | exact Hoc]].
Qed.

Lemma strategies_do_not_mix_witness :
  (forall plan, plan ∈ [plan1; plan2; plan3] ->
     eventsOf plan (eventsSince emptyWorld sampleEnd.1)
     = published (sequentialRun envTrainingRejects plan)
     /\ callsOf plan (callsSince emptyWorld sampleEnd.1)
        = called (sequentialRun envTrainingRejects plan))
  /\ Forall (fun e => exists plan,
               plan ∈ [plan1; plan2; plan3] /\ ep_strategyId e = strategyId plan)
       (eventsSince emptyWorld sampleEnd.1)
  /\ Forall (fun c : Phase * AgentTask =>
               exists plan, plan ∈ [plan1; plan2; plan3] /\ id c.2 ∈ taskIds plan)
       (callsSince emptyWorld sampleEnd.1).
Proof.
  apply (strategies_do_not_mix envTrainingRejects [[2; 0; 1]] [plan1; plan2; plan3]
           noOptions emptyWorld sampleEnd.1 sampleEnd.2).
  - apply (bool_decide_unpack _). by vm_compute.
  - reflexivity.
  - vm_compute. reflexivity.
Defined.

(** * The recommendations of [compareStrategies] *)


